(** * Baka-Bot: the Mafia game engine of [newclasses.py]

    A shallow embedding of [MafiaGame] and its helpers.  Python objects
    live in two stores, one for [Player] objects and one for list objects,
    so that two attributes holding the same list ([self.alive = self.players])
    are modelled as two references to one cell.  Coroutines are run to
    completion one at a time; what they send through the Discord client and
    what they sleep for is recorded in a trace. *)

From Stdlib Require Import ZArith Lia Ascii.
From stdpp Require Import base option list strings pretty gmap.

(** ** Data model *)

(** Addresses of [Player] objects and of list objects. *)
Abbreviation PlayerRef := nat (only parsing).
Abbreviation ListRef := nat (only parsing).

(** [discord.Channel]: only its identity matters here. *)
Abbreviation Channel := string (only parsing).

(** [discord.User]: equality and hashing go through [id]. *)
Record User := mkUser { uid : string; uname : string }.

(** [MafiaRole(name, game)] and [TownRole(game)]. *)
Inductive Role :=
| MafiaRole (name : string)
| TownRole.

Definition role_name (r : Role) : string :=
  match r with
  | MafiaRole name => "Mafia " +:+ name
  | TownRole => "Townie"
  end.

(** [str(p.role)]; an unassigned role prints as Python's [None]. *)
Definition role_str (r : option Role) : string :=
  match r with
  | Some r => role_name r
  | None => "None"
  end.

Record Player := mkPlayer {
  user : User;
  role : option Role;
  is_alive : bool;
  votes_for : option PlayerRef;
  is_no_lynch : bool
}.

(** [Player.__init__]. *)
Definition new_Player (discord_user : User) : Player :=
  mkPlayer discord_user None true None false.

(** [day_phase] only ever holds the strings "Night" and "Day". *)
Inductive Phase := Night | Day.

Definition phase_str (ph : Phase) : string :=
  match ph with Night => "Night" | Day => "Day" end.

Record MafiaGame := mkGame {
  timeout : Z;
  is_accepting : bool;
  is_ongoing : bool;
  players : ListRef;
  townies : ListRef;
  mafia : ListRef;
  alive : ListRef;
  roles : gmap string Role;
  day_num : Z;
  day_phase : Phase;
  no_lynch : Z;
  vote_table : list (PlayerRef * Z);
  user_to_player : gmap string PlayerRef;
  gen_channel : option Channel
}.

(** [discord.Message], as far as the game reads it. *)
Record Message := mkMessage {
  author : User;
  content : string;
  channel : Channel;
  mentions : list User
}.

(** Where [send_message] delivers: the first argument of the call. *)
Inductive Dest :=
| ToChannel (c : option Channel)
| ToUser (u : User).

Inductive Event :=
| Send (d : Dest) (text : string)
| Sleep (secs : Z).

Inductive Exn :=
| AssertionError
| KeyError
| ValueError
| OverflowError
| BadRef.  (* an address that was never allocated; not a Python error *)

Record World := mkWorld {
  game : MafiaGame;
  objs : list Player;
  lists : list (list PlayerRef);
  trace : list Event
}.

(** ** Insertion-ordered dictionaries

    [vote_table] is iterated by [print_votes], so its order is kept. *)
Section Dict.
Context {K V : Type} `{EqDecision K}.

Fixpoint dict_get (k : K) (d : list (K * V)) : option V :=
  match d with
  | [] => None
  | (k', v) :: d' => if decide (k = k') then Some v else dict_get k d'
  end.

(** [d[k] = v]: an existing key keeps its position. *)
Fixpoint dict_set (k : K) (v : V) (d : list (K * V)) : list (K * V) :=
  match d with
  | [] => [(k, v)]
  | (k', v') :: d' =>
      if decide (k = k') then (k, v) :: d' else (k', v') :: dict_set k v d'
  end.

(** [dict(pairs)]. *)
Definition dict_of_pairs (l : list (K * V)) : list (K * V) :=
  foldl (fun d kv => dict_set kv.1 kv.2 d) [] l.

Definition dict_keys (d : list (K * V)) : list K := d.*1.
Definition dict_values (d : list (K * V)) : list V := d.*2.
End Dict.

(** ** Arithmetic of the source *)

(** [math.floor(n / 2)] and [math.ceil(n / 2)] for a length [n]. *)
Definition floor_half (n : nat) : Z := (Z.of_nat n / 2)%Z.
Definition ceil_half (n : nat) : Z := (- ((- Z.of_nat n) / 2))%Z.

(** [round(n / 4)]: Python 3 rounds halves to the even neighbour. *)
Definition round_quarter (n : nat) : nat :=
  let q := n / 4 in
  match n mod 4 with
  | 0 | 1 => q
  | 2 => if Nat.even q then q else S q
  | _ => S q
  end.

Definition sum_Z (l : list Z) : Z := foldr Z.add 0%Z l.

(** [list.remove(x)] removes the first occurrence, if any. *)
Fixpoint remove_first (x : PlayerRef) (l : list PlayerRef) : list PlayerRef :=
  match l with
  | [] => []
  | y :: l' => if decide (x = y) then l' else y :: remove_first x l'
  end.

(** ** Strings of the source *)

Definition newline : string := String (Ascii.ascii_of_nat 10) EmptyString.

(** [sep.join(l)]. *)
Fixpoint join (sep : string) (l : list string) : string :=
  match l with
  | [] => ""
  | [s] => s
  | s :: l' => s +:+ sep +:+ join sep l'
  end.

Definition space : ascii := Ascii.ascii_of_nat 32.

(** [s.split(" ")]: every single space separates, empty pieces are kept. *)
Fixpoint split_space (s : string) : list string :=
  match s with
  | EmptyString => [""]
  | String c s' =>
      if decide (c = space) then "" :: split_space s'
      else match split_space s' with
           | [] => [String c ""]
           | w :: ws => String c w :: ws
           end
  end.

(** A [string] holds a Python string in UTF-8; it is ASCII when every byte
    is below 128.  [str.split(" ")] cuts at the byte 32 either way. *)
Fixpoint is_ascii (s : string) : bool :=
  match s with
  | EmptyString => true
  | String c s' => (Ascii.nat_of_ascii c <? 128) && is_ascii s'
  end.

(** What [int] takes from the interpreter.  A string that is not ASCII is
    first brought to ASCII with the tables of the interpreter's Unicode
    database: every Unicode white space becomes a space, every Unicode decimal
    digit its ASCII digit, and at the first other character that is not ASCII
    the string is cut with a [?]; [to_ascii] is that step.
    [int_max_str_digits] is [sys.get_int_max_str_digits()], with 0 for no
    limit, as in an interpreter that has none. *)
Record Interp := mkInterp {
  to_ascii : string -> string;
  int_max_str_digits : nat
}.

(** The white space [int] skips around an ASCII number: tab, line feed,
    vertical tab, form feed, carriage return and space. *)
Definition is_space (c : ascii) : bool :=
  let n := Ascii.nat_of_ascii c in
  ((9 <=? n) && (n <=? 13)) || (n =? 32).

Definition digit_val (c : ascii) : option Z :=
  let n := Ascii.nat_of_ascii c in
  if (48 <=? n) && (n <=? 57) then Some (Z.of_nat (n - 48)) else None.

Fixpoint lstrip (s : string) : string :=
  match s with
  | EmptyString => ""
  | String c s' => if is_space c then lstrip s' else s
  end.

Definition strip (s : string) : string :=
  String.rev (lstrip (String.rev (lstrip s))).

Fixpoint digits_go (acc : Z) (after_digit : bool) (s : string) : option Z :=
  match s with
  | EmptyString => if after_digit then Some acc else None
  | String c s' =>
      match digit_val c with
      | Some d => digits_go (10 * acc + d)%Z true s'
      | None =>
          if decide (c = Ascii.ascii_of_nat 95) then
            if after_digit then digits_go acc false s' else None
          else None
      end
  end.

(** The digits of [s], underscores left out. *)
Fixpoint count_digits (s : string) : nat :=
  match s with
  | EmptyString => 0
  | String c s' =>
      (match digit_val c with Some _ => 1 | None => 0 end) + count_digits s'
  end.

(** More than 640 digits and more than the limit, if there is one. *)
Definition too_many_digits (limit n : nat) : bool :=
  (640 <? n) && (0 <? limit) && (limit <? n).

(** [int] on an ASCII string: surrounding white space is dropped, one sign
    is allowed, single underscores may separate digits, and the digits may
    not be more than the limit.  [None] stands for [ValueError]. *)
Definition int_of_ascii (limit : nat) (s : string) : option Z :=
  let body := strip s in
  if too_many_digits limit (count_digits body) then None else
  match body with
  | EmptyString => None
  | String c s' =>
      if decide (c = Ascii.ascii_of_nat 45) then Z.opp <$> digits_go 0 false s'
      else if decide (c = Ascii.ascii_of_nat 43) then digits_go 0 false s'
      else digits_go 0 false (String c s')
  end.

(** [int(s)]. *)
Definition py_int (I : Interp) (s : string) : option Z :=
  int_of_ascii (int_max_str_digits I) (if is_ascii s then s else to_ascii I s).

(** ** The Unicode tables of CPython 3.11

    One interpreter to run the model with: Unicode 14.0, the default digit
    limit.  What the statements below prove they prove for every [Interp]. *)

(** The code points of a string in UTF-8; bytes that are no UTF-8 give
    U+FFFD. *)
Fixpoint utf8_decode (s : string) : list N :=
  match s with
  | EmptyString => []
  | String c0 s0 =>
      let b0 := Ascii.N_of_ascii c0 in
      if (b0 <? 128)%N then b0 :: utf8_decode s0
      else if (b0 <? 192)%N then 65533%N :: utf8_decode s0
      else if (b0 <? 224)%N then
        match s0 with
        | String c1 s1 =>
            ((b0 - 192) * 64 + (Ascii.N_of_ascii c1 - 128))%N :: utf8_decode s1
        | _ => [65533%N]
        end
      else if (b0 <? 240)%N then
        match s0 with
        | String c1 (String c2 s2) =>
            ((b0 - 224) * 4096 + (Ascii.N_of_ascii c1 - 128) * 64
             + (Ascii.N_of_ascii c2 - 128))%N :: utf8_decode s2
        | _ => [65533%N]
        end
      else if (b0 <? 248)%N then
        match s0 with
        | String c1 (String c2 (String c3 s3)) =>
            ((b0 - 240) * 262144 + (Ascii.N_of_ascii c1 - 128) * 4096
             + (Ascii.N_of_ascii c2 - 128) * 64
             + (Ascii.N_of_ascii c3 - 128))%N :: utf8_decode s3
        | _ => [65533%N]
        end
      else 65533%N :: utf8_decode s0
  end.

(** The decimal digits beyond ASCII: each entry is the code point of a zero
    and the length of the run of digits 0 to 9 that starts there. *)
Definition decimal_runs : list (N * N) :=
  [(1632, 10); (1776, 10); (1984, 10); (2406, 10); (2534, 10); (2662, 10);
   (2790, 10); (2918, 10); (3046, 10); (3174, 10); (3302, 10); (3430, 10);
   (3558, 10); (3664, 10); (3792, 10); (3872, 10); (4160, 10); (4240, 10);
   (6112, 10); (6160, 10); (6470, 10); (6608, 10); (6784, 10); (6800, 10);
   (6992, 10); (7088, 10); (7232, 10); (7248, 10); (42528, 10);
   (43216, 10); (43264, 10); (43472, 10); (43504, 10); (43600, 10);
   (44016, 10); (65296, 10); (66720, 10); (68912, 10); (69734, 10);
   (69872, 10); (69942, 10); (70096, 10); (70384, 10); (70736, 10);
   (70864, 10); (71248, 10); (71360, 10); (71472, 10); (71904, 10);
   (72016, 10); (72784, 10); (73040, 10); (73120, 10); (92768, 10);
   (92864, 10); (93008, 10); (120782, 50); (123200, 10); (123632, 10);
   (125264, 10); (130032, 10)]%N.

Fixpoint decimal_in (runs : list (N * N)) (cp : N) : option N :=
  match runs with
  | [] => None
  | (z, len) :: runs' =>
      if ((z <=? cp) && (cp <? z + len))%N then Some ((cp - z) mod 10)%N
      else decimal_in runs' cp
  end.

(** The decimal value of a code point, if it is a decimal digit. *)
Definition unicode_decimal (cp : N) : option N := decimal_in decimal_runs cp.

(** The white space beyond ASCII. *)
Definition unicode_space (cp : N) : bool :=
  ((cp =? 133) || (cp =? 160) || (cp =? 5760)
   || ((8192 <=? cp) && (cp <=? 8202))
   || (cp =? 8232) || (cp =? 8233) || (cp =? 8239) || (cp =? 8287)
   || (cp =? 12288))%N.

(** The step [int] takes on a string that is not ASCII: code points below
    127 stay, white space becomes a space, a decimal digit its ASCII digit,
    and the string is cut with a [?] at the first other code point. *)
Fixpoint transform_decimal_and_space (l : list N) : string :=
  match l with
  | [] => ""
  | cp :: l' =>
      if (cp <? 127)%N then
        String (Ascii.ascii_of_N cp) (transform_decimal_and_space l')
      else if unicode_space cp then
        String space (transform_decimal_and_space l')
      else match unicode_decimal cp with
           | Some d =>
               String (Ascii.ascii_of_N (48 + d))
                 (transform_decimal_and_space l')
           | None => "?"
           end
  end.

Definition cpython : Interp :=
  mkInterp (fun s => transform_decimal_and_space (utf8_decode s)) 4300.

(** ** The monad of the handlers: a world is threaded through, and a raised
    exception stops the handler but keeps what it had already changed. *)
Inductive Result (A : Type) :=
| Ok (a : A)
| Raise (e : Exn).
Arguments Ok {A} a.
Arguments Raise {A} e.

Definition M (A : Type) : Type := World -> Result A * World.

Global Instance M_ret : MRet M := fun A a w => (Ok a, w).
Global Instance M_bind : MBind M := fun A B f m w =>
  match m w with
  | (Ok a, w') => f a w'
  | (Raise e, w') => (Raise e, w')
  end.

Definition raise {A} (e : Exn) : M A := fun w => (Raise e, w).

Definition get_game : M MafiaGame := fun w => (Ok (game w), w).

Definition put_game (g : MafiaGame) : M unit := fun w =>
  (Ok tt, mkWorld g (objs w) (lists w) (trace w)).

Definition get_player (p : PlayerRef) : M Player := fun w =>
  match objs w !! p with
  | Some pl => (Ok pl, w)
  | None => (Raise BadRef, w)
  end.

Definition put_player (p : PlayerRef) (pl : Player) : M unit := fun w =>
  if decide (p < length (objs w)) then
    (Ok tt, mkWorld (game w) (<[p := pl]> (objs w)) (lists w) (trace w))
  else (Raise BadRef, w).

Definition alloc_player (pl : Player) : M PlayerRef := fun w =>
  (Ok (length (objs w)),
   mkWorld (game w) (objs w ++ [pl]) (lists w) (trace w)).

Definition get_list (r : ListRef) : M (list PlayerRef) := fun w =>
  match lists w !! r with
  | Some l => (Ok l, w)
  | None => (Raise BadRef, w)
  end.

Definition put_list (r : ListRef) (l : list PlayerRef) : M unit := fun w =>
  if decide (r < length (lists w)) then
    (Ok tt, mkWorld (game w) (objs w) (<[r := l]> (lists w)) (trace w))
  else (Raise BadRef, w).

Definition alloc_list (l : list PlayerRef) : M ListRef := fun w =>
  (Ok (length (lists w)),
   mkWorld (game w) (objs w) (lists w ++ [l]) (trace w)).

Definition emit (e : Event) : M unit := fun w =>
  (Ok tt, mkWorld (game w) (objs w) (lists w) (trace w ++ [e])).

(** The first integer too large for a float: it rounds to [2^1024]. *)
Definition float_overflow : Z := (2 ^ 1024 - 2 ^ 970)%Z.

(** [await asyncio.sleep(secs)] for an [int]: a delay that is not positive
    returns at once; a positive one is turned into a float for the loop's
    clock, which raises [OverflowError] when it is too large for one.  A
    sleep that returns is recorded with its delay. *)
Definition sleep (secs : Z) : M unit :=
  if decide (secs < float_overflow)%Z then emit (Sleep secs)
  else raise OverflowError.

(** [for x in l: body(x)]. *)
Fixpoint for_each {A} (l : list A) (body : A -> M unit) : M unit :=
  match l with
  | [] => mret tt
  | x :: l' => body x;; for_each l' body
  end.

(** [[f(x) for x in l]] when [f] reads the stores. *)
Fixpoint for_map {A B} (l : list A) (f : A -> M B) : M (list B) :=
  match l with
  | [] => mret []
  | x :: l' => y ← f x; ys ← for_map l' f; mret (y :: ys)
  end.

(** ** Attribute updates *)

Definition with_votes (nl : Z) (vt : list (PlayerRef * Z)) (g : MafiaGame)
  : MafiaGame :=
  mkGame (timeout g) (is_accepting g) (is_ongoing g) (players g) (townies g)
    (mafia g) (alive g) (roles g) (day_num g) (day_phase g) nl vt
    (user_to_player g) (gen_channel g).

Definition with_day (ph : Phase) (n : Z) (g : MafiaGame) : MafiaGame :=
  mkGame (timeout g) (is_accepting g) (is_ongoing g) (players g) (townies g)
    (mafia g) (alive g) (roles g) n ph (no_lynch g) (vote_table g)
    (user_to_player g) (gen_channel g).

Definition with_lobby (t : Z) (acc : bool) (ch : option Channel)
  (g : MafiaGame) : MafiaGame :=
  mkGame t acc (is_ongoing g) (players g) (townies g)
    (mafia g) (alive g) (roles g) (day_num g) (day_phase g) (no_lynch g)
    (vote_table g) (user_to_player g) ch.

Definition with_roles (rs : gmap string Role) (g : MafiaGame) : MafiaGame :=
  mkGame (timeout g) (is_accepting g) (is_ongoing g) (players g) (townies g)
    (mafia g) (alive g) rs (day_num g) (day_phase g) (no_lynch g)
    (vote_table g) (user_to_player g) (gen_channel g).

Definition with_rosters (ms ts al : ListRef) (u2p : gmap string PlayerRef)
  (g : MafiaGame) : MafiaGame :=
  mkGame (timeout g) (is_accepting g) (is_ongoing g) (players g) ts
    ms al (roles g) (day_num g) (day_phase g) (no_lynch g)
    (vote_table g) u2p (gen_channel g).

Definition set_role (r : option Role) (pl : Player) : Player :=
  mkPlayer (user pl) r (is_alive pl) (votes_for pl) (is_no_lynch pl).
Definition set_is_alive (b : bool) (pl : Player) : Player :=
  mkPlayer (user pl) (role pl) b (votes_for pl) (is_no_lynch pl).
Definition set_votes_for (v : option PlayerRef) (pl : Player) : Player :=
  mkPlayer (user pl) (role pl) (is_alive pl) v (is_no_lynch pl).
Definition set_is_no_lynch (b : bool) (pl : Player) : Player :=
  mkPlayer (user pl) (role pl) (is_alive pl) (votes_for pl) b.

(** ** The game *)

(** [MafiaGame.__init__]: every [[]] is a list object of its own. *)
Definition new_MafiaGame : World :=
  mkWorld (mkGame 10 false false 0 1 2 3 ∅ 0 Night 0 [] ∅ None)
    [] [[]; []; []; []] [].

Definition init_game : M unit :=
  ps ← alloc_list [];
  ts ← alloc_list [];
  ms ← alloc_list [];
  g ← get_game;
  put_game (mkGame (timeout g) true true ps ts ms (alive g) ∅ 0 Night
              (no_lynch g) [] ∅ (gen_channel g)).

Definition end_game : M unit :=
  ps ← alloc_list [];
  ts ← alloc_list [];
  ms ← alloc_list [];
  al ← alloc_list [];
  g ← get_game;
  put_game (mkGame (timeout g) true true ps ts ms al ∅ 0 Night
              (no_lynch g) [] ∅ None).

Definition add_player (discord_user : User) : M unit :=
  p ← alloc_player (new_Player discord_user);
  g ← get_game;
  l ← get_list (players g);
  put_list (players g) (l ++ [p]).

Definition kill_player (player : PlayerRef) : M unit :=
  g ← get_game;
  l ← get_list (alive g);
  if decide (player ∈ l) then
    put_list (alive g) (remove_first player l);;
    pl ← get_player player;
    put_player player (set_is_alive false pl)
  else raise ValueError.

Definition make_vote_table : M unit :=
  g ← get_game;
  al ← get_list (alive g);
  let zeroes := replicate (length al) 0%Z in
  put_game (with_votes 0 (dict_of_pairs (zip al zeroes)) g).

(** [send_message]: the client is the outside world, the call is recorded. *)
Definition send_message (channel : Dest) (message : string) : M unit :=
  emit (Send channel message).

Definition progress_day : M unit :=
  g ← get_game;
  put_game (match day_phase g with
            | Day => with_day Night (day_num g) g
            | Night => with_day Day (day_num g + 1) g
            end);;
  ps ← get_list (players g);
  for_each ps (fun p =>
    pl ← get_player p;
    put_player p (set_votes_for None (set_is_no_lynch false pl)));;
  g ← get_game;
  put_game (with_votes 0 (vote_table g) g);;
  make_vote_table;;
  g ← get_game;
  send_message (ToChannel (gen_channel g))
    ("It is now " +:+ phase_str (day_phase g) +:+ " " +:+ pretty (day_num g)
     +:+ ".").

(** The condition of the first [if] of [check_if_day_should_progress]:
    [voted and self.vote_table[voted] >= math.floor(len(self.vote_table)/2) + 1]. *)
Definition lynch_reached (voted : option PlayerRef) : M bool :=
  match voted with
  | None => mret false
  | Some v =>
      g ← get_game;
      match dict_get v (vote_table g) with
      | None => raise KeyError
      | Some c =>
          mret (bool_decide (floor_half (length (vote_table g)) + 1 ≤ c)%Z)
      end
  end.

Definition check_if_day_should_progress (voted : option PlayerRef) : M unit :=
  b ← lynch_reached voted;
  g ← get_game;
  match b, voted with
  | true, Some v =>
      pl ← get_player v;
      send_message (ToChannel (gen_channel g))
        (match day_phase g with
         | Day => "<@" +:+ uid (user pl) +:+ "> has been lynched!"
         | Night => "<@" +:+ uid (user pl) +:+ "> has been killed!"
         end);;
      kill_player v;;
      progress_day
  | _, _ =>
      al ← get_list (alive g);
      if bool_decide (ceil_half (length al) ≤ no_lynch g)%Z then
        send_message (ToChannel (gen_channel g))
          "The town has voted for no lynch!";;
        progress_day
      else mret tt
  end.

(** The inner loop of [print_votes]: the names of the keys [p] of the vote
    table with [p.votes_for == player]. *)
Fixpoint voted_by (o : list Player) (player : PlayerRef)
  (keys : list PlayerRef) : option (list string) :=
  match keys with
  | [] => Some []
  | p :: keys' =>
      pl ← o !! p;
      rest ← voted_by o player keys';
      Some (if decide (votes_for pl = Some player)
            then uname (user pl) :: rest else rest)
  end.

(** The outer loop of [print_votes] over [self.vote_table.items()]. *)
Fixpoint votes_lines (o : list Player) (keys : list PlayerRef)
  (items : list (PlayerRef * Z)) : option string :=
  match items with
  | [] => Some ""
  | (player, votes) :: items' =>
      pl ← o !! player;
      names ← voted_by o player keys;
      rest ← votes_lines o keys items';
      Some (uname (user pl) +:+ "(" +:+ pretty votes +:+ ") - "
            +:+ join ", " names +:+ newline +:+ rest)
  end.

Definition votes_text (o : list Player) (vt : list (PlayerRef * Z)) (nl : Z)
  : option string :=
  body ← votes_lines o (dict_keys vt) vt;
  Some ("The votes currently are:" +:+ newline +:+ body
        +:+ "No lynch(" +:+ pretty nl +:+ ")").

Definition print_votes : M unit := fun w =>
  match votes_text (objs w) (vote_table (game w)) (no_lynch (game w)) with
  | Some ret => send_message (ToChannel (gen_channel (game w))) ret w
  | None => (Raise BadRef, w)
  end.

(** What [give_roles] leaves to chance: the draw of [random.sample] and the
    order in which a set is turned into a list. *)
Record Chance := mkChance {
  sample : list PlayerRef -> nat -> list PlayerRef;
  set_order : list PlayerRef -> list PlayerRef
}.

(** [random.sample(l, k)] picks [k] places of [l], each at most once;
    [list(s)] lists every element of the set [s] once. *)
Definition fair (R : Chance) : Prop :=
  (forall l k, k <= length l ->
     length (sample R l k) = k /\ sample R l k ⊆+ l) /\
  (forall l, set_order R l ≡ₚ l).

Definition the_roles : gmap string Role :=
  <["town" := TownRole]> (<["mafia" := MafiaRole ""]> ∅).

Definition role_of (key : string) : M Role :=
  g ← get_game;
  match roles g !! key with
  | Some r => mret r
  | None => raise KeyError
  end.

Definition give_roles (R : Chance) : M unit :=
  g ← get_game;
  send_message (ToChannel (gen_channel g)) "Assigning roles to players.";;
  put_game (with_roles the_roles g);;
  ps ← get_list (players g);
  let num_players := length ps in
  let num_mafia := round_quarter num_players in
  mafias ← (if decide (num_mafia <= num_players)
            then mret (sample R ps num_mafia) else raise ValueError);
  let townies := set_order R (list_difference (remove_dups ps) mafias) in
  for_each mafias (fun m =>
    r ← role_of "mafia"; pl ← get_player m;
    put_player m (set_role (Some r) pl));;
  for_each townies (fun t =>
    r ← role_of "town"; pl ← get_player t;
    put_player t (set_role (Some r) pl));;
  ms ← alloc_list mafias;
  ts ← alloc_list townies;
  users ← for_map ps (fun p => pl ← get_player p; mret (user pl));
  g ← get_game;
  put_game (with_rosters ms ts (players g)
              (foldl (fun d up => <[uid up.1 := up.2]> d) ∅ (zip users ps)) g);;
  send_message (ToChannel (gen_channel g)) "PM-ing roles to players.";;
  for_each ps (fun p =>
    pl ← get_player p;
    send_message (ToUser (user pl))
      ("You are a " +:+ role_str (role pl) +:+ "."));;
  if decide (1 < length mafias) then
    for_each mafias (fun m =>
      let allies := remove_first m mafias in
      allies_names ← for_map allies (fun ally =>
        pl ← get_player ally; mret (uname (user pl)));
      send_message (ToChannel (gen_channel g))
        ("Your allies are " +:+ join ", " allies_names))
  else mret tt.

(** [opening_text], formatted with the join window [t]. *)
Definition opening_text (t : Z) : string :=
  "A Mafia game has started! Players who want to join may type ':>join'. "
  +:+ "Joining period will last for " +:+ pretty t +:+ " seconds.".

(** [start_new_game].  While the coroutine sleeps other handlers run; the
    only ones that touch the game then are joins, given as [joiners]. *)
Definition start_new_game (R : Chance) (I : Interp) (joiners : list User)
  (message : Message) : M unit :=
  g ← get_game;
  if is_ongoing g then
    send_message (ToChannel (gen_channel g)) "There is a game already ongoing!"
  else
    init_game;;
    g ← get_game;
    put_game (with_lobby (timeout g) (is_accepting g) (Some (channel message)) g);;
    g ← get_game;
    send_message (ToChannel (gen_channel g)) (opening_text (timeout g));;
    (match split_space (content message) with
     | _ :: arg :: _ =>
         put_game (with_lobby (default 0%Z (py_int I arg)) (is_accepting g)
                     (gen_channel g) g)
     | _ => mret tt
     end);;
    for_each (mentions message) add_player;;
    g ← get_game;
    sleep (timeout g);;
    for_each joiners add_player;;
    g ← get_game;
    put_game (with_lobby (timeout g) false (gen_channel g) g);;
    give_roles R;;
    progress_day.

(** [self.vote_table[k] += d]. *)
Definition table_add (k : PlayerRef) (d : Z) : M unit :=
  g ← get_game;
  match dict_get k (vote_table g) with
  | Some c => put_game (with_votes (no_lynch g) (dict_set k (c + d)%Z (vote_table g)) g)
  | None => raise KeyError
  end.

Definition not_in_game_text : string :=
  "Sorry, you are not part of the current game.".
Definition dead_text (pl : Player) : string :=
  "Sorry, <@" +:+ uid (user pl) +:+ ">. You're dead.".

Definition vote_to_lynch (message : Message) : M unit :=
  g ← get_game;
  if negb (is_ongoing g) then raise AssertionError else
  match user_to_player g !! uid (author message) with
  | None => send_message (ToChannel (gen_channel g)) not_in_game_text
  | Some player =>
  pl ← get_player player;
  if negb (is_alive pl) then
    send_message (ToChannel (gen_channel g)) (dead_text pl)
  else
  match mentions message with
  | [] =>
      send_message (ToChannel (gen_channel g))
        "You have to vote for someone! (Or no-lynch!)"
  | user_being_lynched :: _ =>
  match user_to_player g !! uid user_being_lynched with
  | None =>
      send_message (ToChannel (gen_channel g)) "That player is not in the game."
  | Some player_being_lynched =>
  tl ← get_player player_being_lynched;
  if negb (is_alive tl) then
    send_message (ToChannel (gen_channel g))
      "You have to vote for someone alive!"
  else
    (if is_no_lynch pl then
       put_player player (set_is_no_lynch false pl);;
       put_game (with_votes (no_lynch g - 1) (vote_table g) g)
     else mret tt);;
    pl ← get_player player;
    msg ← match votes_for pl with
          | Some old => table_add old (-1);; mret " changed their vote to "
          | None => mret " voted for "
          end;
    send_message (ToChannel (gen_channel g))
      (uname (author message) +:+ msg +:+ uname user_being_lynched +:+ "!");;
    table_add player_being_lynched 1;;
    pl ← get_player player;
    put_player player (set_votes_for (Some player_being_lynched) pl);;
    print_votes;;
    check_if_day_should_progress (Some player_being_lynched)
  end end end.

Definition vote_no_lynch (message : Message) : M unit :=
  g ← get_game;
  if negb (is_ongoing g) then raise AssertionError else
  match user_to_player g !! uid (author message) with
  | None => send_message (ToChannel (gen_channel g)) not_in_game_text
  | Some player =>
  pl ← get_player player;
  if negb (is_alive pl) then
    send_message (ToChannel (gen_channel g)) (dead_text pl)
  else if is_no_lynch pl then mret tt
  else
    (match votes_for pl with
     | Some old =>
         table_add old (-1);;
         pl ← get_player player;
         put_player player (set_votes_for None pl)
     | None => mret tt
     end);;
    pl ← get_player player;
    put_player player (set_is_no_lynch true pl);;
    g ← get_game;
    put_game (with_votes (no_lynch g + 1) (vote_table g) g);;
    send_message (ToChannel (gen_channel g))
      ("<@" +:+ uid (user pl) +:+ "> votes no lynch!");;
    print_votes;;
    check_if_day_should_progress None
  end.

(** [vote_to_kill] has a docstring and no body. *)
Definition vote_to_kill (message : Message) : M unit := mret tt.

(** ** Pure readings of the loops, used to state what the handlers do *)

(** One round of the loop of [progress_day] on one player. *)
Definition reset_player (pl : Player) : Player :=
  set_votes_for None (set_is_no_lynch false pl).

(** A loop that rewrites the players at the addresses [ps] in turn. *)
Definition alter_all (f : Player -> Player) (ps : list PlayerRef)
  (o : list Player) : list Player :=
  foldl (fun o p => alter f p o) o ps.

(** The whole loop of [progress_day] over the roster [ps]. *)
Definition reset_votes (ps : list PlayerRef) (o : list Player) : list Player :=
  alter_all reset_player ps o.

(** The two role loops of [give_roles]. *)
Definition assign_roles (mafias townies : list PlayerRef) (o : list Player)
  : list Player :=
  alter_all (set_role (Some TownRole)) townies
    (alter_all (set_role (Some (MafiaRole ""))) mafias o).

(** [dict(zip(users, players))], keyed by user id. *)
Definition index_users (users : list User) (ps : list PlayerRef)
  : gmap string PlayerRef :=
  foldl (fun d up => <[uid up.1 := up.2]> d) ∅ (zip users ps).

(** The user id of the player at address [p], if there is one. *)
Definition uid_of (o : list Player) (p : PlayerRef) : option string :=
  (fun pl => uid (user pl)) <$> o !! p.

(** The table [make_vote_table] builds over the alive list [al]. *)
Definition fresh_table (al : list PlayerRef) : list (PlayerRef * Z) :=
  dict_of_pairs (zip al (replicate (length al) 0%Z)).

(** The phase and day number after [progress_day]. *)
Definition next_day (g : MafiaGame) : MafiaGame :=
  match day_phase g with
  | Day => with_day Night (day_num g) g
  | Night => with_day Day (day_num g + 1) g
  end.

Definition other_phase (ph : Phase) : Phase :=
  match ph with Night => Day | Day => Night end.

(** Every address of [ps] holds a [Player]. *)
Definition allocated (o : list Player) (ps : list PlayerRef) : Prop :=
  Forall (fun p => p < length o) ps.

Definition day_text (g : MafiaGame) : string :=
  "It is now " +:+ phase_str (day_phase g) +:+ " " +:+ pretty (day_num g) +:+ ".".

(** ** Concrete games, used to run the statements below *)

(** A draw that takes the first [k] players and keeps sets in list order. *)
Definition first_k : Chance := mkChance (fun l k => take k l) (fun l => l).

Definition demo_user (i : string) : User := mkUser i ("user-" +:+ i).

(** [:>start 5 @a @b @c], after which [d] joins during the window. *)
Definition demo_start : Message :=
  mkMessage (demo_user "host") ":>start 5" "general"
    [demo_user "a"; demo_user "b"; demo_user "c"].



(** Day 1 of a game of four: [a] is Mafia, [b], [c] and [d] are Town. *)
Definition demo_day1 : World :=
  (start_new_game first_k cpython [demo_user "d"] demo_start new_MafiaGame).2.

(** [voter] names [target] in a vote. *)
Definition demo_vote (voter target : string) : Message :=
  mkMessage (demo_user voter) ":>vote" "general" [demo_user target].

(** The announcement of an elimination. *)
Definition lynch_text (g : MafiaGame) (pl : Player) : string :=
  match day_phase g with
  | Day => "<@" +:+ uid (user pl) +:+ "> has been lynched!"
  | Night => "<@" +:+ uid (user pl) +:+ "> has been killed!"
  end.

(** ** Rejected votes *)

(** The user-facing validation failures of a lynch vote. *)
Inductive VoteError :=
| NotInGame
| VoterDead (voter : Player)
| NoTargetSpecified
| TargetNotInGame
| TargetDead.

(** The message each failure is answered with. *)
Definition error_text (e : VoteError) : string :=
  match e with
  | NotInGame => not_in_game_text
  | VoterDead pl => dead_text pl
  | NoTargetSpecified => "You have to vote for someone! (Or no-lynch!)"
  | TargetNotInGame => "That player is not in the game."
  | TargetDead => "You have to vote for someone alive!"
  end.

(** The validation of a lynch vote in the order the specification gives:
    voter known, voter alive, target mentioned, target known, target alive.
    [None] when the vote passes. *)
Definition rejection (w : World) (m : Message) : option VoteError :=
  match user_to_player (game w) !! uid (author m) with
  | None => Some NotInGame
  | Some voter =>
      match objs w !! voter with
      | None => None
      | Some pl =>
          if negb (is_alive pl) then Some (VoterDead pl)
          else match mentions m with
               | [] => Some NoTargetSpecified
               | target_user :: _ =>
                   match user_to_player (game w) !! uid target_user with
                   | None => Some TargetNotInGame
                   | Some target =>
                       match objs w !! target with
                       | None => None
                       | Some tl =>
                           if negb (is_alive tl) then Some TargetDead else None
                       end
                   end
               end
      end
  end.

(** The world with one more message on the game's channel and nothing else
    changed. *)
Definition answered (w : World) (text : string) : World :=
  mkWorld (game w) (objs w) (lists w)
    (trace w ++ [Send (ToChannel (gen_channel (game w))) text]).

(** Night 1 of the game of four after [b] was lynched by [a], [c] and [d]. *)
Definition demo_night1 : World :=
  ((vote_to_lynch (demo_vote "a" "b");;
    vote_to_lynch (demo_vote "c" "b");;
    vote_to_lynch (demo_vote "d" "b")) demo_day1).2.

(** A handler only ever appends to the trace. *)
Definition extends {A} (m : M A) : Prop :=
  forall w, exists tr', trace (m w).2 = trace w ++ tr'.

(** A roster in which [a] is listed twice: mentioned in the start message
    and joining again during the window. *)
Definition demo_twice : World :=
  ((init_game;;
    for_each [demo_user "a"; demo_user "b"; demo_user "a"] add_player)
     new_MafiaGame).2.

(** Eight players waiting for their roles. *)
Definition demo_lobby8 : World :=
  ((init_game;;
    for_each (demo_user <$> ["a"; "b"; "c"; "d"; "e"; "f"; "g"; "h"]) add_player)
     new_MafiaGame).2.

(** ** Reading the trace *)

Global Instance User_eq_dec : EqDecision User.
Proof. solve_decision. Defined.

Global Instance Dest_eq_dec : EqDecision Dest.
Proof. solve_decision. Defined.

(** The texts sent to [d], in order. *)
Fixpoint sent_to (d : Dest) (tr : list Event) : list string :=
  match tr with
  | [] => []
  | Send d' text :: tr' =>
      if decide (d' = d) then text :: sent_to d tr' else sent_to d tr'
  | Sleep _ :: tr' => sent_to d tr'
  end.

(** [:>start 0] naming eight users. *)
Definition demo_start8 : Message :=
  mkMessage (demo_user "host") ":>start 0" "general"
    (demo_user <$> ["a"; "b"; "c"; "d"; "e"; "f"; "g"; "h"]).

(** Day 1 of the game of eight: [a] and [b] are Mafia. *)
Definition demo_game8 : World :=
  (start_new_game first_k cpython [] demo_start8 new_MafiaGame).2.

(** ** The tally invariant *)

(** How many addresses of [l] satisfy [f]. *)
Fixpoint count (f : PlayerRef -> bool) (l : list PlayerRef) : Z :=
  match l with
  | [] => 0
  | p :: l' => ((if f p then 1 else 0) + count f l')%Z
  end.

(** [p.votes_for] is not [None]. *)
Definition voting (o : list Player) (p : PlayerRef) : bool :=
  match o !! p with
  | Some pl => bool_decide (is_Some (votes_for pl))
  | None => false
  end.

(** [p.is_no_lynch] is [True]. *)
Definition abstaining (o : list Player) (p : PlayerRef) : bool :=
  match o !! p with
  | Some pl => is_no_lynch pl
  | None => false
  end.

(** [d[k] += delta] on a key that is present. *)
Definition dict_add (k : PlayerRef) (delta : Z) (d : list (PlayerRef * Z))
  : list (PlayerRef * Z) :=
  match dict_get k d with
  | Some c => dict_set k (c + delta)%Z d
  | None => d
  end.

(** The table once a standing vote, if any, is taken back. *)
Definition retract (v : option PlayerRef) (d : list (PlayerRef * Z))
  : list (PlayerRef * Z) :=
  match v with
  | Some old => dict_add old (-1) d
  | None => d
  end.

(** The shape of a running game with alive list [al]: the alive list has no
    repeats and lies within the roster, and it holds exactly the players whose
    [is_alive] is set. *)
Definition roster_base (g : MafiaGame) (o : list Player)
  (ls : list (list PlayerRef)) (al : list PlayerRef) : Prop :=
  is_ongoing g = true /\
  ls !! alive g = Some al /\
  NoDup al /\
  (exists ps, ls !! players g = Some ps /\ allocated o ps /\
              forall p, p ∈ al -> p ∈ ps) /\
  (forall p, p ∈ al <-> exists pl, o !! p = Some pl /\ is_alive pl = true) /\
  (forall u p, user_to_player g !! u = Some p -> p < length o).

(** Moreover the vote table has the alive players as its keys, and standing
    votes point at alive players. *)
Definition roster_ok (g : MafiaGame) (o : list Player)
  (ls : list (list PlayerRef)) (al : list PlayerRef) : Prop :=
  roster_base g o ls al /\
  dict_keys (vote_table g) = al /\
  (forall p pl t, p ∈ al -> o !! p = Some pl -> votes_for pl = Some t -> t ∈ al).

(** No player has a vote and a no-lynch standing at once. *)
Definition exclusive (o : list Player) : Prop :=
  forall p pl, o !! p = Some pl ->
    ~ (is_Some (votes_for pl) /\ is_no_lynch pl = true).

(** The three parts of the tally invariant. *)
Definition tally_ok (g : MafiaGame) (o : list Player) (al : list PlayerRef)
  : Prop :=
  sum_Z (dict_values (vote_table g)) = count (voting o) al /\
  no_lynch g = count (abstaining o) al /\
  exclusive o.

Definition consistent (w : World) (al : list PlayerRef) : Prop :=
  roster_ok (game w) (objs w) (lists w) al /\
  tally_ok (game w) (objs w) al.

(** Between two handlers no no-lynch majority is left standing. *)
Definition settled (w : World) (al : list PlayerRef) : Prop :=
  consistent w al /\
  (al ≠ [] -> (no_lynch (game w) < ceil_half (length al))%Z).

(** A game whose vote table was just built: all counts are 0, the no-lynch
    counter is 0, and no alive player has a vote or a no-lynch standing. *)
Definition freshly_built (w : World) (al : list PlayerRef) : Prop :=
  roster_ok (game w) (objs w) (lists w) al /\
  vote_table (game w) = fresh_table al /\
  no_lynch (game w) = 0%Z /\
  (forall p pl, p ∈ al -> objs w !! p = Some pl ->
     votes_for pl = None /\ is_no_lynch pl = false) /\
  exclusive (objs w).

(** The two vote commands. *)
Inductive Vote :=
| Lynch (m : Message)
| NoLynch (m : Message).

Definition cast (v : Vote) : M unit :=
  match v with
  | Lynch m => vote_to_lynch m
  | NoLynch m => vote_no_lynch m
  end.

(** The votes [vs] handled one after the other. *)
Definition run_votes (vs : list Vote) : M unit := for_each vs cast.

(** The announcement of a lynch vote. *)
Definition vote_text (m : Message) (pl : Player) (target_user : User) : string :=
  uname (author m)
  +:+ (match votes_for pl with
       | Some _ => " changed their vote to "
       | None => " voted for "
       end)
  +:+ uname target_user +:+ "!".

(** The world in which majority is evaluated after [voter], whose record
    was [pl], voted for [target]. *)
Definition lynch_voted (w : World) (m : Message) (voter : PlayerRef)
  (pl : Player) (target : PlayerRef) (target_user : User) : World :=
  mkWorld
    (with_votes
       (no_lynch (game w) - (if is_no_lynch pl then 1 else 0))
       (dict_add target 1 (retract (votes_for pl) (vote_table (game w))))
       (game w))
    (<[voter := set_votes_for (Some target) (set_is_no_lynch false pl)]> (objs w))
    (lists w)
    (trace w ++ [Send (ToChannel (gen_channel (game w)))
                   (vote_text m pl target_user)]).

(** The world in which majority is evaluated after [voter], whose record
    was [pl], voted no lynch. *)
Definition no_lynch_voted (w : World) (voter : PlayerRef) (pl : Player)
  : World :=
  mkWorld
    (with_votes (no_lynch (game w) + 1)
       (retract (votes_for pl) (vote_table (game w))) (game w))
    (<[voter := set_is_no_lynch true (set_votes_for None pl)]> (objs w))
    (lists w)
    (trace w ++ [Send (ToChannel (gen_channel (game w)))
                   ("<@" +:+ uid (user pl) +:+ "> votes no lynch!")]).

(** [:>start] naming three users. *)
Definition demo_start3 : Message :=
  mkMessage (demo_user "host") ":>start" "general"
    [demo_user "a"; demo_user "b"; demo_user "c"].

(** Day 1 of a game of three. *)
Definition demo_three : World :=
  (start_new_game first_k cpython [] demo_start3 new_MafiaGame).2.

(** The game of three after [a] voted for [c] and [c] voted for [b]. *)
Definition demo_three_voted : World :=
  ((vote_to_lynch (demo_vote "a" "c");;
    vote_to_lynch (demo_vote "c" "b")) demo_three).2.

(** The game of four after [a] voted for [b]. *)
Definition demo_day1_voted : World :=
  (vote_to_lynch (demo_vote "a" "b") demo_day1).2.

(** The game of three after [a] voted for [b]. *)
Definition demo_three_b : World :=
  (vote_to_lynch (demo_vote "a" "b") demo_three).2.

(** The game of three, [a] standing on [b], at the moment majority is
    evaluated after [b] named themself. *)
Definition demo_three_b_self : World :=
  lynch_voted demo_three_b (demo_vote "b" "b") 1
    (mkPlayer (demo_user "b") (Some TownRole) true None false) 1
    (demo_user "b").

(** Day 1 of a game of five; the timeout argument does not parse. *)
Definition demo_five : World :=
  (start_new_game first_k cpython []
     (mkMessage (demo_user "host") ":>start soon" "general"
        (demo_user <$> ["a"; "b"; "c"; "d"; "e"]))
     new_MafiaGame).2.

(** What a run leaves to look at: the result, the phase, the alive list and
    the [is_alive] flags. *)
Definition outcome (r : Result unit * World)
  : Result unit * Phase * option (list PlayerRef) * list bool :=
  (r.1, day_phase (game r.2), lists r.2 !! alive (game r.2),
   is_alive <$> objs r.2).

(** ** Further readings of the handlers *)

(** The validation of a no-lynch vote: voter known, then voter alive. *)
Definition no_lynch_rejection (w : World) (m : Message) : option VoteError :=
  match user_to_player (game w) !! uid (author m) with
  | None => Some NotInGame
  | Some voter =>
      match objs w !! voter with
      | None => None
      | Some pl => if negb (is_alive pl) then Some (VoterDead pl) else None
      end
  end.

(** The world after [kill_player] took [t], whose record was [pl], off the
    alive list [al]. *)
Definition killed (w : World) (t : PlayerRef) (pl : Player)
  (al : list PlayerRef) : World :=
  mkWorld (game w) (<[t := set_is_alive false pl]> (objs w))
    (<[alive (game w) := remove_first t al]> (lists w)) (trace w).

(** The world after [progress_day] walked the roster [ps] and rebuilt the
    table over the alive list [al]. *)
Definition day_passed (w : World) (ps al : list PlayerRef) : World :=
  mkWorld (with_votes 0 (fresh_table al) (next_day (game w)))
    (reset_votes ps (objs w)) (lists w)
    (trace w ++ [Send (ToChannel (gen_channel (game w)))
                   (day_text (next_day (game w)))]).

(** The join window [start_new_game] sleeps for: the stored timeout without
    an argument, the argument when it parses, 0 when it does not. *)
Definition join_window (I : Interp) (w : World) (m : Message) : Z :=
  match split_space (content m) with
  | _ :: arg :: _ => default 0%Z (py_int I arg)
  | _ => timeout (game w)
  end.

(** The private message that tells [pl] their role. *)
Definition role_pm (pl : Player) : Event :=
  Send (ToUser (user pl)) ("You are a " +:+ role_str (role pl) +:+ ".").

(** [p.votes_for] is the player at [t]. *)
Definition voting_for (o : list Player) (t p : PlayerRef) : bool :=
  bool_decide (votes_for <$> o !! p = Some (Some t)).

(** Every entry of the vote table is the number of alive players whose
    [votes_for] is that entry's player. *)
Definition exact_tally (w : World) (al : list PlayerRef) : Prop :=
  forall t, t ∈ al ->
    dict_get t (vote_table (game w)) = Some (count (voting_for (objs w) t) al).

(** ** The moves of a running game

    What the vote handlers do to a game with alive list [al], one move at a
    time: a message is sent; a lynch vote or a no-lynch vote is entered in the
    tally; a day passes; a player is killed and a day passes. *)
Inductive step : World -> list PlayerRef -> World -> list PlayerRef -> Prop :=
| step_say w al text :
    consistent w al ->
    step w al (answered w text) al
| step_lynch_vote w al m p pl q u :
    consistent w al -> p ∈ al -> objs w !! p = Some pl -> q ∈ al ->
    step w al (lynch_voted w m p pl q u) al
| step_no_lynch_vote w al p pl :
    consistent w al -> p ∈ al -> objs w !! p = Some pl ->
    is_no_lynch pl = false ->
    step w al (no_lynch_voted w p pl) al
| step_day w al ps :
    consistent w al -> lists w !! players (game w) = Some ps ->
    step w al (day_passed w ps al) al
| step_lynch w al t pl ps :
    consistent w al -> t ∈ al -> objs w !! t = Some pl ->
    lists (killed w t pl al) !! players (game w) = Some ps ->
    step w al (day_passed (killed w t pl al) ps (remove_first t al))
      (remove_first t al).

(** Any number of moves. *)
Inductive reach (w : World) (al : list PlayerRef)
  : World -> list PlayerRef -> Prop :=
| reach_here : reach w al w al
| reach_step w1 al1 w2 al2 :
    reach w al w1 al1 -> step w1 al1 w2 al2 -> reach w al w2 al2.

(** The attributes of the game object that voting never assigns. *)
Definition settings (g : MafiaGame) :=
  (timeout g, is_accepting g, is_ongoing g, players g, townies g, mafia g,
   alive g, roles g, user_to_player g, gen_channel g).

(** How a later world [w'] relates to an earlier one [w]: the same [Player]
    objects with the same users and roles, nobody back from the dead, the
    same settings, only the alive list object changed, the day number not
    lower, and the old trace a prefix of the new. *)
Definition advanced (w w' : World) : Prop :=
  length (objs w') = length (objs w) /\
  (forall p, user <$> objs w' !! p = user <$> objs w !! p) /\
  (forall p, role <$> objs w' !! p = role <$> objs w !! p) /\
  (forall p, is_alive <$> objs w' !! p = Some true ->
             is_alive <$> objs w !! p = Some true) /\
  settings (game w') = settings (game w) /\
  (forall r, r ≠ alive (game w) -> lists w' !! r = lists w !! r) /\
  (day_num (game w) ≤ day_num (game w'))%Z /\
  trace w `prefix_of` trace w'.

(** ** The messages of [give_roles] *)

(** The private messages of the loop over [self.players]. *)
Definition role_pms (o : list Player) (ps : list PlayerRef) : list Event :=
  omap (fun p => role_pm <$> o !! p) ps.

(** The message [give_roles] composes for the Mafia player [m]: the names of
    the other players of [self.mafia]. *)
Definition allies_text (o : list Player) (mf : list PlayerRef) (m : PlayerRef)
  : string :=
  "Your allies are "
  +:+ join ", " (omap (fun a => (fun pl => uname (user pl)) <$> o !! a)
                   (remove_first m mf)).

(** Everything [give_roles] sends for the roster [ps] and the Mafia [mf],
    with [ch] the game's channel. *)
Definition give_roles_trace (ch : option Channel) (o : list Player)
  (ps mf : list PlayerRef) : list Event :=
  [Send (ToChannel ch) "Assigning roles to players.";
   Send (ToChannel ch) "PM-ing roles to players."]
  ++ role_pms o ps
  ++ (if decide (1 < length mf)
      then (fun m => Send (ToChannel ch) (allies_text o mf m)) <$> mf
      else []).

(** ** Running the monad *)

Ltac unmonad :=
  cbv beta iota delta [mbind M_bind mret M_ret raise get_game put_game emit
    send_message get_player put_player get_list put_list
    alloc_list alloc_player game objs lists trace].

Lemma bind_Ok {A B} (m : M A) (f : A -> M B) w a w' :
  m w = (Ok a, w') -> (m ≫= f) w = f a w'.
Proof. intros E. unfold mbind, M_bind. by rewrite E. Qed.

Lemma bind_Raise {A B} (m : M A) (f : A -> M B) w e w' :
  m w = (Raise e, w') -> (m ≫= f) w = (Raise e, w').
Proof. intros E. unfold mbind, M_bind. by rewrite E. Qed.

Lemma put_player_Ok g o ls tr p pl :
  p < length o ->
  put_player p pl (mkWorld g o ls tr) = (Ok tt, mkWorld g (<[p := pl]> o) ls tr).
Proof. intros Hp. unfold put_player; simpl. by rewrite decide_True. Qed.

Lemma put_list_Ok g o ls tr r l :
  r < length ls ->
  put_list r l (mkWorld g o ls tr) = (Ok tt, mkWorld g o (<[r := l]> ls) tr).
Proof. intros Hr. unfold put_list; simpl. by rewrite decide_True. Qed.

Lemma insert_as_alter {A} (f : A -> A) (l : list A) i x :
  l !! i = Some x -> <[i := f x]> l = alter f i l.
Proof.
  revert i. induction l as [|y l IH]; intros [|i] E; simplify_eq/=; auto.
  f_equal. by apply IH.
Qed.

(** ** Dictionaries *)
Section DictFacts.
Context {K V : Type} `{EqDecision K}.
Implicit Types (d : list (K * V)) (k : K) (v : V).

Lemma dict_get_set_eq k v d : dict_get k (dict_set k v d) = Some v.
Proof.
  induction d as [|[k' v'] d IH]; simpl.
  - by rewrite decide_True.
  - destruct (decide (k = k')) as [->|Hne]; simpl.
    + by rewrite decide_True.
    + by rewrite decide_False.
Qed.

Lemma dict_get_set_ne k k' v d :
  k' ≠ k -> dict_get k' (dict_set k v d) = dict_get k' d.
Proof.
  intros Hne. induction d as [|[k2 v2] d IH]; simpl.
  - by rewrite decide_False.
  - destruct (decide (k = k2)) as [->|Hk]; simpl.
    + by rewrite !decide_False.
    + destruct (decide (k' = k2)); auto.
Qed.

Lemma dict_keys_set_in k v d :
  dict_get k d ≠ None -> dict_keys (dict_set k v d) = dict_keys d.
Proof.
  induction d as [|[k2 v2] d IH]; simpl; [done|].
  destruct (decide (k = k2)) as [->|Hk]; simpl; [done|].
  intros Hd. unfold dict_keys in *. simpl. f_equal. by apply IH.
Qed.

Lemma dict_keys_set_elem k k' v d :
  k' ∈ dict_keys (dict_set k v d) <-> k' = k \/ k' ∈ dict_keys d.
Proof.
  unfold dict_keys. induction d as [|[k2 v2] d IH]; simpl.
  - rewrite list_elem_of_singleton, elem_of_nil. tauto.
  - destruct (decide (k = k2)) as [->|Hk]; simpl.
    + rewrite !elem_of_cons. tauto.
    + rewrite !elem_of_cons, IH. tauto.
Qed.

Lemma dict_set_Forall (P : V -> Prop) k v d :
  P v -> Forall (fun kv => P kv.2) d ->
  Forall (fun kv => P kv.2) (dict_set k v d).
Proof.
  intros Hv. induction 1 as [|[k2 v2] d Hx Hd IH]; simpl.
  - by repeat constructor.
  - destruct (decide (k = k2)); constructor; auto.
Qed.

Lemma dict_get_Some_key k v d : dict_get k d = Some v -> k ∈ dict_keys d.
Proof.
  unfold dict_keys. induction d as [|[k2 v2] d IH]; simpl; [done|].
  destruct (decide (k = k2)) as [->|Hk]; [intros _; apply elem_of_cons; by left|].
  intros E. apply elem_of_cons. right. by apply IH.
Qed.

Lemma dict_get_key_Some k d : k ∈ dict_keys d -> is_Some (dict_get k d).
Proof.
  unfold dict_keys. induction d as [|[k2 v2] d IH]; simpl.
  - by intros ?%elem_of_nil.
  - destruct (decide (k = k2)) as [->|Hk]; [eauto|].
    intros [?|?]%elem_of_cons; [done|auto].
Qed.
End DictFacts.

(** ** [make_vote_table] and [progress_day] *)

Lemma dict_of_pairs_acc {K V} `{EqDecision K} (l : list (K * V)) acc k :
  k ∈ dict_keys (foldl (fun d kv => dict_set kv.1 kv.2 d) acc l)
  <-> k ∈ dict_keys acc \/ k ∈ l.*1.
Proof.
  revert acc. induction l as [|[k1 v1] l IH]; intros acc; simpl.
  - rewrite elem_of_nil. tauto.
  - rewrite IH, dict_keys_set_elem, elem_of_cons. tauto.
Qed.

Lemma dict_of_pairs_Forall {K V} `{EqDecision K} (P : V -> Prop)
  (l : list (K * V)) acc :
  Forall (fun kv => P kv.2) acc -> Forall (fun kv => P kv.2) l ->
  Forall (fun kv => P kv.2) (foldl (fun d kv => dict_set kv.1 kv.2 d) acc l).
Proof.
  revert acc. induction l as [|[k1 v1] l IH]; intros acc Ha Hl; simpl; auto.
  inversion Hl; subst. apply IH; auto. by apply dict_set_Forall.
Qed.

Lemma zip_zeroes_fst (al : list PlayerRef) :
  (zip al (replicate (length al) 0%Z)).*1 = al.
Proof. apply fst_zip. by rewrite length_replicate. Qed.

Lemma fresh_table_keys al p : p ∈ dict_keys (fresh_table al) <-> p ∈ al.
Proof.
  unfold fresh_table, dict_of_pairs. rewrite dict_of_pairs_acc, zip_zeroes_fst.
  unfold dict_keys. simpl. rewrite elem_of_nil. tauto.
Qed.

Lemma fresh_table_zero al : Forall (fun kv => kv.2 = 0%Z) (fresh_table al).
Proof.
  unfold fresh_table, dict_of_pairs. apply (dict_of_pairs_Forall (fun v => v = 0%Z)); [constructor|].
  apply Forall_forall. intros [k v] Hin. simpl.
  apply elem_of_zip_r in Hin. simpl in Hin.
  by apply elem_of_replicate in Hin as [? _].
Qed.

(** Without repeated keys [dict(zip(alive, zeroes))] is the zipped list. *)
Lemma dict_of_pairs_NoDup {K V} `{EqDecision K} (l : list (K * V)) acc :
  NoDup (acc.*1 ++ l.*1) ->
  foldl (fun d kv => dict_set kv.1 kv.2 d) acc l = acc ++ l.
Proof.
  revert acc. induction l as [|[k1 v1] l IH]; intros acc Hnd; simpl.
  - by rewrite app_nil_r.
  - assert (dict_set k1 v1 acc = acc ++ [(k1, v1)]) as ->.
    { apply NoDup_app in Hnd as (_ & Hdis & _).
      assert (k1 ∉ acc.*1) as Hk.
      { intros Hin. apply (Hdis _ Hin). simpl. apply elem_of_cons. by left. }
      clear -Hk. induction acc as [|[k2 v2] acc IH]; simpl; [done|].
      simpl in Hk. apply not_elem_of_cons in Hk as [Hne Hk].
      rewrite decide_False by done. f_equal. by apply IH. }
    rewrite IH; [by rewrite <- app_assoc|].
    rewrite fmap_app. simpl. rewrite <- app_assoc. by simpl.
Qed.

Lemma fresh_table_NoDup al :
  NoDup al -> fresh_table al = zip al (replicate (length al) 0%Z).
Proof.
  intros Hnd. unfold fresh_table, dict_of_pairs.
  rewrite dict_of_pairs_NoDup; [done|]. simpl. by rewrite zip_zeroes_fst.
Qed.

Lemma fresh_table_keys_NoDup al : NoDup al -> dict_keys (fresh_table al) = al.
Proof.
  intros Hnd. rewrite fresh_table_NoDup by done. apply zip_zeroes_fst.
Qed.

Lemma make_vote_table_eq g o ls tr al :
  ls !! alive g = Some al ->
  make_vote_table (mkWorld g o ls tr)
  = (Ok tt, mkWorld (with_votes 0 (fresh_table al) g) o ls tr).
Proof. intros Hal. unfold make_vote_table. unmonad. by rewrite Hal. Qed.

Lemma alter_all_length f ps o : length (alter_all f ps o) = length o.
Proof.
  unfold alter_all. revert o. induction ps as [|p ps IH]; intros o; simpl.
  - done.
  - by rewrite IH, length_alter.
Qed.

Lemma alter_all_lookup f ps o i :
  (forall pl, f (f pl) = f pl) ->
  alter_all f ps o !! i = (if decide (i ∈ ps) then f else id) <$> o !! i.
Proof.
  intros Hf. unfold alter_all. revert o.
  induction ps as [|p ps IH]; intros o; cbn [foldl].
  - rewrite decide_False by apply not_elem_of_nil. by destruct (o !! i).
  - rewrite IH. destruct (decide (i = p)) as [->|Hne].
    + rewrite list_lookup_alter_eq. rewrite (decide_True (P := p ∈ p :: ps))
        by (apply elem_of_cons; by left).
      destruct (o !! p) as [pl|]; destruct (decide (p ∈ ps)); simpl; try done.
      by rewrite Hf.
    + rewrite list_lookup_alter_ne by done.
      destruct (decide (i ∈ ps)) as [Hin|Hnin].
      * rewrite decide_True by (apply elem_of_cons; by right). done.
      * rewrite decide_False; [done|].
        intros [?|?]%elem_of_cons; done.
Qed.

Lemma reset_votes_length ps o : length (reset_votes ps o) = length o.
Proof. apply alter_all_length. Qed.

Lemma reset_votes_lookup ps o i :
  reset_votes ps o !! i
  = (if decide (i ∈ ps) then reset_player else id) <$> o !! i.
Proof. apply alter_all_lookup. by intros []. Qed.

(** A loop that reads each player and writes it back changed by [f]. *)
Lemma alter_loop (f : Player -> Player) (body : PlayerRef -> M unit) g ls tr ps :
  (forall p o pl, o !! p = Some pl ->
     body p (mkWorld g o ls tr) = (Ok tt, mkWorld g (<[p := f pl]> o) ls tr)) ->
  forall o, allocated o ps ->
  for_each ps body (mkWorld g o ls tr)
  = (Ok tt, mkWorld g (alter_all f ps o) ls tr).
Proof.
  intros Hbody. induction ps as [|p ps IH]; intros o Hall; simpl; [done|].
  inversion Hall as [|? ? Hp Hps]; subst.
  destruct (lookup_lt_is_Some_2 o p Hp) as [pl Hpl].
  erewrite bind_Ok; [|by apply Hbody].
  rewrite (insert_as_alter f _ _ _ Hpl).
  apply IH. unfold allocated. by rewrite length_alter.
Qed.

Lemma reset_loop g o ls tr ps :
  allocated o ps ->
  for_each ps (fun p =>
      pl ← get_player p;
      put_player p (set_votes_for None (set_is_no_lynch false pl)))
    (mkWorld g o ls tr)
  = (Ok tt, mkWorld g (reset_votes ps o) ls tr).
Proof.
  apply (alter_loop reset_player). intros p o' pl Hpl. unmonad.
  rewrite Hpl. by rewrite decide_True by (by eapply lookup_lt_Some).
Qed.

Lemma progress_day_eq g o ls tr ps al :
  ls !! players g = Some ps ->
  ls !! alive g = Some al ->
  allocated o ps ->
  progress_day (mkWorld g o ls tr)
  = (Ok tt,
     mkWorld (with_votes 0 (fresh_table al) (next_day g)) (reset_votes ps o) ls
       (tr ++ [Send (ToChannel (gen_channel g))
                 (day_text (next_day g))])).
Proof.
  intros Hps Hal Hall. unfold progress_day.
  unfold mbind at 1, M_bind at 1, get_game at 1. cbv beta iota. simpl game.
  unfold mbind at 1, M_bind at 1, put_game at 1. cbv beta iota.
  cbn [game objs lists trace].
  unfold mbind at 1, M_bind at 1, get_list at 1. cbn [game objs lists trace].
  rewrite Hps.
  unfold mbind at 1, M_bind at 1. rewrite reset_loop by done.
  unfold mbind at 1, M_bind at 1, get_game at 1. cbv beta iota.
  unfold mbind at 1, M_bind at 1, put_game at 1. cbn [game objs lists trace].
  unfold mbind at 1, M_bind at 1.
  rewrite (make_vote_table_eq _ _ _ _ al) by (by destruct (day_phase g)).
  unmonad. unfold emit, next_day, day_text. by destruct (day_phase g).
Qed.

(** ** [kill_player] and [check_if_day_should_progress] *)

Lemma remove_first_subseteq t l p : p ∈ remove_first t l -> p ∈ l.
Proof.
  induction l as [|y l IH]; simpl; [done|].
  destruct (decide (t = y)); rewrite ?elem_of_cons; [tauto|].
  intros [?|?]; [tauto|]. right. by apply IH.
Qed.

Lemma remove_first_other t l p : p ≠ t -> p ∈ l -> p ∈ remove_first t l.
Proof.
  intros Hne. induction l as [|y l IH]; simpl; [done|].
  destruct (decide (t = y)) as [->|Hy]; rewrite ?elem_of_cons.
  - intros [?|?]; [done|tauto].
  - intros [?|?]; [tauto|]. right. by apply IH.
Qed.

Lemma remove_first_NoDup t l : NoDup l -> NoDup (remove_first t l).
Proof.
  induction 1 as [|y l Hy Hl IH]; simpl; [constructor|].
  destruct (decide (t = y)); [done|].
  constructor; [|done]. intros Hin. by apply Hy, (remove_first_subseteq t).
Qed.

Lemma remove_first_gone t l : NoDup l -> t ∉ remove_first t l.
Proof.
  induction 1 as [|y l Hy Hl IH]; simpl; [apply not_elem_of_nil|].
  destruct (decide (t = y)) as [->|Hne]; [done|].
  apply not_elem_of_cons. by split.
Qed.

Lemma remove_first_length t l :
  t ∈ l -> S (length (remove_first t l)) = length l.
Proof.
  induction l as [|y l IH]; simpl; [by intros ?%elem_of_nil|].
  destruct (decide (t = y)) as [->|Hne]; [done|].
  intros [?|Hin]%elem_of_cons; [done|]. simpl. by rewrite IH.
Qed.

Lemma allocated_subseteq o l l' :
  (forall p, p ∈ l' -> p ∈ l) -> allocated o l -> allocated o l'.
Proof.
  unfold allocated. rewrite !Forall_forall. intros Hsub Hl p Hp. by apply Hl, Hsub.
Qed.

Lemma kill_player_eq g o ls tr al t pl :
  ls !! alive g = Some al -> t ∈ al -> o !! t = Some pl ->
  kill_player t (mkWorld g o ls tr)
  = (Ok tt, mkWorld g (<[t := set_is_alive false pl]> o)
              (<[alive g := remove_first t al]> ls) tr).
Proof.
  intros Hal Hin Hpl. unfold kill_player. unmonad. rewrite Hal.
  rewrite decide_True by done. cbn [game objs lists trace].
  rewrite decide_True by (by eapply lookup_lt_Some).
  cbn [game objs lists trace]. rewrite Hpl. cbn [game objs lists trace].
  rewrite decide_True by (by eapply lookup_lt_Some). done.
Qed.


(** The first rule: the target just voted on has enough votes. *)
Lemma check_lynch g o ls tr t c pl :
  dict_get t (vote_table g) = Some c ->
  (floor_half (length (vote_table g)) + 1 ≤ c)%Z ->
  o !! t = Some pl ->
  check_if_day_should_progress (Some t) (mkWorld g o ls tr)
  = (kill_player t;; progress_day)
      (mkWorld g o ls (tr ++ [Send (ToChannel (gen_channel g)) (lynch_text g pl)])).
Proof.
  intros Hc Hthr Hpl. unfold check_if_day_should_progress, lynch_reached.
  unmonad. rewrite Hc. cbn [game objs lists trace].
  rewrite bool_decide_true by done. rewrite Hpl. done.
Qed.

(** The second and third rule: no target, or not enough votes on it. *)
Lemma check_no_lynch g o ls tr voted al :
  (forall t, voted = Some t ->
     exists c, dict_get t (vote_table g) = Some c /\
               (c < floor_half (length (vote_table g)) + 1)%Z) ->
  ls !! alive g = Some al ->
  check_if_day_should_progress voted (mkWorld g o ls tr)
  = if bool_decide (ceil_half (length al) ≤ no_lynch g)%Z
    then progress_day
           (mkWorld g o ls
              (tr ++ [Send (ToChannel (gen_channel g))
                        "The town has voted for no lynch!"]))
    else (Ok tt, mkWorld g o ls tr).
Proof.
  intros Hv Hal. unfold check_if_day_should_progress, lynch_reached.
  destruct voted as [t|].
  - destruct (Hv t eq_refl) as (c & Hc & Hlt).
    unmonad. rewrite Hc. cbn [game objs lists trace].
    rewrite bool_decide_false by lia. rewrite Hal.
    by destruct (bool_decide _).
  - unmonad. rewrite Hal. by destruct (bool_decide _).
Qed.

Lemma reset_votes_alive ps o q :
  is_alive <$> reset_votes ps o !! q = is_alive <$> o !! q.
Proof.
  rewrite reset_votes_lookup.
  destruct (o !! q) as [pl|]; [|done]. by destruct (decide (q ∈ ps)).
Qed.

(** The roster that [progress_day] walks after [kill_player] has run: the
    alive list itself when [self.players] is the same list object. *)
Lemma roster_after_kill (g : MafiaGame) (ls : list (list PlayerRef)) ps al t :
  ls !! players g = Some ps -> ls !! alive g = Some al ->
  exists ps', <[alive g := remove_first t al]> ls !! players g = Some ps' /\
              forall p, p ∈ ps' -> p ∈ ps.
Proof.
  intros Hps Hal. destruct (decide (players g = alive g)) as [E|Hne].
  - exists (remove_first t al). rewrite E. split.
    + apply list_lookup_insert_eq. by eapply lookup_lt_Some.
    + intros p Hp. rewrite E in Hps. simplify_eq.
      by apply (remove_first_subseteq t).
  - exists ps. by rewrite list_lookup_insert_ne.
Qed.

(** C1. Majority is evaluated in order.  With [n] alive players: when a target
    was just voted on and its count is at least [floor(n/2) + 1], the target is
    marked dead, leaves the alive list, and the phase changes; otherwise, when
    the no-lynch counter is at least [ceil(n/2)], the phase changes and nobody
    is eliminated; otherwise nothing changes.  The second rule is only looked
    at when the first did not fire. *)
Theorem majority_evaluation (w : World) (voted : option PlayerRef)
  (ps al : list PlayerRef) :
  lists w !! players (game w) = Some ps ->
  lists w !! alive (game w) = Some al ->
  allocated (objs w) ps -> allocated (objs w) al -> NoDup al ->
  length (vote_table (game w)) = length al ->
  (forall t, voted = Some t ->
     t ∈ al /\ is_Some (dict_get t (vote_table (game w)))) ->
  let n := length al in
  let lynch t :=
    exists c, dict_get t (vote_table (game w)) = Some c /\
              (floor_half n + 1 ≤ c)%Z in
  exists w',
    check_if_day_should_progress voted w = (Ok tt, w') /\
    (forall t, voted = Some t -> lynch t ->
       day_phase (game w') = other_phase (day_phase (game w)) /\
       (exists pl, objs w' !! t = Some pl /\ is_alive pl = false) /\
       lists w' !! alive (game w') = Some (remove_first t al) /\
       (t ∉ remove_first t al) /\
       (forall q, q ≠ t ->
          is_alive <$> objs w' !! q = is_alive <$> objs w !! q)) /\
    ((forall t, voted = Some t -> ~ lynch t) ->
     (ceil_half n ≤ no_lynch (game w))%Z ->
       day_phase (game w') = other_phase (day_phase (game w)) /\
       lists w' = lists w /\ alive (game w') = alive (game w) /\
       (forall q, is_alive <$> objs w' !! q = is_alive <$> objs w !! q)) /\
    ((forall t, voted = Some t -> ~ lynch t) ->
     (no_lynch (game w) < ceil_half n)%Z ->
       w' = w).
Proof.
  destruct w as [g o ls tr]. cbn [game objs lists trace].
  intros Hps Hal Hallps Hallal Hnd Hlen Hv.
  set (n := length al).
  set (lynch := fun t => exists c, dict_get t (vote_table g) = Some c /\
                                   (floor_half n + 1 ≤ c)%Z).
  assert (Hcase : (exists t, voted = Some t /\ lynch t) \/
                  (forall t, voted = Some t -> ~ lynch t)).
  { destruct voted as [t|]; [|right; intros ? [=]].
    destruct (Hv t eq_refl) as [_ [c Hc]].
    destruct (decide (floor_half n + 1 ≤ c)%Z) as [Hge|Hlt].
    - left. exists t. split; [done|]. by exists c.
    - right. intros t' [= <-] (c' & Hc' & Hge).
      rewrite Hc in Hc'. injection Hc' as <-. contradiction. }
  destruct Hcase as [(t & -> & c & Hc & Hge)|Hno].
  - (* the target is eliminated *)
    destruct (Hv t eq_refl) as [Hin _].
    assert (t < length o) as Hlt by (by eapply Forall_forall in Hallal).
    destruct (lookup_lt_is_Some_2 o t Hlt) as [pl Hpl].
    destruct (roster_after_kill g ls ps al t Hps Hal) as (ps' & Hps' & Hsub).
    eexists. split.
    { rewrite (check_lynch g o ls tr t c pl); [|done|by rewrite Hlen|done].
      erewrite bind_Ok; [|by apply kill_player_eq].
      apply (progress_day_eq _ _ _ _ ps' (remove_first t al)); [done|..].
      - apply list_lookup_insert_eq. by eapply lookup_lt_Some.
      - eapply allocated_subseteq; [exact Hsub|].
        unfold allocated. by rewrite length_insert. }
    cbn [game objs lists trace]. split_and!.
    + intros ? [= <-] _. split_and!.
      * unfold next_day. by destruct (day_phase g).
      * exists ((if decide (t ∈ ps') then reset_player else id)
                  (set_is_alive false pl)).
        rewrite reset_votes_lookup, list_lookup_insert_eq by done.
        split; [done|]. by destruct (decide (t ∈ ps')).
      * assert (alive (with_votes 0 (fresh_table (remove_first t al)) (next_day g))
                = alive g) as -> by (unfold next_day; by destruct (day_phase g)).
        apply list_lookup_insert_eq. by eapply lookup_lt_Some.
      * by apply remove_first_gone.
      * intros q Hq. rewrite reset_votes_alive.
        by rewrite list_lookup_insert_ne.
    + intros Hno. exfalso. apply (Hno t eq_refl). by exists c.
    + intros Hno. exfalso. apply (Hno t eq_refl). by exists c.
  - (* the target, if any, stays *)
    assert (check_if_day_should_progress voted (mkWorld g o ls tr)
            = if bool_decide (ceil_half (length al) ≤ no_lynch g)%Z
              then progress_day
                     (mkWorld g o ls
                        (tr ++ [Send (ToChannel (gen_channel g))
                                  "The town has voted for no lynch!"]))
              else (Ok tt, mkWorld g o ls tr)) as ->.
    { apply check_no_lynch; [|done]. intros t ->.
      destruct (Hv t eq_refl) as [_ [c Hc]]. exists c. split; [done|].
      rewrite Hlen. fold n. destruct (decide (floor_half n + 1 ≤ c)%Z); [|lia].
      exfalso. apply (Hno t eq_refl). by exists c. }
    destruct (bool_decide_reflect (ceil_half (length al) ≤ no_lynch g)%Z)
      as [Hnl|Hnl].
    + eexists. split; [by apply (progress_day_eq _ _ _ _ ps al)|].
      cbn [game objs lists trace]. split_and!.
      * intros t -> Hl. by destruct (Hno t eq_refl).
      * intros _ _. split_and!; try (unfold next_day; by destruct (day_phase g)).
        intros q. apply reset_votes_alive.
      * intros _ Hlt. unfold n in Hlt. lia.
    + eexists. split; [done|]. split_and!.
      * intros t -> Hl. by destruct (Hno t eq_refl).
      * intros _ Hge. unfold n in Hge. lia.
      * done.
Qed.

(** In the game of three, [a] has voted for [b] and [b] has just named
    themself: [b] holds 2 of 3 votes and is lynched. *)
Lemma majority_evaluation_witness :
  exists w',
    check_if_day_should_progress (Some 1) demo_three_b_self = (Ok tt, w') /\
    is_alive <$> objs w' !! 1 = Some false /\
    day_phase (game w') = Night.
Proof.
  destruct (majority_evaluation demo_three_b_self (Some 1) [0; 1; 2] [0; 1; 2])
    as (w' & E & Hlynch & _).
  - vm_compute. reflexivity.
  - vm_compute. reflexivity.
  - unfold allocated. refine (bool_decide_unpack _ _). vm_compute. exact I.
  - unfold allocated. refine (bool_decide_unpack _ _). vm_compute. exact I.
  - refine (bool_decide_unpack _ _). vm_compute. exact I.
  - vm_compute. reflexivity.
  - intros t [= <-]. split.
    + refine (bool_decide_unpack _ _). vm_compute. exact I.
    + exists 2%Z. vm_compute. reflexivity.
  - destruct (Hlynch 1 eq_refl) as (Hph & (pl & Hpl & Hdead) & _).
    + exists 2%Z. split; [vm_compute; reflexivity|]. vm_compute. discriminate.
    + exists w'. split_and!; [exact E| |].
      * by rewrite Hpl, <- Hdead.
      * rewrite Hph. vm_compute. reflexivity.
Defined.

(** ** The trace only grows *)

Lemma extends_ret {A} (a : A) : extends (mret a).
Proof. intros w. exists []. by rewrite app_nil_r. Qed.

Lemma extends_raise {A} e : extends (@raise A e).
Proof. intros w. exists []. by rewrite app_nil_r. Qed.

Lemma extends_bind {A B} (m : M A) (f : A -> M B) :
  extends m -> (forall a, extends (f a)) -> extends (m ≫= f).
Proof.
  intros Hm Hf w. unfold mbind, M_bind. destruct (Hm w) as [tr1 E1].
  destruct (m w) as [[a|e] w1]; simpl in *.
  - destruct (Hf a w1) as [tr2 E2]. exists (tr1 ++ tr2).
    by rewrite E2, E1, app_assoc.
  - by exists tr1.
Qed.

Lemma extends_get_game : extends get_game.
Proof. intros w. exists []. by rewrite app_nil_r. Qed.

Lemma extends_put_game g : extends (put_game g).
Proof. intros w. exists []. simpl. by rewrite app_nil_r. Qed.

Lemma extends_get_player p : extends (get_player p).
Proof.
  intros w. exists []. unfold get_player.
  destruct (objs w !! p); simpl; by rewrite app_nil_r.
Qed.

Lemma extends_put_player p pl : extends (put_player p pl).
Proof.
  intros w. exists []. unfold put_player.
  destruct (decide _); simpl; by rewrite app_nil_r.
Qed.

Lemma extends_get_list r : extends (get_list r).
Proof.
  intros w. exists []. unfold get_list.
  destruct (lists w !! r); simpl; by rewrite app_nil_r.
Qed.

Lemma extends_put_list r l : extends (put_list r l).
Proof.
  intros w. exists []. unfold put_list.
  destruct (decide _); simpl; by rewrite app_nil_r.
Qed.

Lemma extends_alloc_list l : extends (alloc_list l).
Proof. intros w. exists []. simpl. by rewrite app_nil_r. Qed.

Lemma extends_alloc_player pl : extends (alloc_player pl).
Proof. intros w. exists []. simpl. by rewrite app_nil_r. Qed.

Lemma extends_emit e : extends (emit e).
Proof. intros w. by exists [e]. Qed.

Lemma extends_send d text : extends (send_message d text).
Proof. apply extends_emit. Qed.

Lemma extends_sleep secs : extends (sleep secs).
Proof.
  unfold sleep. destruct (decide _); [apply extends_emit|apply extends_raise].
Qed.

Lemma extends_for_each {A} (l : list A) (body : A -> M unit) :
  (forall x, extends (body x)) -> extends (for_each l body).
Proof.
  intros Hb. induction l as [|x l IH]; simpl.
  - apply extends_ret.
  - apply extends_bind; auto.
Qed.

Lemma extends_for_map {A B} (l : list A) (f : A -> M B) :
  (forall x, extends (f x)) -> extends (for_map l f).
Proof.
  intros Hf. induction l as [|x l IH]; simpl.
  - apply extends_ret.
  - apply extends_bind; [auto|]. intros y.
    apply extends_bind; [auto|]. intros ys. apply extends_ret.
Qed.

Create HintDb ext discriminated.
#[local] Hint Resolve extends_ret extends_raise extends_get_game
  extends_put_game extends_get_player extends_put_player extends_get_list
  extends_put_list extends_alloc_list extends_alloc_player extends_emit
  extends_send : ext.

Ltac ext_step :=
  first
    [ apply extends_bind; [|intros ?]
    | apply extends_for_each; intros ?
    | apply extends_for_map; intros ?
    | solve [auto with ext]
    | match goal with
      | |- extends (match ?x with _ => _ end) => destruct x
      end ].

Ltac ext := repeat ext_step.





(** ** [start_new_game] *)

Lemma add_player_eq g o ls tr l u :
  ls !! players g = Some l ->
  add_player u (mkWorld g o ls tr)
  = (Ok tt, mkWorld g (o ++ [new_Player u])
              (<[players g := l ++ [length o]]> ls) tr).
Proof.
  intros Hl. unfold add_player. unmonad. rewrite Hl.
  by rewrite decide_True by (by eapply lookup_lt_Some).
Qed.

Lemma add_players_eq us : forall g o ls tr l,
  ls !! players g = Some l ->
  for_each us add_player (mkWorld g o ls tr)
  = (Ok tt, mkWorld g (o ++ (new_Player <$> us))
              (<[players g := l ++ seq (length o) (length us)]> ls) tr).
Proof.
  induction us as [|u us IH]; intros g o ls tr l Hl; simpl.
  - rewrite !app_nil_r. by rewrite list_insert_id.
  - erewrite bind_Ok; [|by apply add_player_eq].
    rewrite (IH _ _ _ _ (l ++ [length o])).
    + rewrite list_insert_insert_eq, <- !app_assoc, length_app. simpl.
      by rewrite Nat.add_1_r.
    + apply list_lookup_insert_eq. by eapply lookup_lt_Some.
Qed.







(** ** [kill_player] on the roster *)

(** When [self.players] and [self.alive] are one list object, as
    [give_roles] leaves them, removing from [alive] removes from [players]. *)
Lemma kill_player_aliased g o ls tr al t pl :
  players g = alive g ->
  ls !! alive g = Some al -> t ∈ al -> NoDup al -> o !! t = Some pl ->
  exists w', kill_player t (mkWorld g o ls tr) = (Ok tt, w') /\
             lists w' !! players (game w') = Some (remove_first t al) /\
             t ∉ remove_first t al.
Proof.
  intros Heq Hal Hin Hnd Hpl. eexists. split; [by eapply kill_player_eq|].
  cbn [game objs lists trace]. rewrite Heq. split.
  - apply list_lookup_insert_eq. by eapply lookup_lt_Some.
  - by apply remove_first_gone.
Qed.

(** C2. In the game of four, [kill_player] on [b] marks [b] dead and takes
    [b] off the alive list, and the roster [self.players], which held [b]
    before, no longer does. *)
Theorem kill_player_drops_roster_entry :
  exists w',
    kill_player 1 demo_day1 = (Ok tt, w') /\
    lists demo_day1 !! players (game demo_day1) = Some [0; 1; 2; 3] /\
    is_alive <$> objs w' !! 1 = Some false /\
    lists w' !! alive (game w') = Some [0; 2; 3] /\
    lists w' !! players (game w') = Some [0; 2; 3].
Proof. eexists. split_and!; vm_compute; reflexivity. Qed.

(** ** Rejected votes *)

(** C3. A lynch vote that fails validation, the checks being made in the order
    voter known, voter alive, target mentioned, target known, target alive,
    is answered with one message on the game's channel; the game, every
    [Player] and every list are left as they were. *)
Theorem vote_to_lynch_rejected (w : World) (m : Message) (e : VoteError) :
  is_ongoing (game w) = true ->
  rejection w m = Some e ->
  vote_to_lynch m w = (Ok tt, answered w (error_text e)).
Proof.
  destruct w as [g o ls tr]. unfold rejection, answered, vote_to_lynch.
  cbn [game objs lists trace]. intros Hon Hrej. unmonad. rewrite Hon.
  cbn [negb]. destruct (user_to_player g !! uid (author m)) as [voter|];
    [|by injection Hrej as <-].
  destruct (o !! voter) as [pl|]; [|done].
  destruct (is_alive pl); cbn [negb] in *; [|by injection Hrej as <-].
  destruct (mentions m) as [|target_user rest]; [by injection Hrej as <-|].
  destruct (user_to_player g !! uid target_user) as [target|];
    [|by injection Hrej as <-].
  destruct (o !! target) as [tl|]; [|done].
  destruct (is_alive tl); cbn [negb] in *; [done|by injection Hrej as <-].
Qed.

Lemma vote_to_lynch_rejected_witness :
  vote_to_lynch (demo_vote "b" "a") demo_night1
  = (Ok tt, answered demo_night1 "Sorry, <@b>. You're dead.").
Proof.
  apply (vote_to_lynch_rejected demo_night1 (demo_vote "b" "a")
           (VoterDead (mkPlayer (demo_user "b") (Some TownRole) false None false))).
  - vm_compute. reflexivity.
  - vm_compute. reflexivity.
Defined.

(** ** [progress_day] *)

(** What [progress_day] does: it flips the phase, adds one to [day_num] only
    when it leaves Night, and leaves every member of the list [self.players]
    with [votes_for = None] and [is_no_lynch = False], the no-lynch counter at
    0, and a vote table whose keys are exactly the members of [self.alive],
    each with count 0. *)
Theorem progress_day_resets (w : World) (ps al : list PlayerRef) :
  lists w !! players (game w) = Some ps ->
  lists w !! alive (game w) = Some al ->
  allocated (objs w) ps ->
  exists w',
    progress_day w = (Ok tt, w') /\
    day_phase (game w') = other_phase (day_phase (game w)) /\
    day_num (game w') =
      (match day_phase (game w) with
       | Night => day_num (game w) + 1
       | Day => day_num (game w)
       end)%Z /\
    lists w' = lists w /\
    players (game w') = players (game w) /\
    alive (game w') = alive (game w) /\
    (forall p, p ∈ ps ->
       exists pl, objs w' !! p = Some pl /\
                  votes_for pl = None /\ is_no_lynch pl = false) /\
    no_lynch (game w') = 0%Z /\
    (forall p, p ∈ dict_keys (vote_table (game w')) <-> p ∈ al) /\
    Forall (fun kv => kv.2 = 0%Z) (vote_table (game w')).
Proof.
  destruct w as [g o ls tr]. cbn [game objs lists trace].
  intros Hps Hal Hall. eexists. split; [by apply progress_day_eq|].
  cbn [game objs lists trace]. unfold next_day.
  split_and!; try (by destruct (day_phase g)).
  - intros p Hp.
    assert (p < length o) as Hlt by (by eapply Forall_forall in Hall).
    destruct (lookup_lt_is_Some_2 o p Hlt) as [pl Hpl].
    exists (reset_player pl). rewrite reset_votes_lookup, decide_True, Hpl by done.
    done.
  - intros p. apply fresh_table_keys.
  - apply fresh_table_zero.
Qed.

Lemma progress_day_resets_witness :
  exists w', progress_day demo_day1 = (Ok tt, w') /\
             day_phase (game w') = Night /\ day_num (game w') = 1%Z /\
             no_lynch (game w') = 0%Z.
Proof.
  destruct (progress_day_resets demo_day1 [0; 1; 2; 3] [0; 1; 2; 3])
    as (w' & E & Hph & Hday & _ & _ & _ & _ & Hnl & _).
  - vm_compute. reflexivity.
  - vm_compute. reflexivity.
  - unfold allocated. refine (bool_decide_unpack _ _). vm_compute. exact I.
  - exists w'. repeat split; assumption.
Defined.

(** C6. [progress_day] does not reset every player: a player who has just
    been eliminated is no longer in [self.players], the list its loop walks,
    because [give_roles] made [self.alive] that very list and [kill_player]
    removed the player from it.  In the game of four, [b] votes for [a] (or
    votes no lynch) and is then lynched by [a], [c] and [d]: the phase changes
    to Night, and [b] still has the vote for [a] (or the no-lynch) when
    [progress_day] has returned.  The same on [progress_day] alone, called as
    [check_if_day_should_progress] calls it, right after [kill_player]. *)
Theorem progress_day_skips_eliminated :
  let lynch_b := (vote_to_lynch (demo_vote "a" "b");;
                  vote_to_lynch (demo_vote "c" "b");;
                  vote_to_lynch (demo_vote "d" "b")) in
  let r1 := (vote_to_lynch (demo_vote "b" "a");; lynch_b) demo_day1 in
  let r2 := (vote_no_lynch (demo_vote "b" "");; lynch_b) demo_day1 in
  let r3 := (vote_to_lynch (demo_vote "b" "a");; kill_player 1;; progress_day)
              demo_day1 in
  (r1.1 = Ok tt /\
   day_phase (game r1.2) = Night /\
   lists r1.2 !! players (game r1.2) = Some [0; 2; 3] /\
   dict_keys (vote_table (game r1.2)) = [0; 2; 3] /\
   objs r1.2 !! 1
   = Some (mkPlayer (demo_user "b") (Some TownRole) false (Some 0) false)) /\
  (r2.1 = Ok tt /\
   day_phase (game r2.2) = Night /\
   objs r2.2 !! 1
   = Some (mkPlayer (demo_user "b") (Some TownRole) false None true)) /\
  (r3.1 = Ok tt /\
   day_phase (game r3.2) = Night /\
   objs r3.2 !! 1
   = Some (mkPlayer (demo_user "b") (Some TownRole) false (Some 0) false)).
Proof. split_and!; vm_compute; reflexivity. Qed.

(** ** [give_roles] *)

Lemma round_quarter_le n : round_quarter n <= n.
Proof.
  unfold round_quarter. pose proof (Nat.div_mod_eq n 4) as E.
  pose proof (Nat.mod_upper_bound n 4 ltac:(lia)) as Hr.
  destruct (n mod 4) as [|[|[|r]]]; try lia.
  destruct (Nat.even (n / 4)); lia.
Qed.

(** A loop that only reads players. *)
Lemma read_loop {B} (f : Player -> B) g o ls tr ps :
  allocated o ps ->
  exists ys,
    for_map ps (fun p => pl ← get_player p; mret (f pl)) (mkWorld g o ls tr)
    = (Ok ys, mkWorld g o ls tr) /\
    Forall2 (fun p y => f <$> o !! p = Some y) ps ys.
Proof.
  induction ps as [|p ps IH]; intros Hall; simpl.
  - exists []. split; [done|constructor].
  - inversion Hall as [|? ? Hp Hps]; subst.
    destruct (lookup_lt_is_Some_2 o p Hp) as [pl Hpl].
    destruct (IH Hps) as (ys & E & HF).
    exists (f pl :: ys). split.
    + unmonad. rewrite Hpl.
      change (for_map ps _ _) with
        (for_map ps (fun p => pl ← get_player p; mret (f pl)) (mkWorld g o ls tr)).
      by rewrite E.
    + constructor; [by rewrite Hpl|done].
Qed.

(** A loop whose rounds only send. *)
Lemma send_loop {A} (body : A -> M unit) g o ls (l : list A) :
  (forall x, x ∈ l -> forall tr, exists tr',
     body x (mkWorld g o ls tr) = (Ok tt, mkWorld g o ls tr')) ->
  forall tr, exists tr',
    for_each l body (mkWorld g o ls tr) = (Ok tt, mkWorld g o ls tr').
Proof.
  induction l as [|x l IH]; intros Hbody tr; simpl.
  - by exists tr.
  - destruct (Hbody x ltac:(apply elem_of_cons; by left) tr) as [tr1 E1].
    destruct (IH (fun y Hy => Hbody y ltac:(apply elem_of_cons; by right)) tr1)
      as [tr2 E2].
    exists tr2. by erewrite bind_Ok.
Qed.

Lemma index_users_acc (l : list (User * PlayerRef)) (acc : gmap string PlayerRef) k :
  k ∉ (fun up => uid up.1) <$> l ->
  foldl (fun d up => <[uid up.1 := up.2]> d) acc l !! k = acc !! k.
Proof.
  revert acc. induction l as [|[u p] l IH]; intros acc Hk; simpl; [done|].
  simpl in Hk. apply not_elem_of_cons in Hk as [Hne Hk].
  rewrite IH by done. by rewrite lookup_insert_ne.
Qed.

(** With pairwise distinct user ids every pair of the zip can be looked up. *)
Lemma index_users_lookup us : forall ps i u p,
  NoDup (uid <$> us) -> length us = length ps ->
  us !! i = Some u -> ps !! i = Some p ->
  index_users us ps !! uid u = Some p.
Proof.
  unfold index_users. generalize (∅ : gmap string PlayerRef).
  induction us as [|u0 us IH]; intros acc [|p0 ps] i u p Hnd Hlen Hu Hp;
    simplify_eq/=.
  inversion Hnd as [|? ? Hfresh Hnd']; subst.
  destruct i as [|i]; simplify_eq/=.
  - rewrite index_users_acc; [by rewrite lookup_insert_eq|].
    intros Hin. apply Hfresh. apply list_elem_of_fmap in Hin as ([u' p'] & E & Hin).
    apply list_elem_of_fmap. exists u'. split; [done|].
    by apply elem_of_zip_l in Hin.
  - by eapply IH.
Qed.

Lemma set_role_idem r pl : set_role r (set_role r pl) = set_role r pl.
Proof. done. Qed.

Lemma assign_roles_lookup mf tw o i :
  assign_roles mf tw o !! i
  = (if decide (i ∈ tw) then set_role (Some TownRole) else id)
      <$> ((if decide (i ∈ mf) then set_role (Some (MafiaRole "")) else id)
             <$> o !! i).
Proof.
  unfold assign_roles.
  rewrite !alter_all_lookup by apply set_role_idem. done.
Qed.

Lemma assign_roles_user mf tw o i :
  user <$> assign_roles mf tw o !! i = user <$> o !! i.
Proof.
  rewrite assign_roles_lookup. destruct (o !! i) as [pl|]; [|done].
  by destruct (decide (i ∈ tw)), (decide (i ∈ mf)).
Qed.

Lemma the_roles_mafia : the_roles !! "mafia" = Some (MafiaRole "").
Proof. reflexivity. Qed.

Lemma the_roles_town : the_roles !! "town" = Some TownRole.
Proof. reflexivity. Qed.

Lemma role_loop g o ls tr key r l :
  roles g !! key = Some r -> allocated o l ->
  for_each l (fun m =>
      r ← role_of key; pl ← get_player m;
      put_player m (set_role (Some r) pl)) (mkWorld g o ls tr)
  = (Ok tt, mkWorld g (alter_all (set_role (Some r)) l o) ls tr).
Proof.
  intros Hr. apply (alter_loop (set_role (Some r))). intros p o' pl Hpl.
  unfold role_of. unmonad. rewrite Hr, Hpl.
  by rewrite decide_True by (by eapply lookup_lt_Some).
Qed.

Lemma get_list_eq g o ls tr r l :
  ls !! r = Some l -> get_list r (mkWorld g o ls tr) = (Ok l, mkWorld g o ls tr).
Proof. intros E. unfold get_list. cbn [lists]. by rewrite E. Qed.

Lemma get_player_eq g o ls tr p pl :
  o !! p = Some pl -> get_player p (mkWorld g o ls tr) = (Ok pl, mkWorld g o ls tr).
Proof. intros E. unfold get_player. cbn [objs]. by rewrite E. Qed.

Ltac prim :=
  erewrite bind_Ok; [|reflexivity]; cbv beta; cbn [game objs lists trace].

Lemma fair_sample R ps k :
  fair R -> k <= length ps ->
  length (sample R ps k) = k /\ forall p, p ∈ sample R ps k -> p ∈ ps.
Proof.
  intros [Hs _] Hk. destruct (Hs ps k Hk) as [Hlen Hsub]. split; [done|].
  intros p Hp. by eapply elem_of_submseteq.
Qed.

Lemma fair_townies R ps mf p :
  fair R ->
  p ∈ set_order R (list_difference (remove_dups ps) mf) <-> p ∈ ps /\ p ∉ mf.
Proof.
  intros [_ Ho]. rewrite (Ho _), list_elem_of_difference, elem_of_remove_dups.
  done.
Qed.

(** What [give_roles] leaves behind; only the messages are not spelled out. *)
Lemma give_roles_eq R g o ls tr ps :
  fair R -> ls !! players g = Some ps -> allocated o ps ->
  let mf := sample R ps (round_quarter (length ps)) in
  let tw := set_order R (list_difference (remove_dups ps) mf) in
  exists us tr',
    give_roles R (mkWorld g o ls tr)
    = (Ok tt,
       mkWorld (with_rosters (length ls) (S (length ls)) (players g)
                  (index_users us ps) (with_roles the_roles g))
         (assign_roles mf tw o) ((ls ++ [mf]) ++ [tw]) tr') /\
    Forall2 (fun p u => user <$> o !! p = Some u) ps us.
Proof.
  intros HR Hps Hall mf tw.
  pose proof (round_quarter_le (length ps)) as Hk.
  destruct (fair_sample R ps _ HR Hk) as [Hlen Hmf]. fold mf in Hlen, Hmf.
  assert (allocated o mf) as Hallmf.
  { eapply allocated_subseteq; [exact Hmf|done]. }
  set (o1 := alter_all (set_role (Some (MafiaRole ""))) mf o).
  assert (allocated o1 tw) as Halltw.
  { eapply (allocated_subseteq _ ps).
    - intros p Hp. by apply (fair_townies R ps mf p HR) in Hp as [? _].
    - unfold allocated, o1. by rewrite alter_all_length. }
  set (o2 := alter_all (set_role (Some TownRole)) tw o1).
  assert (allocated o2 ps) as Hall2.
  { unfold allocated, o2, o1. by rewrite !alter_all_length. }
  set (ls2 := (ls ++ [mf]) ++ [tw]).
  destruct (read_loop user (with_roles the_roles g) o2 ls2
              (tr ++ [Send (ToChannel (gen_channel g)) "Assigning roles to players."])
              ps Hall2) as (us & Eus & HF).
  exists us.
  unfold give_roles. prim. prim. prim.
  erewrite bind_Ok; [|by apply get_list_eq]. cbv beta zeta.
  rewrite decide_True by done. prim. fold mf tw.
  erewrite bind_Ok; [|by apply role_loop]. cbv beta.
  erewrite bind_Ok; [|by apply role_loop]. cbv beta.
  prim. prim. fold o1 o2 ls2.
  erewrite bind_Ok; [|exact Eus]. cbv beta.
  prim. prim. prim.
  cbn [game objs lists trace].
  match goal with
  | |- context [mkWorld ?G o2 ls2 ?TR] =>
      set (g2 := G);
      destruct (send_loop
                  (fun p => pl ← get_player p;
                            send_message (ToUser (user pl))
                              ("You are a " +:+ role_str (role pl) +:+ "."))
                  g2 o2 ls2 ps) with (tr := TR) as [tr1 E1]
  end.
  { intros p Hp tr0.
    assert (p < length o2) as Hlt by (by eapply Forall_forall in Hall2).
    destruct (lookup_lt_is_Some_2 o2 p Hlt) as [pl Hpl].
    eexists. erewrite bind_Ok; [|by apply get_player_eq]. reflexivity. }
  assert (Hfinal : forall trx,
            mkWorld g2 o2 ls2 trx
            = mkWorld (with_rosters (length ls) (S (length ls)) (players g)
                         (index_users us ps) (with_roles the_roles g))
                (assign_roles mf tw o) ls2 trx).
  { intros trx. unfold g2. rewrite length_app. simpl. by rewrite Nat.add_1_r. }
  assert (HF' : Forall2 (fun p u => user <$> o !! p = Some u) ps us).
  { eapply Forall2_impl; [exact HF|]. intros p u Hu. simpl in Hu.
    change o2 with (assign_roles mf tw o) in Hu.
    by rewrite assign_roles_user in Hu. }
  erewrite bind_Ok; [|exact E1]. cbv beta.
  destruct (decide (1 < length mf)) as [Hmany|Hfew].
  - destruct (send_loop
                (fun m =>
                   allies_names ← for_map (remove_first m mf) (fun ally =>
                     pl ← get_player ally; mret (uname (user pl)));
                   send_message (ToChannel (gen_channel (with_roles the_roles g)))
                     ("Your allies are " +:+ join ", " allies_names))
                g2 o2 ls2 mf) with (tr := tr1) as [tr2 E2].
    { intros m Hm tr0.
      destruct (read_loop (fun pl => uname (user pl)) g2 o2 ls2 tr0
                  (remove_first m mf)) as (names & En & _).
      { eapply (allocated_subseteq _ ps); [|done].
        intros p Hp. by apply Hmf, (remove_first_subseteq m). }
      eexists. erewrite bind_Ok; [|exact En]. reflexivity. }
    exists tr2. split; [|done]. rewrite <- Hfinal. exact E2.
  - exists tr1. split; [|done]. by rewrite <- Hfinal.
Qed.

Lemma first_k_fair : fair first_k.
Proof.
  split.
  - intros l k Hk. simpl. split.
    + rewrite length_take. lia.
    + apply sublist_submseteq, sublist_take.
  - intros l. done.
Qed.

Lemma uid_of_users o ps us :
  Forall2 (fun p u => user <$> o !! p = Some u) ps us ->
  uid_of o <$> ps = Some <$> (uid <$> us).
Proof.
  induction 1 as [|p u ps us Hu HF IH]; [done|].
  rewrite !fmap_cons, IH. f_equal. unfold uid_of.
  destruct (o !! p) as [pl|]; simplify_eq/=. done.
Qed.

(** [dict(zip(users, players))] keeps, for every user id, the last player
    of the roster with that id. *)
Lemma index_users_last o ps us k :
  Forall2 (fun p u => user <$> o !! p = Some u) ps us ->
  index_users us ps !! k
  = last (filter (fun p => uid_of o p = Some k) ps).
Proof.
  intros HF. unfold index_users.
  enough (forall acc : gmap string PlayerRef,
            foldl (fun d up => <[uid up.1 := up.2]> d) acc (zip us ps) !! k
            = match last (filter (fun p => uid_of o p = Some k) ps) with
              | Some q => Some q
              | None => acc !! k
              end) as Hgen.
  { rewrite Hgen. by destruct (last _). }
  induction HF as [|p u ps us Hu HF IH]; intros acc; [done|].
  cbn [zip zip_with foldl fst snd]. rewrite IH.
  assert (uid_of o p = Some (uid u)) as Hid.
  { unfold uid_of. destruct (o !! p) as [pl|]; simplify_eq/=. done. }
  rewrite filter_cons. destruct (decide (uid_of o p = Some k)) as [Hk|Hk].
  - rewrite last_cons. destruct (last (filter _ ps)) as [q|]; [done|].
    rewrite Hid in Hk. injection Hk as <-. by rewrite lookup_insert_eq.
  - destruct (last (filter _ ps)) as [q|]; [done|].
    rewrite lookup_insert_ne; [done|]. intros <-. by rewrite Hid in Hk.
Qed.

(** C7, as the code has it.  For a roster of [n] distinct players,
    [give_roles] draws [round(n/4)] distinct players as Mafia, makes every
    other player Town, leaves [mafia] and [townies] disjoint with the roster as
    their union, and makes [alive] the roster itself.  The lookup it builds
    holds, for every user id, the last player of the roster with that id; so
    it holds every player when no two players of the roster share a user
    id. *)
Theorem give_roles_split (R : Chance) (w : World) (ps : list PlayerRef) :
  fair R ->
  lists w !! players (game w) = Some ps ->
  NoDup ps -> allocated (objs w) ps ->
  exists w' mf tw,
    give_roles R w = (Ok tt, w') /\
    lists w' !! mafia (game w') = Some mf /\
    lists w' !! townies (game w') = Some tw /\
    length mf = round_quarter (length ps) /\
    length tw = length ps - round_quarter (length ps) /\
    NoDup mf /\
    (forall p, p ∈ mf ->
       p ∈ ps /\ role <$> objs w' !! p = Some (Some (MafiaRole ""))) /\
    (forall p, p ∈ ps -> p ∉ mf ->
       p ∈ tw /\ role <$> objs w' !! p = Some (Some TownRole)) /\
    (forall p, p ∈ mf -> p ∉ tw) /\
    mf ++ tw ≡ₚ ps /\
    alive (game w') = players (game w') /\
    lists w' !! players (game w') = Some ps /\
    (forall p, user <$> objs w' !! p = user <$> objs w !! p) /\
    (forall k, user_to_player (game w') !! k
               = last (filter (fun p => uid_of (objs w) p = Some k) ps)) /\
    (NoDup (uid_of (objs w) <$> ps) ->
     forall p, p ∈ ps ->
       exists pl, objs w' !! p = Some pl /\
                  user_to_player (game w') !! uid (user pl) = Some p).
Proof.
  destruct w as [g o ls tr]. cbn [game objs lists trace].
  intros HR Hps Hnd Hall.
  destruct (give_roles_eq R g o ls tr ps HR Hps Hall) as (us & tr' & E & HF).
  set (mf := sample R ps (round_quarter (length ps))) in *.
  set (tw := set_order R (list_difference (remove_dups ps) mf)) in *.
  pose proof (round_quarter_le (length ps)) as Hk.
  destruct HR as [Hsample Horder].
  destruct (Hsample ps _ Hk) as [Hlen Hsub]. fold mf in Hlen, Hsub.
  assert (Hmfin : forall p, p ∈ mf -> p ∈ ps).
  { intros p Hp. by eapply elem_of_submseteq. }
  assert (Htw : forall p, p ∈ tw <-> p ∈ ps /\ p ∉ mf).
  { intros p. unfold tw.
    by rewrite (Horder _), list_elem_of_difference, elem_of_remove_dups. }
  assert (Hndmf : NoDup mf).
  { destruct (submseteq_Permutation _ _ Hsub) as [k Hk'].
    rewrite Hk' in Hnd. by apply NoDup_app in Hnd as [? _]. }
  assert (Hndtw : NoDup tw).
  { unfold tw. rewrite (Horder _).
    apply NoDup_list_difference, NoDup_remove_dups. }
  assert (Hperm : mf ++ tw ≡ₚ ps).
  { apply NoDup_Permutation; [|done|].
    - apply NoDup_app. split_and!; [done| |done].
      intros p Hp Hp'. by apply Htw in Hp' as [_ ?].
    - intros p. rewrite elem_of_app, Htw.
      split; [intros [?|[? _]]; auto|].
      intros ?. destruct (decide (p ∈ mf)); auto. }
  assert (Hltw : length tw = length ps - round_quarter (length ps)).
  { apply Permutation_length in Hperm. rewrite length_app in Hperm. lia. }
  exists (mkWorld (with_rosters (length ls) (S (length ls)) (players g)
                    (index_users us ps) (with_roles the_roles g))
            (assign_roles mf tw o) ((ls ++ [mf]) ++ [tw]) tr'), mf, tw.
  cbn [game objs lists trace mafia townies alive players user_to_player
         with_rosters with_roles].
  split_and!; try done.
  - rewrite lookup_app_l by (rewrite length_app; simpl; lia).
    by apply list_lookup_middle.
  - apply list_lookup_middle. rewrite length_app. simpl. lia.
  - intros p Hp. split; [by apply Hmfin|].
    assert (p < length o) as Hlt by (eapply Forall_forall in Hall; eauto).
    destruct (lookup_lt_is_Some_2 o p Hlt) as [pl Hpl].
    rewrite assign_roles_lookup, Hpl, (decide_True (P := p ∈ mf)) by done.
    rewrite decide_False; [done|]. intros Hp'. by apply Htw in Hp' as [_ ?].
  - intros p Hp Hnmf. assert (p ∈ tw) as Hptw by (by apply Htw).
    split; [done|].
    assert (p < length o) as Hlt by (by eapply Forall_forall in Hall).
    destruct (lookup_lt_is_Some_2 o p Hlt) as [pl Hpl].
    by rewrite assign_roles_lookup, Hpl, (decide_True (P := p ∈ tw)) by done.
  - intros p Hp Hp'. by apply Htw in Hp' as [_ ?].
  - rewrite !lookup_app_l; [done|..].
    + by eapply lookup_lt_Some.
    + rewrite length_app. apply lookup_lt_Some in Hps. lia.
  - intros p. apply assign_roles_user.
  - intros k. by apply index_users_last.
  - intros Huid p Hp. apply list_elem_of_lookup in Hp as [i Hi].
    destruct (Forall2_lookup_l _ _ _ _ _ HF Hi) as (u & Hu & Hpu).
    pose proof (assign_roles_user mf tw o p) as Huser. rewrite Hpu in Huser.
    destruct (assign_roles mf tw o !! p) as [pl|] eqn:Hpl; [|done].
    simpl in Huser. injection Huser as Huser.
    exists pl. split; [done|]. rewrite Huser.
    apply (index_users_lookup us ps i); try done.
    + rewrite (uid_of_users _ _ _ HF) in Huid. by apply NoDup_fmap_1 in Huid.
    + symmetry. by eapply Forall2_length.
Qed.

(** For eight players: two Mafia and six Town. *)
Lemma give_roles_split_witness :
  exists w' mf tw,
    give_roles first_k demo_lobby8 = (Ok tt, w') /\
    lists w' !! mafia (game w') = Some mf /\
    lists w' !! townies (game w') = Some tw /\
    length mf = 2 /\ length tw = 6.
Proof.
  destruct (give_roles_split first_k demo_lobby8 (seq 0 8))
    as (w' & mf & tw & E & Hmf & Htw & Hlm & Hlt & _).
  - exact first_k_fair.
  - vm_compute. reflexivity.
  - apply NoDup_seq.
  - unfold allocated. refine (bool_decide_unpack _ _). vm_compute. exact I.
  - exists w', mf, tw. split_and!; assumption.
Defined.

(** C7, as stated, fails on a roster in which one user is listed twice: the
    lookup then holds only the later of the two players. *)
Lemma give_roles_lookup_misses_player :
  exists w',
    give_roles first_k demo_twice = (Ok tt, w') /\
    lists w' !! players (game w') = Some [0; 1; 2] /\
    (user <$> objs w') = [demo_user "a"; demo_user "b"; demo_user "a"] /\
    forall k, user_to_player (game w') !! k ≠ Some 0.
Proof.
  eexists. split_and!; [vm_compute; reflexivity..|].
  intros k Hk. apply elem_of_map_to_list in Hk. vm_compute in Hk.
  repeat (apply elem_of_cons in Hk as [Hk|Hk]; [discriminate Hk|]).
  by apply elem_of_nil in Hk.
Qed.

(** C8. In the game of eight, with [a] and [b] as Mafia, each of the two
    receives its role in private and nothing else; the two messages naming the
    allies go to the game's channel, where every player reads them. *)
Theorem allies_are_named_in_public :
  role <$> objs demo_game8 !! 0 = Some (Some (MafiaRole "")) /\
  role <$> objs demo_game8 !! 1 = Some (Some (MafiaRole "")) /\
  sent_to (ToUser (demo_user "a")) (trace demo_game8) = ["You are a Mafia ."] /\
  sent_to (ToUser (demo_user "b")) (trace demo_game8) = ["You are a Mafia ."] /\
  sent_to (ToUser (demo_user "c")) (trace demo_game8) = ["You are a Townie."] /\
  sent_to (ToChannel (Some "general")) (trace demo_game8)
  = [opening_text 10;
     "Assigning roles to players.";
     "PM-ing roles to players.";
     "Your allies are user-b";
     "Your allies are user-a";
     "It is now Day 1."].
Proof. split_and!; vm_compute; reflexivity. Qed.

(** ** The vote handlers on accepted votes *)

Lemma table_add_eq g o ls tr k d c :
  dict_get k (vote_table g) = Some c ->
  table_add k d (mkWorld g o ls tr)
  = (Ok tt, mkWorld (with_votes (no_lynch g) (dict_add k d (vote_table g)) g)
              o ls tr).
Proof.
  intros E. unfold table_add, dict_add. unmonad. by rewrite E.
Qed.

Lemma set_is_no_lynch_same pl :
  is_no_lynch pl = false -> set_is_no_lynch false pl = pl.
Proof. destruct pl; simpl; by intros ->. Qed.

Lemma set_votes_for_same pl :
  votes_for pl = None -> set_votes_for None pl = pl.
Proof. destruct pl; simpl; by intros ->. Qed.

Lemma vote_to_lynch_accepted g o ls tr m p pl u rest q ql :
  is_ongoing g = true ->
  user_to_player g !! uid (author m) = Some p ->
  o !! p = Some pl -> is_alive pl = true ->
  mentions m = u :: rest ->
  user_to_player g !! uid u = Some q ->
  o !! q = Some ql -> is_alive ql = true ->
  (forall old, votes_for pl = Some old -> is_Some (dict_get old (vote_table g))) ->
  is_Some (dict_get q (retract (votes_for pl) (vote_table g))) ->
  vote_to_lynch m (mkWorld g o ls tr)
  = (print_votes;; check_if_day_should_progress (Some q))
      (lynch_voted (mkWorld g o ls tr) m p pl q u).
Proof.
  intros Hon Hp Hpl Hal Hm Hq Hql Hqal Hold [c Hc].
  assert (Hlt : p < length o) by (by eapply lookup_lt_Some).
  unfold vote_to_lynch, lynch_voted, vote_text. prim. rewrite Hon. cbn [negb].
  rewrite Hp.
  erewrite bind_Ok; [|by apply get_player_eq]. cbv beta.
  rewrite Hal, Hm, Hq. cbn [negb].
  erewrite bind_Ok; [|by apply get_player_eq]. cbv beta.
  rewrite Hqal. cbn [negb game objs lists trace].
  destruct (is_no_lynch pl) eqn:Hnl.
  - erewrite bind_Ok.
    2:{ erewrite bind_Ok; [|by apply put_player_Ok]. reflexivity. }
    cbv beta.
    erewrite bind_Ok.
    2:{ apply get_player_eq. by apply list_lookup_insert_eq. }
    cbv beta. cbn [votes_for set_is_no_lynch].
    destruct (votes_for pl) as [old|] eqn:Hv; cbn [retract] in Hc.
    + destruct (Hold old eq_refl) as [c0 Hc0].
      erewrite bind_Ok.
      2:{ erewrite bind_Ok; [|eapply table_add_eq; eassumption]. reflexivity. }
      cbv beta. prim.
      erewrite bind_Ok; [|eapply table_add_eq; cbn [vote_table with_votes]; eassumption].
      cbv beta.
      erewrite bind_Ok.
      2:{ apply get_player_eq. by apply list_lookup_insert_eq. }
      cbv beta.
      erewrite bind_Ok.
      2:{ apply put_player_Ok. by rewrite length_insert. }
      cbv beta. rewrite list_insert_insert_eq. reflexivity.
    + prim. prim.
      erewrite bind_Ok; [|eapply table_add_eq; cbn [vote_table with_votes]; eassumption].
      cbv beta.
      erewrite bind_Ok.
      2:{ apply get_player_eq. by apply list_lookup_insert_eq. }
      cbv beta.
      erewrite bind_Ok.
      2:{ apply put_player_Ok. by rewrite length_insert. }
      cbv beta. rewrite list_insert_insert_eq. reflexivity.
  - prim.
    erewrite bind_Ok; [|by apply get_player_eq]. cbv beta.
    rewrite (set_is_no_lynch_same pl Hnl), Z.sub_0_r.
    assert (with_votes (no_lynch g) (vote_table g) g = g) as Hg by (by destruct g).
    destruct (votes_for pl) as [old|] eqn:Hv; cbn [retract] in Hc.
    + destruct (Hold old eq_refl) as [c0 Hc0].
      erewrite bind_Ok.
      2:{ erewrite bind_Ok; [|eapply table_add_eq; eassumption]. reflexivity. }
      cbv beta. prim.
      erewrite bind_Ok; [|eapply table_add_eq; cbn [vote_table with_votes]; eassumption].
      cbv beta.
      erewrite bind_Ok; [|by apply get_player_eq]. cbv beta.
      erewrite bind_Ok; [|by apply put_player_Ok]. cbv beta.
      reflexivity.
    + prim. prim.
      erewrite bind_Ok; [|eapply table_add_eq; cbn [vote_table with_votes]; eassumption].
      cbv beta.
      erewrite bind_Ok; [|by apply get_player_eq]. cbv beta.
      erewrite bind_Ok; [|by apply put_player_Ok]. cbv beta.
      reflexivity.
Qed.

Lemma vote_no_lynch_accepted g o ls tr m p pl :
  is_ongoing g = true ->
  user_to_player g !! uid (author m) = Some p ->
  o !! p = Some pl -> is_alive pl = true -> is_no_lynch pl = false ->
  (forall old, votes_for pl = Some old -> is_Some (dict_get old (vote_table g))) ->
  vote_no_lynch m (mkWorld g o ls tr)
  = (print_votes;; check_if_day_should_progress None)
      (no_lynch_voted (mkWorld g o ls tr) p pl).
Proof.
  intros Hon Hp Hpl Hal Hnl Hold.
  assert (Hlt : p < length o) by (by eapply lookup_lt_Some).
  unfold vote_no_lynch, no_lynch_voted. prim. rewrite Hon. cbn [negb].
  rewrite Hp.
  erewrite bind_Ok; [|by apply get_player_eq]. cbv beta.
  rewrite Hal, Hnl. cbn [negb game objs lists trace].
  destruct (votes_for pl) as [old|] eqn:Hv; cbn [retract].
  - destruct (Hold old eq_refl) as [c0 Hc0].
    erewrite bind_Ok.
    2:{ erewrite bind_Ok; [|eapply table_add_eq; eassumption]. cbv beta.
        erewrite bind_Ok; [|by apply get_player_eq]. cbv beta.
        by apply put_player_Ok. }
    cbv beta.
    erewrite bind_Ok.
    2:{ apply get_player_eq. by apply list_lookup_insert_eq. }
    cbv beta.
    erewrite bind_Ok.
    2:{ apply put_player_Ok. by rewrite length_insert. }
    cbv beta. prim. prim. prim. rewrite list_insert_insert_eq. reflexivity.
  - prim.
    erewrite bind_Ok; [|by apply get_player_eq]. cbv beta.
    erewrite bind_Ok; [|by apply put_player_Ok]. cbv beta.
    prim. prim. prim. rewrite (set_votes_for_same pl Hv).
    by destruct g.
Qed.

Lemma vote_no_lynch_idle g o ls tr m p pl :
  is_ongoing g = true ->
  user_to_player g !! uid (author m) = Some p ->
  o !! p = Some pl -> is_alive pl = true -> is_no_lynch pl = true ->
  vote_no_lynch m (mkWorld g o ls tr) = (Ok tt, mkWorld g o ls tr).
Proof.
  intros Hon Hp Hpl Hal Hnl. unfold vote_no_lynch. prim. rewrite Hon, Hp.
  cbn [negb]. erewrite bind_Ok; [|by apply get_player_eq]. cbv beta.
  by rewrite Hal, Hnl.
Qed.

Lemma vote_no_lynch_rejected g o ls tr m :
  is_ongoing g = true ->
  (user_to_player g !! uid (author m) = None \/
   exists p pl, user_to_player g !! uid (author m) = Some p /\
                o !! p = Some pl /\ is_alive pl = false) ->
  exists text,
    vote_no_lynch m (mkWorld g o ls tr)
    = (Ok tt, answered (mkWorld g o ls tr) text).
Proof.
  intros Hon [Hnone|(p & pl & Hp & Hpl & Hdead)]; unfold vote_no_lynch;
    prim; rewrite Hon; cbn [negb].
  - rewrite Hnone. by eexists.
  - rewrite Hp. erewrite bind_Ok; [|by apply get_player_eq]. cbv beta.
    rewrite Hdead. by eexists.
Qed.

(** ** [print_votes] *)

Lemma voted_by_Some o player keys :
  allocated o keys -> is_Some (voted_by o player keys).
Proof.
  induction 1 as [|p keys Hp Hkeys IH]; simpl; [done|].
  destruct (lookup_lt_is_Some_2 o p Hp) as [pl ->]. simpl.
  destruct IH as [rest ->]. simpl. eauto.
Qed.

Lemma votes_lines_Some o keys items :
  allocated o keys -> allocated o items.*1 ->
  is_Some (votes_lines o keys items).
Proof.
  intros Hkeys. induction items as [|[player votes] items IH]; simpl; [done|].
  intros Hall. inversion Hall as [|? ? Hp Hrest]; subst.
  destruct (lookup_lt_is_Some_2 o player Hp) as [pl ->]. simpl.
  destruct (voted_by_Some o player keys Hkeys) as [names ->]. simpl.
  destruct (IH Hrest) as [rest ->]. simpl. eauto.
Qed.

Lemma print_votes_ok g o ls tr :
  allocated o (dict_keys (vote_table g)) ->
  exists text,
    print_votes (mkWorld g o ls tr) = (Ok tt, answered (mkWorld g o ls tr) text).
Proof.
  intros Hall. unfold print_votes, votes_text. cbn [game objs lists trace].
  destruct (votes_lines_Some o (dict_keys (vote_table g)) (vote_table g))
    as [body ->]; [done..|].
  simpl. by eexists.
Qed.

(** ** Counting *)

Lemma count_ext f f' l :
  (forall q, q ∈ l -> f' q = f q) -> count f' l = count f l.
Proof.
  induction l as [|p l IH]; intros Hext; simpl; [done|].
  rewrite Hext by (apply elem_of_cons; by left).
  rewrite IH; [done|]. intros q Hq. apply Hext, elem_of_cons. by right.
Qed.

Lemma count_update f f' l p :
  NoDup l -> p ∈ l -> (forall q, q ≠ p -> f' q = f q) ->
  count f' l
  = (count f l - (if f p then 1 else 0) + (if f' p then 1 else 0))%Z.
Proof.
  intros Hnd Hin Hext. induction Hnd as [|x l Hx Hnd IH]; simpl.
  - by apply elem_of_nil in Hin.
  - apply elem_of_cons in Hin as [->|Hin].
    + rewrite (count_ext f f' l); [lia|].
      intros q Hq. apply Hext. by intros ->.
    + rewrite IH by done. rewrite Hext by (by intros ->). lia.
Qed.

Lemma count_none f l : (forall q, q ∈ l -> f q = false) -> count f l = 0%Z.
Proof.
  induction l as [|p l IH]; intros Hf; simpl; [done|].
  rewrite Hf by (apply elem_of_cons; by left).
  rewrite IH; [done|]. intros q Hq. apply Hf, elem_of_cons. by right.
Qed.

Lemma voting_insert_ne o p pl q : q ≠ p -> voting (<[p := pl]> o) q = voting o q.
Proof. intros Hne. unfold voting. by rewrite list_lookup_insert_ne. Qed.

Lemma voting_insert_eq o p pl :
  p < length o -> voting (<[p := pl]> o) p = bool_decide (is_Some (votes_for pl)).
Proof. intros Hlt. unfold voting. by rewrite list_lookup_insert_eq. Qed.

Lemma abstaining_insert_ne o p pl q :
  q ≠ p -> abstaining (<[p := pl]> o) q = abstaining o q.
Proof. intros Hne. unfold abstaining. by rewrite list_lookup_insert_ne. Qed.

Lemma abstaining_insert_eq o p pl :
  p < length o -> abstaining (<[p := pl]> o) p = is_no_lynch pl.
Proof. intros Hlt. unfold abstaining. by rewrite list_lookup_insert_eq. Qed.

(** ** Sums over the table *)

Lemma sum_dict_set (k : PlayerRef) (v c : Z) (d : list (PlayerRef * Z)) :
  dict_get k d = Some c ->
  sum_Z (dict_values (dict_set k v d)) = (sum_Z (dict_values d) - c + v)%Z.
Proof.
  unfold dict_values, sum_Z. induction d as [|[k2 v2] d IH]; [done|].
  cbn [dict_get dict_set]. destruct (decide (k = k2)) as [->|Hne].
  - intros [= ->]. rewrite !fmap_cons. cbn [foldr snd]. lia.
  - intros E. rewrite !fmap_cons. cbn [foldr snd]. rewrite IH by done. lia.
Qed.

Lemma sum_dict_add k delta d :
  is_Some (dict_get k d) ->
  sum_Z (dict_values (dict_add k delta d)) = (sum_Z (dict_values d) + delta)%Z.
Proof.
  intros [c Hc]. unfold dict_add. rewrite Hc.
  rewrite (sum_dict_set _ _ c) by done. lia.
Qed.

Lemma dict_keys_add k delta (d : list (PlayerRef * Z)) :
  dict_keys (dict_add k delta d) = dict_keys d.
Proof.
  unfold dict_add. destruct (dict_get k d) eqn:E; [|done].
  apply dict_keys_set_in. by rewrite E.
Qed.

Lemma dict_get_add_eq k delta (d : list (PlayerRef * Z)) c :
  dict_get k d = Some c -> dict_get k (dict_add k delta d) = Some (c + delta)%Z.
Proof. intros E. unfold dict_add. rewrite E. apply dict_get_set_eq. Qed.

Lemma dict_get_add_ne k k' delta (d : list (PlayerRef * Z)) :
  k' ≠ k -> dict_get k' (dict_add k delta d) = dict_get k' d.
Proof.
  intros Hne. unfold dict_add. destruct (dict_get k d); [|done].
  by apply dict_get_set_ne.
Qed.

Lemma dict_keys_retract v (d : list (PlayerRef * Z)) :
  dict_keys (retract v d) = dict_keys d.
Proof. destruct v; [apply dict_keys_add|done]. Qed.

Lemma sum_fresh_table al : sum_Z (dict_values (fresh_table al)) = 0%Z.
Proof.
  pose proof (fresh_table_zero al) as Hz. unfold dict_values, sum_Z.
  induction Hz as [|[k v] d Hv Hd IH]; [done|].
  rewrite fmap_cons. cbn [foldr snd] in *. lia.
Qed.

(** ** The shape of the game is kept *)

Lemma roster_base_game g g' o ls al :
  is_ongoing g' = is_ongoing g -> alive g' = alive g ->
  players g' = players g -> user_to_player g' = user_to_player g ->
  roster_base g o ls al -> roster_base g' o ls al.
Proof.
  unfold roster_base. intros -> -> -> ->. done.
Qed.

Lemma roster_base_objs g o o' ls al :
  length o' = length o ->
  (forall p, is_alive <$> o' !! p = is_alive <$> o !! p) ->
  roster_base g o ls al -> roster_base g o' ls al.
Proof.
  intros Hlen Hsame (Hon & Hal & Hnd & (ps & Hps & Hall & Hsub) & Halive & Hu).
  split_and!; try done.
  - exists ps. split_and!; try done. unfold allocated. by rewrite Hlen.
  - intros p. rewrite Halive. specialize (Hsame p).
    destruct (o' !! p) as [pl'|], (o !! p) as [pl|]; simplify_eq/=.
    + split; intros (? & [= <-] & ?); eexists; split; eauto; congruence.
    + split; intros (? & [=] & _).
  - intros u p Hp. rewrite Hlen. by eapply Hu.
Qed.

Lemma with_votes_base nl vt g o ls al :
  roster_base g o ls al -> roster_base (with_votes nl vt g) o ls al.
Proof. by apply roster_base_game. Qed.

Lemma next_day_base g o ls al :
  roster_base g o ls al -> roster_base (next_day g) o ls al.
Proof. apply roster_base_game; unfold next_day; by destruct (day_phase g). Qed.

Lemma base_allocated g o ls al p :
  roster_base g o ls al -> p ∈ al -> p < length o.
Proof.
  intros (_ & _ & _ & _ & Halive & _) Hp.
  apply Halive in Hp as (pl & Hpl & _). by eapply lookup_lt_Some.
Qed.

Lemma base_allocated_all g o ls al :
  roster_base g o ls al -> allocated o al.
Proof.
  intros Hb. apply Forall_forall. intros p Hp. by eapply base_allocated.
Qed.

Lemma kill_keeps_base g o ls al t pl :
  roster_base g o ls al -> t ∈ al -> o !! t = Some pl ->
  roster_base g (<[t := set_is_alive false pl]> o)
    (<[alive g := remove_first t al]> ls) (remove_first t al).
Proof.
  intros (Hon & Hal & Hnd & (ps & Hps & Hall & Hsub) & Halive & Hu) Hin Hpl.
  assert (Hlt : alive g < length ls) by (by eapply lookup_lt_Some).
  split_and!.
  - done.
  - by apply list_lookup_insert_eq.
  - by apply remove_first_NoDup.
  - destruct (decide (players g = alive g)) as [E|Hne].
    + exists (remove_first t al). rewrite E. split_and!.
      * by apply list_lookup_insert_eq.
      * unfold allocated. rewrite length_insert. apply Forall_forall.
        intros p Hp. apply remove_first_subseteq in Hp.
        apply Halive in Hp as (? & ? & _). by eapply lookup_lt_Some.
      * done.
    + exists ps. split_and!.
      * by rewrite list_lookup_insert_ne.
      * unfold allocated. by rewrite length_insert.
      * intros p Hp. by apply Hsub, (remove_first_subseteq t).
  - intros p. destruct (decide (p = t)) as [->|Hne].
    + rewrite list_lookup_insert_eq by (by eapply lookup_lt_Some). split.
      * intros Hp. by apply remove_first_gone in Hp.
      * intros (? & [= <-] & Hdead). done.
    + rewrite list_lookup_insert_ne by done. rewrite <- Halive. split.
      * apply remove_first_subseteq.
      * by apply remove_first_other.
  - intros u p Hp. rewrite length_insert. by eapply Hu.
Qed.

Lemma exclusive_insert o p pl :
  exclusive o -> ~ (is_Some (votes_for pl) /\ is_no_lynch pl = true) ->
  exclusive (<[p := pl]> o).
Proof.
  intros Hex Hpl q ql Hq. destruct (decide (q = p)) as [->|Hne].
  - apply list_lookup_insert_Some in Hq as [(_ & <- & _)|[? _]]; done.
  - rewrite list_lookup_insert_ne in Hq by done. by eapply Hex.
Qed.

Lemma exclusive_reset ps o : exclusive o -> exclusive (reset_votes ps o).
Proof.
  intros Hex p pl Hp. rewrite reset_votes_lookup in Hp.
  destruct (o !! p) as [pl0|] eqn:E; simplify_eq/=.
  destruct (decide (p ∈ ps)); simpl.
  - intros [[? [=]] _].
  - by eapply Hex.
Qed.

(** [progress_day] leaves a freshly built game. *)
Lemma progress_day_fresh g o ls tr al :
  roster_base g o ls al -> exclusive o ->
  exists w', progress_day (mkWorld g o ls tr) = (Ok tt, w') /\
             freshly_built w' al.
Proof.
  intros Hbase Hex.
  pose proof Hbase as (Hon & Hal & Hnd & (ps & Hps & Hall & Hsub) & Halive & Hu).
  eexists. split; [by apply progress_day_eq|].
  unfold freshly_built. cbn [game objs lists trace].
  assert (Hreset : forall p pl, p ∈ al -> reset_votes ps o !! p = Some pl ->
            votes_for pl = None /\ is_no_lynch pl = false).
  { intros p pl Hp Hpl. rewrite reset_votes_lookup in Hpl.
    rewrite decide_True in Hpl by (by apply Hsub).
    destruct (o !! p); simplify_eq/=. done. }
  split_and!.
  - split_and!.
    + apply with_votes_base, next_day_base.
      apply (roster_base_objs g o); [apply reset_votes_length| |done].
      intros p. apply reset_votes_alive.
    + by apply fresh_table_keys_NoDup.
    + intros p pl t Hp Hpl Hv. destruct (Hreset p pl Hp Hpl) as [Hnone _].
      congruence.
  - done.
  - done.
  - exact Hreset.
  - by apply exclusive_reset.
Qed.

Lemma fresh_consistent w al : freshly_built w al -> consistent w al.
Proof.
  intros (Hok & Hvt & Hnl & Hclear & Hex). split; [done|]. split_and!.
  - rewrite Hvt, sum_fresh_table. symmetry. apply count_none.
    intros p Hp. unfold voting. destruct (objs w !! p) as [pl|] eqn:E; [|done].
    destruct (Hclear p pl Hp E) as [-> _]. apply bool_decide_eq_false.
    by intros [? [=]].
  - rewrite Hnl. symmetry. apply count_none.
    intros p Hp. unfold abstaining. destruct (objs w !! p) as [pl|] eqn:E; [|done].
    by destruct (Hclear p pl Hp E) as [_ ->].
  - done.
Qed.

Lemma ceil_half_pos (l : list PlayerRef) :
  l ≠ [] -> (0 < ceil_half (length l))%Z.
Proof.
  intros Hne. unfold ceil_half. destruct l as [|x l]; [done|].
  pose proof (Z.div_mod (- Z.of_nat (length (x :: l))) 2 ltac:(lia)) as E.
  pose proof (Z.mod_pos_bound (- Z.of_nat (length (x :: l))) 2 ltac:(lia)) as Hb.
  simpl length in *. lia.
Qed.

Lemma fresh_settled w al : freshly_built w al -> settled w al.
Proof.
  intros Hfresh. split; [by apply fresh_consistent|].
  destruct Hfresh as (_ & _ & -> & _). apply ceil_half_pos.
Qed.

Lemma settled_trace g o ls tr tr' al :
  settled (mkWorld g o ls tr) al -> settled (mkWorld g o ls tr') al.
Proof. done. Qed.

(** ** The tally invariant is kept *)

Lemma consistent_trace g o ls tr tr' al :
  consistent (mkWorld g o ls tr) al -> consistent (mkWorld g o ls tr') al.
Proof. done. Qed.

(** Majority evaluation keeps the invariant, whichever rule fires. *)
Lemma check_consistent g o ls tr al voted :
  consistent (mkWorld g o ls tr) al ->
  (forall t, voted = Some t -> t ∈ al) ->
  exists w' al',
    check_if_day_should_progress voted (mkWorld g o ls tr) = (Ok tt, w') /\
    settled w' al'.
Proof.
  intros Hcons Hv. pose proof Hcons as [[Hbase [Hkeys Hvotes]] (Hsum & Hnl & Hex)].
  cbn [game objs lists trace] in *.
  pose proof Hbase as (Hon & Hal & Hnd & _).
  assert (Hstay : forall voted',
            (forall t, voted' = Some t ->
               exists c, dict_get t (vote_table g) = Some c /\
                         (c < floor_half (length (vote_table g)) + 1)%Z) ->
            exists w' al',
              check_if_day_should_progress voted' (mkWorld g o ls tr) = (Ok tt, w') /\
              settled w' al').
  { intros voted' Hlow. rewrite (check_no_lynch g o ls tr voted' al) by done.
    destruct (bool_decide_reflect (ceil_half (length al) ≤ no_lynch g)%Z)
      as [Hge|Hlt].
    - destruct (progress_day_fresh g o ls
                  (tr ++ [Send (ToChannel (gen_channel g))
                            "The town has voted for no lynch!"]) al Hbase Hex)
        as (w' & E & Hfresh).
      exists w', al. split; [done|]. by apply fresh_settled.
    - exists (mkWorld g o ls tr), al. split; [done|]. split; [done|].
      intros _. cbn [game]. lia. }
  destruct voted as [t|]; [|apply Hstay; by intros ? [=]].
  assert (t ∈ al) as Hin by (by apply Hv).
  destruct (dict_get_key_Some t (vote_table g)) as [c Hc]; [by rewrite Hkeys|].
  destruct (decide (floor_half (length (vote_table g)) + 1 ≤ c)%Z) as [Hge|Hlt].
  - assert (t < length o) as Hlen by (by eapply base_allocated).
    destruct (lookup_lt_is_Some_2 o t Hlen) as [pl Hpl].
    rewrite (check_lynch g o ls tr t c pl) by done.
    erewrite bind_Ok; [|by apply kill_player_eq].
    destruct (progress_day_fresh g (<[t := set_is_alive false pl]> o)
                (<[alive g := remove_first t al]> ls)
                (tr ++ [Send (ToChannel (gen_channel g)) (lynch_text g pl)])
                (remove_first t al)) as (w' & E & Hfresh).
    + by apply kill_keeps_base.
    + apply exclusive_insert; [done|]. apply (Hex t pl Hpl).
    + exists w', (remove_first t al). split; [done|]. by apply fresh_settled.
  - apply Hstay. intros ? [= <-]. exists c. split; [done|lia].
Qed.

Lemma lynch_voted_consistent g o ls tr al m p pl q u :
  consistent (mkWorld g o ls tr) al ->
  p ∈ al -> o !! p = Some pl -> q ∈ al ->
  consistent (lynch_voted (mkWorld g o ls tr) m p pl q u) al.
Proof.
  intros [[Hbase [Hkeys Hvotes]] (Hsum & Hnl & Hex)] Hp Hpl Hq.
  cbn [game objs lists trace] in *.
  pose proof Hbase as (Hon & Hal & Hnd & _).
  assert (Hlt : p < length o) by (by eapply lookup_lt_Some).
  assert (Hkeys' : dict_keys (retract (votes_for pl) (vote_table g)) = al).
  { by rewrite dict_keys_retract. }
  unfold lynch_voted, consistent. cbn [game objs lists trace].
  split; [split_and!|split_and!].
  - apply with_votes_base. apply (roster_base_objs g o); [|intros p'|done].
    + by rewrite length_insert.
    + destruct (decide (p' = p)) as [->|Hne].
      * by rewrite list_lookup_insert_eq, Hpl.
      * by rewrite list_lookup_insert_ne.
  - cbn [vote_table with_votes]. by rewrite dict_keys_add.
  - intros p' pl' t Hp' Hpl' Hv. destruct (decide (p' = p)) as [->|Hne].
    + rewrite list_lookup_insert_eq in Hpl' by done. simplify_eq/=. done.
    + rewrite list_lookup_insert_ne in Hpl' by done. by eapply Hvotes.
  - cbn [vote_table with_votes].
    rewrite sum_dict_add by (apply dict_get_key_Some; by rewrite Hkeys').
    rewrite (count_update (voting o) _ al p Hnd Hp)
      by (intros; by apply voting_insert_ne).
    rewrite voting_insert_eq by done. cbn [votes_for set_votes_for].
    rewrite bool_decide_true by eauto.
    unfold voting at 2. rewrite Hpl.
    destruct (votes_for pl) as [old|] eqn:Hv; cbn [retract].
    + rewrite sum_dict_add.
      * rewrite bool_decide_true by eauto. lia.
      * apply dict_get_key_Some. rewrite Hkeys. exact (Hvotes p pl old Hp Hpl Hv).
    + rewrite bool_decide_false by (by intros [? [=]]). lia.
  - cbn [no_lynch with_votes].
    rewrite (count_update (abstaining o) _ al p Hnd Hp)
      by (intros; by apply abstaining_insert_ne).
    rewrite abstaining_insert_eq by done. cbn [is_no_lynch set_votes_for set_is_no_lynch].
    unfold abstaining at 2. rewrite Hpl. destruct (is_no_lynch pl); lia.
  - apply exclusive_insert; [done|]. by intros [_ [=]].
Qed.

Lemma no_lynch_voted_consistent g o ls tr al p pl :
  consistent (mkWorld g o ls tr) al ->
  p ∈ al -> o !! p = Some pl -> is_no_lynch pl = false ->
  consistent (no_lynch_voted (mkWorld g o ls tr) p pl) al.
Proof.
  intros [[Hbase [Hkeys Hvotes]] (Hsum & Hnl & Hex)] Hp Hpl Hnot.
  cbn [game objs lists trace] in *.
  pose proof Hbase as (Hon & Hal & Hnd & _).
  assert (Hlt : p < length o) by (by eapply lookup_lt_Some).
  unfold no_lynch_voted, consistent. cbn [game objs lists trace].
  split; [split_and!|split_and!].
  - apply with_votes_base. apply (roster_base_objs g o); [|intros p'|done].
    + by rewrite length_insert.
    + destruct (decide (p' = p)) as [->|Hne].
      * by rewrite list_lookup_insert_eq, Hpl.
      * by rewrite list_lookup_insert_ne.
  - cbn [vote_table with_votes]. by rewrite dict_keys_retract.
  - intros p' pl' t Hp' Hpl' Hv. destruct (decide (p' = p)) as [->|Hne].
    + rewrite list_lookup_insert_eq in Hpl' by done. simplify_eq/=.
    + rewrite list_lookup_insert_ne in Hpl' by done. by eapply Hvotes.
  - cbn [vote_table with_votes].
    rewrite (count_update (voting o) _ al p Hnd Hp)
      by (intros; by apply voting_insert_ne).
    rewrite voting_insert_eq by done. cbn [votes_for set_votes_for set_is_no_lynch].
    rewrite bool_decide_false by (by intros [? [=]]).
    unfold voting at 2. rewrite Hpl.
    destruct (votes_for pl) as [old|] eqn:Hv; cbn [retract].
    + rewrite sum_dict_add.
      * rewrite bool_decide_true by eauto. lia.
      * apply dict_get_key_Some. rewrite Hkeys. exact (Hvotes p pl old Hp Hpl Hv).
    + rewrite bool_decide_false by (by intros [? [=]]). lia.
  - cbn [no_lynch with_votes].
    rewrite (count_update (abstaining o) _ al p Hnd Hp)
      by (intros; by apply abstaining_insert_ne).
    rewrite abstaining_insert_eq by done. cbn [is_no_lynch set_is_no_lynch].
    unfold abstaining at 2. rewrite Hpl, Hnot. lia.
  - apply exclusive_insert; [done|]. by intros [[? [=]] _].
Qed.

(** After the tally was changed: broadcast, then evaluate majority. *)
Lemma broadcast_and_check w al voted :
  consistent w al ->
  (forall t, voted = Some t -> t ∈ al) ->
  exists w' al',
    (print_votes;; check_if_day_should_progress voted) w = (Ok tt, w') /\
    settled w' al'.
Proof.
  destruct w as [g o ls tr]. intros Hcons Hv.
  destruct (print_votes_ok g o ls tr) as [text Eprint].
  { destruct Hcons as [[Hbase [Hkeys _]] _]. cbn [game objs lists] in *.
    rewrite Hkeys. by eapply base_allocated_all. }
  erewrite bind_Ok; [|exact Eprint]. by apply (check_consistent _ _ _ _ al).
Qed.

Lemma vote_to_lynch_settled w al m :
  settled w al ->
  exists w' al', vote_to_lynch m w = (Ok tt, w') /\ settled w' al'.
Proof.
  destruct w as [g o ls tr]. intros Hset.
  pose proof Hset as [Hcons _].
  pose proof Hcons as [[Hbase [Hkeys Hvotes]] _].
  cbn [game objs lists trace] in *.
  pose proof Hbase as (Hon & _ & _ & _ & Halive & Hu).
  assert (Hanswer : forall text,
            vote_to_lynch m (mkWorld g o ls tr)
            = (Ok tt, answered (mkWorld g o ls tr) text) ->
            exists w' al',
              vote_to_lynch m (mkWorld g o ls tr) = (Ok tt, w') /\
              settled w' al').
  { intros text E. by exists (answered (mkWorld g o ls tr) text), al. }
  destruct (user_to_player g !! uid (author m)) as [p|] eqn:Hp.
  2:{ apply (Hanswer not_in_game_text). unfold vote_to_lynch. prim.
      by rewrite Hon, Hp. }
  destruct (lookup_lt_is_Some_2 o p (Hu _ _ Hp)) as [pl Hpl].
  destruct (is_alive pl) eqn:Hpal.
  2:{ apply (Hanswer (dead_text pl)). unfold vote_to_lynch. prim.
      rewrite Hon, Hp. cbn [negb].
      erewrite bind_Ok; [|by apply get_player_eq]. cbv beta. by rewrite Hpal. }
  destruct (mentions m) as [|u rest] eqn:Hm.
  { apply (Hanswer "You have to vote for someone! (Or no-lynch!)").
    unfold vote_to_lynch. prim. rewrite Hon, Hp. cbn [negb].
    erewrite bind_Ok; [|by apply get_player_eq]. cbv beta. by rewrite Hpal, Hm. }
  destruct (user_to_player g !! uid u) as [q|] eqn:Hq.
  2:{ apply (Hanswer "That player is not in the game.").
      unfold vote_to_lynch. prim. rewrite Hon, Hp. cbn [negb].
      erewrite bind_Ok; [|by apply get_player_eq]. cbv beta.
      by rewrite Hpal, Hm, Hq. }
  destruct (lookup_lt_is_Some_2 o q (Hu _ _ Hq)) as [ql Hql].
  destruct (is_alive ql) eqn:Hqal.
  2:{ apply (Hanswer "You have to vote for someone alive!").
      unfold vote_to_lynch. prim. rewrite Hon, Hp. cbn [negb].
      erewrite bind_Ok; [|by apply get_player_eq]. cbv beta.
      rewrite Hpal, Hm, Hq. cbn [negb].
      erewrite bind_Ok; [|by apply get_player_eq]. cbv beta. by rewrite Hqal. }
  assert (p ∈ al) as Hpin by (apply Halive; eauto).
  assert (q ∈ al) as Hqin by (apply Halive; eauto).
  rewrite (vote_to_lynch_accepted g o ls tr m p pl u rest q ql); try done.
  - apply (broadcast_and_check _ al).
    + by apply lynch_voted_consistent.
    + by intros ? [= <-].
  - intros old Hold. apply dict_get_key_Some. rewrite Hkeys.
    exact (Hvotes p pl old Hpin Hpl Hold).
  - apply dict_get_key_Some. by rewrite dict_keys_retract, Hkeys.
Qed.

Lemma vote_no_lynch_settled w al m :
  settled w al ->
  exists w' al', vote_no_lynch m w = (Ok tt, w') /\ settled w' al'.
Proof.
  destruct w as [g o ls tr]. intros Hset.
  pose proof Hset as [Hcons _].
  pose proof Hcons as [[Hbase [Hkeys Hvotes]] _].
  cbn [game objs lists trace] in *.
  pose proof Hbase as (Hon & _ & _ & _ & Halive & Hu).
  destruct (user_to_player g !! uid (author m)) as [p|] eqn:Hp.
  2:{ destruct (vote_no_lynch_rejected g o ls tr m Hon) as [text E]; [by left|].
      by exists (answered (mkWorld g o ls tr) text), al. }
  destruct (lookup_lt_is_Some_2 o p (Hu _ _ Hp)) as [pl Hpl].
  destruct (is_alive pl) eqn:Hpal.
  2:{ destruct (vote_no_lynch_rejected g o ls tr m Hon) as [text E].
      { right. by exists p, pl. }
      by exists (answered (mkWorld g o ls tr) text), al. }
  assert (p ∈ al) as Hpin by (apply Halive; eauto).
  destruct (is_no_lynch pl) eqn:Hnl.
  { exists (mkWorld g o ls tr), al. split; [|done].
    by apply (vote_no_lynch_idle g o ls tr m p pl). }
  rewrite (vote_no_lynch_accepted g o ls tr m p pl); try done.
  - apply (broadcast_and_check _ al).
    + by apply no_lynch_voted_consistent.
    + by intros ? [=].
  - intros old Hold. apply dict_get_key_Some. rewrite Hkeys.
    exact (Hvotes p pl old Hpin Hpl Hold).
Qed.

Lemma run_votes_settled vs : forall w al,
  settled w al ->
  exists w' al', run_votes vs w = (Ok tt, w') /\ settled w' al'.
Proof.
  unfold run_votes. induction vs as [|v vs IH]; intros w al Hset; simpl.
  - by exists w, al.
  - assert (exists w1 al1, cast v w = (Ok tt, w1) /\ settled w1 al1)
      as (w1 & al1 & E1 & Hset1).
    { destruct v as [m|m]; simpl.
      - by eapply vote_to_lynch_settled.
      - by eapply vote_no_lynch_settled. }
    destruct (IH w1 al1 Hset1) as (w' & al' & E & Hset').
    exists w', al'. split; [|done]. by erewrite bind_Ok.
Qed.

(** C4. Starting from a freshly built vote table, after any sequence of lynch
    and no-lynch votes the counts of the vote table add up to the number of
    alive players with a standing vote, the no-lynch counter is the number of
    alive players with a no-lynch standing, and no player has both. *)
Theorem tally_invariant (w : World) (al : list PlayerRef) (vs : list Vote) :
  freshly_built w al ->
  exists w' al',
    run_votes vs w = (Ok tt, w') /\
    lists w' !! alive (game w') = Some al' /\
    (forall p, p ∈ al' <->
       exists pl, objs w' !! p = Some pl /\ is_alive pl = true) /\
    sum_Z (dict_values (vote_table (game w'))) = count (voting (objs w')) al' /\
    no_lynch (game w') = count (abstaining (objs w')) al' /\
    (forall p pl, objs w' !! p = Some pl ->
       ~ (is_Some (votes_for pl) /\ is_no_lynch pl = true)).
Proof.
  intros Hfresh.
  destruct (run_votes_settled vs w al (fresh_settled w al Hfresh))
    as (w' & al' & E & [[[Hbase _] (Hsum & Hnl & Hex)] _]).
  destruct Hbase as (_ & Hal & _ & _ & Halive & _).
  exists w', al'. split_and!; done.
Qed.

(** ** Every started game is freshly built *)

Lemma index_users_range (l : list (User * PlayerRef))
  (acc : gmap string PlayerRef) (k : string) (p : PlayerRef) :
  foldl (fun d up => <[uid up.1 := up.2]> d) acc l !! k = Some p ->
  acc !! k = Some p \/ p ∈ l.*2.
Proof.
  revert acc. induction l as [|[u q] l IH]; intros acc E; simpl in *; [by left|].
  destruct (IH _ E) as [Hacc|Hin].
  - destruct (decide (uid u = k)) as [<-|Hne].
    + rewrite lookup_insert_eq in Hacc. injection Hacc as <-.
      right. apply elem_of_cons. by left.
    + rewrite lookup_insert_ne in Hacc by done. by left.
  - right. apply elem_of_cons. by right.
Qed.

Lemma assign_roles_length mf tw o : length (assign_roles mf tw o) = length o.
Proof. unfold assign_roles. by rewrite !alter_all_length. Qed.

(** The two role loops touch nothing but [role]. *)
Lemma assign_roles_keeps mf tw o p pl' :
  assign_roles mf tw o !! p = Some pl' ->
  exists pl, o !! p = Some pl /\ is_alive pl' = is_alive pl /\
             votes_for pl' = votes_for pl /\ is_no_lynch pl' = is_no_lynch pl.
Proof.
  rewrite assign_roles_lookup. destruct (o !! p) as [pl|]; [|done].
  intros E. exists pl. split; [done|].
  destruct (decide (p ∈ tw)), (decide (p ∈ mf)); simplify_eq/=; done.
Qed.

(** From a lobby whose roster holds every [Player] object, all of them new,
    [give_roles] and [progress_day] lead to a freshly built game. *)
Lemma lobby_to_fresh R g o ls tr ps :
  fair R -> is_ongoing g = true ->
  ls !! players g = Some ps -> NoDup ps ->
  (forall p, p ∈ ps <-> p < length o) ->
  Forall (fun pl => is_alive pl = true /\ votes_for pl = None /\
                    is_no_lynch pl = false) o ->
  exists w', (give_roles R;; progress_day) (mkWorld g o ls tr) = (Ok tt, w') /\
             freshly_built w' ps.
Proof.
  intros HR Hon Hps Hnd Hall Hnew.
  assert (allocated o ps) as Halloc.
  { apply Forall_forall. intros p Hp. by apply Hall. }
  destruct (give_roles_eq R g o ls tr ps HR Hps Halloc) as (us & tr' & E & HF).
  erewrite bind_Ok; [|exact E].
  apply progress_day_fresh.
  - assert (Hlook : ((ls ++ [sample R ps (round_quarter (length ps))]) ++
              [set_order R (list_difference (remove_dups ps)
                              (sample R ps (round_quarter (length ps))))])
              !! players g = Some ps).
    { rewrite !lookup_app_l; [done|..].
      - by eapply lookup_lt_Some.
      - rewrite length_app. apply lookup_lt_Some in Hps. lia. }
    split_and!; cbn [is_ongoing alive players user_to_player with_rosters with_roles];
      try done.
    + exists ps. split_and!; try done.
      unfold allocated. by rewrite assign_roles_length.
    + intros p. rewrite Hall. split.
      * intros Hlt. rewrite <- (assign_roles_length
          (sample R ps (round_quarter (length ps)))
          (set_order R (list_difference (remove_dups ps)
                          (sample R ps (round_quarter (length ps))))) o) in Hlt.
        destruct (lookup_lt_is_Some_2 _ _ Hlt) as [pl' Hpl'].
        exists pl'. split; [done|].
        destruct (assign_roles_keeps _ _ _ _ _ Hpl') as (pl & Hpl & -> & _).
        eapply Forall_lookup_1 in Hnew; [|exact Hpl]. tauto.
      * intros (pl' & Hpl' & _). apply lookup_lt_Some in Hpl'.
        by rewrite assign_roles_length in Hpl'.
    + intros u p Hp. rewrite assign_roles_length. apply Hall.
      apply index_users_range in Hp as [Hp|Hp]; [done|].
      rewrite snd_zip in Hp; [done|].
      apply Forall2_length in HF. lia.
  - intros p pl' Hpl'.
    destruct (assign_roles_keeps _ _ _ _ _ Hpl') as (pl & Hpl & _ & -> & ->).
    eapply Forall_lookup_1 in Hnew; [|exact Hpl].
    destruct Hnew as (_ & -> & ->). by intros [[? [=]] _].
Qed.

Lemma new_players_fresh (us : list User) :
  Forall (fun pl => is_alive pl = true /\ votes_for pl = None /\
                    is_no_lynch pl = false) (new_Player <$> us).
Proof. apply Forall_fmap, Forall_forall. by intros u _. Qed.

(** The first game of a [MafiaGame] object starts freshly built, whoever is
    mentioned in the start message and whoever joins during the window, once
    the sleep for the window returns. *)
Lemma start_new_game_fresh R I joiners m :
  fair R ->
  (join_window I new_MafiaGame m < float_overflow)%Z ->
  exists w',
    start_new_game R I joiners m new_MafiaGame = (Ok tt, w') /\
    freshly_built w' (seq 0 (length (mentions m ++ joiners))).
Proof.
  intros HR. unfold start_new_game, new_MafiaGame, join_window. prim.
  cbn [is_ongoing].
  erewrite bind_Ok; [|reflexivity]. cbv beta. prim. prim. prim. prim.
  cbn [with_lobby timeout is_accepting gen_channel players townies mafia alive
         roles day_num day_phase no_lynch vote_table user_to_player is_ongoing].
  assert (Hlobby : forall t,
    (t < float_overflow)%Z ->
    exists w',
      (for_each (mentions m) add_player;;
       g ← get_game;
       sleep (timeout g);;
       for_each joiners add_player;;
       g0 ← get_game;
       put_game (with_lobby (timeout g0) false (gen_channel g0) g0);;
       give_roles R;; progress_day)
        (mkWorld (mkGame t true true 4 5 6 3 ∅ 0 Night 0 [] ∅ (Some (channel m)))
           [] [[]; []; []; []; []; []; []]
           [Send (ToChannel (Some (channel m))) (opening_text 10)])
      = (Ok tt, w') /\
      freshly_built w' (seq 0 (length (mentions m ++ joiners)))).
  { intros t Ht.
    erewrite bind_Ok; [|by apply (add_players_eq _ _ _ _ _ [])].
    cbv beta. prim. unfold sleep. cbn [timeout].
    rewrite decide_True by done. prim. cbn [players].
    erewrite bind_Ok; [|by apply (add_players_eq _ _ _ _ _ (seq 0 (length (mentions m))))].
    cbv beta. prim. prim.
    cbn [with_lobby timeout is_accepting gen_channel players townies mafia alive
           roles day_num day_phase no_lynch vote_table user_to_player is_ongoing].
    rewrite !app_nil_l, length_fmap, <- fmap_app.
    change (length (mentions m)) with (0 + length (mentions m)) at 2.
    rewrite <- seq_app, <- length_app.
    apply lobby_to_fresh; try done.
    - apply NoDup_seq.
    - intros p. rewrite elem_of_seq, length_fmap. lia.
    - apply new_players_fresh. }
  destruct (split_space (content m)) as [|cmd [|arg rest]].
  - intros Ht. prim. by apply Hlobby.
  - intros Ht. prim. by apply Hlobby.
  - intros Ht. prim. by apply Hlobby.
Qed.

Lemma demo_day1_fresh : freshly_built demo_day1 [0; 1; 2; 3].
Proof.
  destruct (start_new_game_fresh first_k cpython [demo_user "d"] demo_start
              first_k_fair) as (w' & E & Hfresh).
  { vm_compute. reflexivity. }
  unfold demo_day1. rewrite E. exact Hfresh.
Qed.

Lemma demo_three_fresh : freshly_built demo_three [0; 1; 2].
Proof.
  destruct (start_new_game_fresh first_k cpython [] demo_start3
              first_k_fair) as (w' & E & Hfresh).
  { vm_compute. reflexivity. }
  unfold demo_three. rewrite E. exact Hfresh.
Qed.

Lemma tally_invariant_witness :
  exists w' al',
    run_votes [Lynch (demo_vote "a" "b"); NoLynch (demo_vote "c" "");
               Lynch (demo_vote "c" "b"); Lynch (demo_vote "b" "a")] demo_day1
    = (Ok tt, w') /\
    sum_Z (dict_values (vote_table (game w'))) = count (voting (objs w')) al' /\
    no_lynch (game w') = count (abstaining (objs w')) al'.
Proof.
  destruct (tally_invariant demo_day1 [0; 1; 2; 3]
              [Lynch (demo_vote "a" "b"); NoLynch (demo_vote "c" "");
               Lynch (demo_vote "c" "b"); Lynch (demo_vote "b" "a")]
              demo_day1_fresh)
    as (w' & al' & E & _ & _ & Hsum & Hnl & _).
  exists w', al'. split_and!; assumption.
Defined.

(** ** Single votes *)

Lemma table_length_alive g o ls al :
  roster_ok g o ls al -> length (vote_table g) = length al.
Proof.
  intros (_ & Hkeys & _). rewrite <- Hkeys. unfold dict_keys.
  by rewrite length_fmap.
Qed.

(** A lynch vote by [p] for [q] in a settled game, up to the moment majority
    is evaluated. *)
Lemma vote_to_lynch_voted g o ls tr al m p pl u rest q ql :
  settled (mkWorld g o ls tr) al ->
  user_to_player g !! uid (author m) = Some p ->
  o !! p = Some pl -> is_alive pl = true ->
  mentions m = u :: rest ->
  user_to_player g !! uid u = Some q ->
  o !! q = Some ql -> is_alive ql = true ->
  p ∈ al /\ q ∈ al /\
  consistent (lynch_voted (mkWorld g o ls tr) m p pl q u) al /\
  exists text,
    vote_to_lynch m (mkWorld g o ls tr)
    = check_if_day_should_progress (Some q)
        (answered (lynch_voted (mkWorld g o ls tr) m p pl q u) text).
Proof.
  intros [Hcons _] Hp Hpl Hpal Hm Hq Hql Hqal.
  pose proof Hcons as [[Hbase [Hkeys Hvotes]] _].
  cbn [game objs lists trace] in *.
  pose proof Hbase as (Hon & _ & _ & _ & Halive & _).
  assert (p ∈ al) as Hpin by (apply Halive; eauto).
  assert (q ∈ al) as Hqin by (apply Halive; eauto).
  pose proof (lynch_voted_consistent g o ls tr al m p pl q u Hcons Hpin Hpl Hqin)
    as Hcons1.
  split_and!; try done.
  destruct (print_votes_ok
              (game (lynch_voted (mkWorld g o ls tr) m p pl q u))
              (objs (lynch_voted (mkWorld g o ls tr) m p pl q u)) ls
              (trace (lynch_voted (mkWorld g o ls tr) m p pl q u)))
    as [text Eprint].
  { destruct Hcons1 as [[Hbase1 [Hkeys1 _]] _]. rewrite Hkeys1.
    by eapply base_allocated_all. }
  exists text.
  rewrite (vote_to_lynch_accepted g o ls tr m p pl u rest q ql); try done.
  - by erewrite bind_Ok.
  - intros old Hold. apply dict_get_key_Some. rewrite Hkeys.
    exact (Hvotes p pl old Hpin Hpl Hold).
  - apply dict_get_key_Some. by rewrite dict_keys_retract, Hkeys.
Qed.

(** The first rule with its outcome spelled out. *)
Lemma check_lynch_outcome g o ls tr al t c :
  roster_base g o ls al -> t ∈ al ->
  dict_get t (vote_table g) = Some c ->
  (floor_half (length (vote_table g)) + 1 ≤ c)%Z ->
  exists w',
    check_if_day_should_progress (Some t) (mkWorld g o ls tr) = (Ok tt, w') /\
    is_alive <$> objs w' !! t = Some false /\
    lists w' !! alive (game w') = Some (remove_first t al) /\
    t ∉ remove_first t al.
Proof.
  intros Hbase Hin Hc Hge.
  pose proof Hbase as (Hon & Hal & Hnd & (ps & Hps & Hall & Hsub) & _).
  assert (t < length o) as Hlen by (by eapply base_allocated).
  destruct (lookup_lt_is_Some_2 o t Hlen) as [pl Hpl].
  destruct (roster_after_kill g ls ps al t Hps Hal) as (ps' & Hps' & Hsub').
  eexists. split.
  { rewrite (check_lynch g o ls tr t c pl) by done.
    erewrite bind_Ok; [|by apply kill_player_eq].
    apply (progress_day_eq _ _ _ _ ps' (remove_first t al)); [done|..].
    - apply list_lookup_insert_eq. by eapply lookup_lt_Some.
    - eapply allocated_subseteq; [exact Hsub'|].
      unfold allocated. by rewrite length_insert. }
  cbn [game objs lists trace]. split_and!.
  - rewrite reset_votes_alive, list_lookup_insert_eq by done. done.
  - assert (alive (with_votes 0 (fresh_table (remove_first t al)) (next_day g))
            = alive g) as -> by (unfold next_day; by destruct (day_phase g)).
    apply list_lookup_insert_eq. by eapply lookup_lt_Some.
  - by apply remove_first_gone.
Qed.

(** One accepted or rejected lynch vote later the game is settled again, with
    the alive list that is then stored. *)
Lemma settled_after_vote w al m al' :
  settled w al ->
  lists (vote_to_lynch m w).2 !! alive (game (vote_to_lynch m w).2) = Some al' ->
  settled (vote_to_lynch m w).2 al'.
Proof.
  intros Hset Hal'.
  destruct (vote_to_lynch_settled w al m Hset) as (w' & al1 & E & Hset').
  rewrite E in *. cbn [snd] in *.
  pose proof Hset' as [[[(_ & Hal1 & _) _] _] _].
  rewrite Hal1 in Hal'. injection Hal' as <-. done.
Qed.

Lemma demo_day1_voted_settled : settled demo_day1_voted [0; 1; 2; 3].
Proof.
  apply (settled_after_vote demo_day1 [0; 1; 2; 3]).
  - apply fresh_settled, demo_day1_fresh.
  - vm_compute. reflexivity.
Qed.

Lemma demo_three_b_settled : settled demo_three_b [0; 1; 2].
Proof.
  apply (settled_after_vote demo_three [0; 1; 2]).
  - apply fresh_settled, demo_three_fresh.
  - vm_compute. reflexivity.
Qed.

(** C9. A player who is alive and in the game may name themself: the vote
    passes validation, their own entry goes up by one and their [votes_for]
    is themself when majority is evaluated; if their entry has then reached
    [floor(n/2) + 1] they are marked dead, and otherwise the vote stands. *)
Theorem self_vote (w : World) (al : list PlayerRef) (m : Message)
  (p : PlayerRef) (pl : Player) (rest : list User) :
  settled w al ->
  user_to_player (game w) !! uid (author m) = Some p ->
  objs w !! p = Some pl -> is_alive pl = true ->
  mentions m = author m :: rest ->
  exists (c : Z) (text : string) (w' : World),
    dict_get p (retract (votes_for pl) (vote_table (game w))) = Some c /\
    vote_to_lynch m w
    = check_if_day_should_progress (Some p)
        (answered (lynch_voted w m p pl p (author m)) text) /\
    dict_get p (vote_table (game (lynch_voted w m p pl p (author m))))
    = Some (c + 1)%Z /\
    votes_for <$> objs (lynch_voted w m p pl p (author m)) !! p
    = Some (Some p) /\
    vote_to_lynch m w = (Ok tt, w') /\
    ((floor_half (length al) + 1 ≤ c + 1)%Z ->
       is_alive <$> objs w' !! p = Some false /\
       exists al', lists w' !! alive (game w') = Some al' /\ p ∉ al') /\
    ((c + 1 < floor_half (length al) + 1)%Z ->
       is_alive <$> objs w' !! p = Some true /\
       votes_for <$> objs w' !! p = Some (Some p) /\
       dict_get p (vote_table (game w')) = Some (c + 1)%Z).
Proof.
  destruct w as [g o ls tr]. cbn [game objs lists trace].
  intros Hset Hp Hpl Hpal Hm.
  destruct (vote_to_lynch_voted g o ls tr al m p pl (author m) rest p pl)
    as (Hpin & _ & Hcons1 & text & E); try done.
  pose proof Hset as [[[Hbase [Hkeys Hvotes]] _] Hbound].
  cbn [game objs lists trace] in *.
  assert (Hlt : p < length o) by (by eapply lookup_lt_Some).
  destruct (dict_get_key_Some p (retract (votes_for pl) (vote_table g)))
    as [c Hc]; [by rewrite dict_keys_retract, Hkeys|].
  assert (Hc1 : dict_get p (vote_table (game
                  (lynch_voted (mkWorld g o ls tr) m p pl p (author m))))
                = Some (c + 1)%Z).
  { unfold lynch_voted. cbn [game vote_table with_votes]. by apply dict_get_add_eq. }
  assert (Hv1 : votes_for <$> objs
                  (lynch_voted (mkWorld g o ls tr) m p pl p (author m)) !! p
                = Some (Some p)).
  { unfold lynch_voted. cbn [objs]. by rewrite list_lookup_insert_eq. }
  pose proof Hcons1 as [Hok1 _].
  pose proof (table_length_alive _ _ _ _ Hok1) as Hlen1.
  destruct (decide (floor_half (length al) + 1 ≤ c + 1)%Z) as [Hge|Hlow].
  - destruct (check_lynch_outcome
                (game (lynch_voted (mkWorld g o ls tr) m p pl p (author m)))
                (objs (lynch_voted (mkWorld g o ls tr) m p pl p (author m)))
                ls
                (trace (answered
                          (lynch_voted (mkWorld g o ls tr) m p pl p (author m))
                          text))
                al p (c + 1)%Z)
      as (w' & Echeck & Hdead & Hal' & Hgone); try done.
    { by destruct Hok1. }
    { by rewrite Hlen1. }
    exists c, text, w'. split_and!; try done.
    + by rewrite E.
    + intros _. split; [done|]. by exists (remove_first p al).
    + intros Hlow. exfalso. lia.
  - exists c, text,
      (answered (lynch_voted (mkWorld g o ls tr) m p pl p (author m)) text).
    split_and!; try done.
    + rewrite E. unfold answered. cbn [game objs lists trace].
      rewrite (check_no_lynch _ _ _ _ _ al).
      * rewrite bool_decide_false; [done|].
        unfold lynch_voted. cbn [game no_lynch with_votes].
        assert (al ≠ []) as Hne by (intros ->; by apply elem_of_nil in Hpin).
        specialize (Hbound Hne). destruct (is_no_lynch pl); lia.
      * intros t [= <-]. exists (c + 1)%Z. split; [done|].
        rewrite Hlen1. lia.
      * unfold lynch_voted. cbn [game alive with_votes lists].
        by destruct Hbase as (_ & ? & _).
    + intros _. unfold answered. cbn [game objs]. split_and!; try done.
      unfold lynch_voted. cbn [objs]. rewrite list_lookup_insert_eq by done.
      simpl. by rewrite Hpal.
Qed.

(** In the game of three [a] has voted for [b]; [b] naming themself brings
    their entry to 2 of 3 and gets them lynched. *)
Lemma self_vote_witness :
  exists w',
    vote_to_lynch (demo_vote "b" "b") demo_three_b = (Ok tt, w') /\
    is_alive <$> objs w' !! 1 = Some false.
Proof.
  destruct (self_vote demo_three_b [0; 1; 2] (demo_vote "b" "b") 1
              (mkPlayer (demo_user "b") (Some TownRole) true None false) [])
    as (c & text & w' & Hc & _ & _ & _ & E & Hdead & _).
  - exact demo_three_b_settled.
  - vm_compute. reflexivity.
  - vm_compute. reflexivity.
  - reflexivity.
  - reflexivity.
  - exists w'. split; [exact E|]. apply Hdead.
    vm_compute in Hc. injection Hc as <-. vm_compute. discriminate.
Defined.

(** ** Worked games *)

(** A timeout argument that is not a number gives a join window of 0. *)
Example unparsed_timeout_is_zero : timeout (game demo_five) = 0%Z.
Proof. vm_compute. reflexivity. Qed.

(** With five alive players two votes on [c] change nothing. *)
Example two_votes_of_five :
  outcome ((vote_to_lynch (demo_vote "a" "c");;
            vote_to_lynch (demo_vote "b" "c")) demo_five)
  = (Ok tt, Day, Some [0; 1; 2; 3; 4], [true; true; true; true; true]).
Proof. vm_compute. reflexivity. Qed.

(** The third vote on [c] lynches [c] and ends the day. *)
Example three_votes_of_five :
  outcome ((vote_to_lynch (demo_vote "a" "c");;
            vote_to_lynch (demo_vote "b" "c");;
            vote_to_lynch (demo_vote "d" "c")) demo_five)
  = (Ok tt, Night, Some [0; 1; 3; 4], [true; true; false; true; true]).
Proof. vm_compute. reflexivity. Qed.

(** Three no-lynch votes of five end the day and nobody is eliminated; a
    repeated no-lynch vote does not count twice. *)
Example three_no_lynch_of_five :
  outcome ((vote_no_lynch (demo_vote "a" "");;
            vote_no_lynch (demo_vote "a" "");;
            vote_no_lynch (demo_vote "b" "")) demo_five)
  = (Ok tt, Day, Some [0; 1; 2; 3; 4], [true; true; true; true; true]) /\
  outcome ((vote_no_lynch (demo_vote "a" "");;
            vote_no_lynch (demo_vote "b" "");;
            vote_no_lynch (demo_vote "c" "")) demo_five)
  = (Ok tt, Night, Some [0; 1; 2; 3; 4], [true; true; true; true; true]).
Proof. split; vm_compute; reflexivity. Qed.

(** A vote before any game was started trips the assertion. *)
Example vote_without_game :
  (vote_to_lynch (demo_vote "a" "b") new_MafiaGame).1 = Raise AssertionError.
Proof. reflexivity. Qed.

(** A second start on the same object is turned away. *)
Example second_start_is_refused :
  start_new_game first_k cpython [] demo_start demo_day1
  = (Ok tt, answered demo_day1 "There is a game already ongoing!").
Proof. vm_compute. reflexivity. Qed.

(** A lynched player is off the roster when [progress_day] walks it, so a
    vote they had cast stays on their record: in the game of four, [b] votes
    for [a] and is then lynched by [a], [c] and [d]. *)
Example lynched_player_keeps_vote :
  let r := (vote_to_lynch (demo_vote "b" "a");;
            vote_to_lynch (demo_vote "a" "b");;
            vote_to_lynch (demo_vote "c" "b");;
            vote_to_lynch (demo_vote "d" "b")) demo_day1 in
  r.1 = Ok tt /\
  day_phase (game r.2) = Night /\
  lists r.2 !! players (game r.2) = Some [0; 2; 3] /\
  user_to_player (game r.2) !! "b" = Some 1 /\
  objs r.2 !! 1
  = Some (mkPlayer (demo_user "b") (Some TownRole) false (Some 0) false).
Proof. split_and!; vm_compute; reflexivity. Qed.

(** * Further properties of the game *)

(** ** Outside a running game *)

(** X1. After [end_game] the game still counts as ongoing: the next
    [start_new_game] on the same object is turned away with one message, sent
    to the channel [end_game] has just cleared, and starts nothing. *)
Theorem end_game_blocks_restart (R : Chance) (I : Interp)
  (joiners : list User) (m : Message) (w : World) :
  exists w1,
    end_game w = (Ok tt, w1) /\
    is_ongoing (game w1) = true /\
    gen_channel (game w1) = None /\
    start_new_game R I joiners m w1
    = (Ok tt, mkWorld (game w1) (objs w1) (lists w1)
                (trace w1 ++ [Send (ToChannel None)
                                "There is a game already ongoing!"])).
Proof.
  destruct w as [g o ls tr]. eexists. split; [reflexivity|].
  split; [reflexivity|]. split; [reflexivity|].
  unfold start_new_game. prim. reflexivity.
Qed.

(** X2. Both vote handlers assert that a game is ongoing: on a game that is
    not, they raise [AssertionError] before reading or changing anything. *)
Theorem votes_need_ongoing_game (w : World) (m : Message) :
  is_ongoing (game w) = false ->
  vote_to_lynch m w = (Raise AssertionError, w) /\
  vote_no_lynch m w = (Raise AssertionError, w).
Proof.
  destruct w as [g o ls tr]. cbn [game]. intros Hoff.
  unfold vote_to_lynch, vote_no_lynch. split; prim; by rewrite Hoff.
Qed.

Lemma votes_need_ongoing_game_witness :
  vote_to_lynch (demo_vote "a" "b") new_MafiaGame
  = (Raise AssertionError, new_MafiaGame).
Proof.
  apply (votes_need_ongoing_game new_MafiaGame (demo_vote "a" "b")).
  reflexivity.
Defined.

(** ** [kill_player] *)

Lemma kill_player_absent g o ls tr al t :
  ls !! alive g = Some al -> t ∉ al ->
  kill_player t (mkWorld g o ls tr) = (Raise ValueError, mkWorld g o ls tr).
Proof.
  intros Hal Hnot. unfold kill_player. unmonad. rewrite Hal.
  by rewrite decide_False.
Qed.

(** X3. [kill_player] works once: on an alive list without repeats the first
    call takes the player off the list and marks them dead, a second call
    raises [ValueError] from [list.remove] and changes nothing. *)
Theorem kill_player_twice (w : World) (al : list PlayerRef) (t : PlayerRef)
  (pl : Player) :
  lists w !! alive (game w) = Some al -> NoDup al -> t ∈ al ->
  objs w !! t = Some pl ->
  kill_player t w = (Ok tt, killed w t pl al) /\
  kill_player t (killed w t pl al) = (Raise ValueError, killed w t pl al).
Proof.
  destruct w as [g o ls tr]. cbn [game objs lists]. intros Hal Hnd Hin Hpl.
  split; [by apply kill_player_eq|].
  unfold killed. cbn [game objs lists trace].
  apply (kill_player_absent _ _ _ _ (remove_first t al)).
  - apply list_lookup_insert_eq. by eapply lookup_lt_Some.
  - by apply remove_first_gone.
Qed.

Lemma kill_player_twice_witness :
  (kill_player 1;; kill_player 1) demo_day1
  = (Raise ValueError,
     killed demo_day1 1
       (mkPlayer (demo_user "b") (Some TownRole) true None false) [0; 1; 2; 3]).
Proof.
  destruct (kill_player_twice demo_day1 [0; 1; 2; 3] 1
              (mkPlayer (demo_user "b") (Some TownRole) true None false))
    as [E1 E2].
  - vm_compute. reflexivity.
  - refine (bool_decide_unpack _ _). vm_compute. exact I.
  - refine (bool_decide_unpack _ _). vm_compute. exact I.
  - vm_compute. reflexivity.
  - unfold mbind, M_bind. rewrite E1. exact E2.
Defined.

(** ** [add_player] *)

(** X4. [add_player] never looks at who is already on the roster or at
    [is_accepting]: adding the users [us] in turn appends one new, alive,
    role-less [Player] per user, repeated users included, and touches neither
    the game object nor the players already there. *)
Theorem add_players_appends (w : World) (ps : list PlayerRef) (us : list User) :
  lists w !! players (game w) = Some ps ->
  exists w',
    for_each us add_player w = (Ok tt, w') /\
    game w' = game w /\ trace w' = trace w /\
    objs w' = objs w ++ (new_Player <$> us) /\
    lists w' !! players (game w')
    = Some (ps ++ seq (length (objs w)) (length us)) /\
    forall r, r ≠ players (game w) -> lists w' !! r = lists w !! r.
Proof.
  destruct w as [g o ls tr]. cbn [game objs lists trace]. intros Hps.
  eexists. split; [by apply add_players_eq|].
  cbn [game objs lists trace]. split_and!; try done.
  - apply list_lookup_insert_eq. by eapply lookup_lt_Some.
  - intros r Hr. by rewrite list_lookup_insert_ne.
Qed.

Lemma add_players_appends_witness :
  exists w',
    for_each [demo_user "a"; demo_user "a"] add_player demo_day1 = (Ok tt, w') /\
    lists w' !! players (game w') = Some [0; 1; 2; 3; 4; 5] /\
    is_accepting (game w') = false.
Proof.
  destruct (add_players_appends demo_day1 [0; 1; 2; 3]
              [demo_user "a"; demo_user "a"])
    as (w' & E & Hg & _ & _ & Hps & _).
  - vm_compute. reflexivity.
  - exists w'. split_and!; [exact E|exact Hps|].
    rewrite Hg. vm_compute. reflexivity.
Defined.

(** ** The moves keep the game consistent *)

Lemma day_passed_eq g o ls tr ps al :
  ls !! players g = Some ps -> ls !! alive g = Some al -> allocated o ps ->
  progress_day (mkWorld g o ls tr) = (Ok tt, day_passed (mkWorld g o ls tr) ps al).
Proof. apply progress_day_eq. Qed.

Lemma day_passed_fresh w ps al :
  roster_base (game w) (objs w) (lists w) al -> exclusive (objs w) ->
  lists w !! players (game w) = Some ps ->
  progress_day w = (Ok tt, day_passed w ps al) /\
  freshly_built (day_passed w ps al) al.
Proof.
  destruct w as [g o ls tr]. cbn [game objs lists]. intros Hbase Hex Hps.
  destruct (progress_day_fresh g o ls tr al Hbase Hex) as (w' & E & Hfresh).
  pose proof Hbase as (_ & Hal & _ & (ps0 & Hps0 & Hall & _) & _).
  rewrite Hps in Hps0. injection Hps0 as <-.
  rewrite (day_passed_eq g o ls tr ps al) in E by done.
  injection E as <-. split; [by apply day_passed_eq|done].
Qed.

Lemma killed_base w al t pl :
  consistent w al -> t ∈ al -> objs w !! t = Some pl ->
  roster_base (game w) (objs (killed w t pl al)) (lists (killed w t pl al))
    (remove_first t al) /\
  exclusive (objs (killed w t pl al)).
Proof.
  intros [[Hbase _] (_ & _ & Hex)] Hin Hpl. split.
  - by apply kill_keeps_base.
  - apply exclusive_insert; [done|]. apply (Hex t pl Hpl).
Qed.

Lemma step_settled w al w' al' :
  step w al w' al' -> consistent w' al'.
Proof.
  destruct 1 as [w al text Hc|w al m p pl q u Hc Hp Hpl Hq
                |w al p pl Hc Hp Hpl Hnl|w al ps Hc Hps|w al t pl ps Hc Ht Hpl Hps].
  - done.
  - destruct w. by apply lynch_voted_consistent.
  - destruct w. by apply no_lynch_voted_consistent.
  - apply fresh_consistent. apply day_passed_fresh; [|by apply Hc|done].
    by destruct Hc as [[? _] _].
  - destruct (killed_base w al t pl Hc Ht Hpl) as [Hbase Hex].
    apply fresh_consistent. by apply (day_passed_fresh (killed w t pl al)).
Qed.

Lemma reach_consistent w al w' al' :
  consistent w al -> reach w al w' al' -> consistent w' al'.
Proof.
  intros Hc. induction 1 as [|w1 al1 w2 al2 _ _ Hstep]; [done|].
  by eapply step_settled.
Qed.

Lemma reach_trans w al w1 al1 w2 al2 :
  reach w al w1 al1 -> reach w1 al1 w2 al2 -> reach w al w2 al2.
Proof.
  intros H1. induction 1 as [|wa ala wb alb _ IH Hstep]; [done|].
  by eapply reach_step.
Qed.

Lemma reach_one w al w' al' : step w al w' al' -> reach w al w' al'.
Proof. intros Hs. eapply reach_step; [apply reach_here|done]. Qed.

(** Majority evaluation is zero, one or two moves. *)
Lemma check_reach w al voted :
  consistent w al ->
  (forall t, voted = Some t -> t ∈ al) ->
  exists w' al',
    check_if_day_should_progress voted w = (Ok tt, w') /\
    settled w' al' /\ reach w al w' al'.
Proof.
  destruct w as [g o ls tr]. intros Hcons Hv.
  pose proof Hcons as [[Hbase [Hkeys Hvotes]] (Hsum & Hnl & Hex)].
  cbn [game objs lists trace] in *.
  pose proof Hbase as (Hon & Hal & Hnd & (ps & Hps & Hall & Hsub) & _).
  assert (Hstay : forall voted',
            (forall t, voted' = Some t ->
               exists c, dict_get t (vote_table g) = Some c /\
                         (c < floor_half (length (vote_table g)) + 1)%Z) ->
            exists w' al',
              check_if_day_should_progress voted' (mkWorld g o ls tr) = (Ok tt, w') /\
              settled w' al' /\ reach (mkWorld g o ls tr) al w' al').
  { intros voted' Hlow. rewrite (check_no_lynch g o ls tr voted' al) by done.
    destruct (bool_decide_reflect (ceil_half (length al) ≤ no_lynch g)%Z)
      as [Hge|Hlt].
    - set (w1 := answered (mkWorld g o ls tr) "The town has voted for no lynch!").
      destruct (day_passed_fresh w1 ps al) as [E Hfresh]; try done.
      exists (day_passed w1 ps al), al. split_and!.
      + exact E.
      + by apply fresh_settled.
      + eapply reach_step; [apply reach_one, step_say; exact Hcons|].
        by apply step_day.
    - exists (mkWorld g o ls tr), al. split_and!; [done| |apply reach_here].
      split; [done|]. intros _. cbn [game]. lia. }
  destruct voted as [t|]; [|apply Hstay; by intros ? [=]].
  assert (t ∈ al) as Hin by (by apply Hv).
  destruct (dict_get_key_Some t (vote_table g)) as [c Hc]; [by rewrite Hkeys|].
  destruct (decide (floor_half (length (vote_table g)) + 1 ≤ c)%Z) as [Hge|Hlt].
  - assert (t < length o) as Hlen by (by eapply base_allocated).
    destruct (lookup_lt_is_Some_2 o t Hlen) as [pl Hpl].
    set (w1 := answered (mkWorld g o ls tr) (lynch_text g pl)).
    assert (consistent w1 al) as Hcons1 by exact Hcons.
    destruct (killed_base w1 al t pl Hcons1 Hin Hpl) as [Hbase2 Hex2].
    pose proof Hbase2 as (_ & _ & _ & (ps' & Hps' & _) & _).
    destruct (day_passed_fresh (killed w1 t pl al) ps' (remove_first t al))
      as [E Hfresh]; try done.
    exists (day_passed (killed w1 t pl al) ps' (remove_first t al)),
      (remove_first t al).
    split_and!.
    + rewrite (check_lynch g o ls tr t c pl) by done.
      erewrite bind_Ok; [|by apply kill_player_eq]. exact E.
    + by apply fresh_settled.
    + eapply reach_step; [apply reach_one, step_say; exact Hcons|].
      by apply step_lynch.
  - apply Hstay. intros ? [= <-]. exists c. split; [done|lia].
Qed.

(** A lynch vote is turned away with a message, or entered and followed by
    the broadcast and majority evaluation. *)
Lemma vote_to_lynch_cases w al m :
  settled w al ->
  (exists text, vote_to_lynch m w = (Ok tt, answered w text)) \/
  (exists p pl q u text,
     p ∈ al /\ objs w !! p = Some pl /\ q ∈ al /\
     user_to_player (game w) !! uid (author m) = Some p /\
     (exists rest, mentions m = u :: rest) /\
     user_to_player (game w) !! uid u = Some q /\
     consistent (lynch_voted w m p pl q u) al /\
     vote_to_lynch m w
     = check_if_day_should_progress (Some q)
         (answered (lynch_voted w m p pl q u) text)).
Proof.
  destruct w as [g o ls tr]. intros Hset.
  pose proof Hset as [[[Hbase _] _] _]. cbn [game objs lists trace] in *.
  pose proof Hbase as (Hon & _ & _ & _ & Halive & Hu).
  destruct (user_to_player g !! uid (author m)) as [p|] eqn:Hp.
  2:{ left. exists not_in_game_text. unfold vote_to_lynch. prim.
      by rewrite Hon, Hp. }
  destruct (lookup_lt_is_Some_2 o p (Hu _ _ Hp)) as [pl Hpl].
  destruct (is_alive pl) eqn:Hpal.
  2:{ left. exists (dead_text pl). unfold vote_to_lynch. prim.
      rewrite Hon, Hp. cbn [negb].
      erewrite bind_Ok; [|by apply get_player_eq]. cbv beta. by rewrite Hpal. }
  destruct (mentions m) as [|u rest] eqn:Hm.
  { left. exists "You have to vote for someone! (Or no-lynch!)".
    unfold vote_to_lynch. prim. rewrite Hon, Hp. cbn [negb].
    erewrite bind_Ok; [|by apply get_player_eq]. cbv beta. by rewrite Hpal, Hm. }
  destruct (user_to_player g !! uid u) as [q|] eqn:Hq.
  2:{ left. exists "That player is not in the game.".
      unfold vote_to_lynch. prim. rewrite Hon, Hp. cbn [negb].
      erewrite bind_Ok; [|by apply get_player_eq]. cbv beta.
      by rewrite Hpal, Hm, Hq. }
  destruct (lookup_lt_is_Some_2 o q (Hu _ _ Hq)) as [ql Hql].
  destruct (is_alive ql) eqn:Hqal.
  2:{ left. exists "You have to vote for someone alive!".
      unfold vote_to_lynch. prim. rewrite Hon, Hp. cbn [negb].
      erewrite bind_Ok; [|by apply get_player_eq]. cbv beta.
      rewrite Hpal, Hm, Hq. cbn [negb].
      erewrite bind_Ok; [|by apply get_player_eq]. cbv beta. by rewrite Hqal. }
  right.
  destruct (vote_to_lynch_voted g o ls tr al m p pl u rest q ql)
    as (Hpin & Hqin & Hcons1 & text & E); try done.
  exists p, pl, q, u, text. split_and!; try done. by exists rest.
Qed.

(** The same for a no-lynch vote; a repeated one is dropped silently. *)
Lemma vote_no_lynch_cases w al m :
  settled w al ->
  vote_no_lynch m w = (Ok tt, w) \/
  (exists text, vote_no_lynch m w = (Ok tt, answered w text)) \/
  (exists p pl text,
     p ∈ al /\ objs w !! p = Some pl /\ is_no_lynch pl = false /\
     user_to_player (game w) !! uid (author m) = Some p /\
     consistent (no_lynch_voted w p pl) al /\
     vote_no_lynch m w
     = check_if_day_should_progress None
         (answered (no_lynch_voted w p pl) text)).
Proof.
  destruct w as [g o ls tr]. intros Hset.
  pose proof Hset as [Hcons _].
  pose proof Hcons as [[Hbase [Hkeys Hvotes]] _].
  cbn [game objs lists trace] in *.
  pose proof Hbase as (Hon & _ & _ & _ & Halive & Hu).
  destruct (user_to_player g !! uid (author m)) as [p|] eqn:Hp.
  2:{ right. left. by apply vote_no_lynch_rejected; [|left]. }
  destruct (lookup_lt_is_Some_2 o p (Hu _ _ Hp)) as [pl Hpl].
  destruct (is_alive pl) eqn:Hpal.
  2:{ right. left. apply vote_no_lynch_rejected; [done|].
      right. by exists p, pl. }
  assert (p ∈ al) as Hpin by (apply Halive; eauto).
  destruct (is_no_lynch pl) eqn:Hnl.
  { left. by apply (vote_no_lynch_idle g o ls tr m p pl). }
  right. right.
  pose proof (no_lynch_voted_consistent g o ls tr al p pl Hcons Hpin Hpl Hnl)
    as Hcons1.
  destruct (print_votes_ok
              (game (no_lynch_voted (mkWorld g o ls tr) p pl))
              (objs (no_lynch_voted (mkWorld g o ls tr) p pl)) ls
              (trace (no_lynch_voted (mkWorld g o ls tr) p pl)))
    as [text Eprint].
  { destruct Hcons1 as [[Hbase1 [Hkeys1 _]] _]. rewrite Hkeys1.
    by eapply base_allocated_all. }
  exists p, pl, text. split_and!; try done.
  rewrite (vote_no_lynch_accepted g o ls tr m p pl); try done.
  - by erewrite bind_Ok.
  - intros old Hold. apply dict_get_key_Some. rewrite Hkeys.
    exact (Hvotes p pl old Hpin Hpl Hold).
Qed.

Lemma vote_to_lynch_reach w al m :
  settled w al ->
  exists w' al',
    vote_to_lynch m w = (Ok tt, w') /\ settled w' al' /\ reach w al w' al'.
Proof.
  intros Hset. pose proof Hset as [Hcons _].
  destruct (vote_to_lynch_cases w al m Hset)
    as [[text E]|(p & pl & q & u & text & Hp & Hpl & Hq & _ & _ & _ & Hc1 & E)].
  - exists (answered w text), al. split_and!; [done| |by apply reach_one, step_say].
    by destruct w.
  - destruct (check_reach (answered (lynch_voted w m p pl q u) text) al (Some q))
      as (w' & al' & Echeck & Hset' & Hreach); [done|by intros ? [= <-]|].
    exists w', al'. split_and!; [by rewrite E|done|].
    eapply reach_trans; [|exact Hreach].
    apply (reach_step _ _ (lynch_voted w m p pl q u) al).
    + apply reach_one. by apply step_lynch_vote.
    + by apply step_say.
Qed.

Lemma vote_no_lynch_reach w al m :
  settled w al ->
  exists w' al',
    vote_no_lynch m w = (Ok tt, w') /\ settled w' al' /\ reach w al w' al'.
Proof.
  intros Hset. pose proof Hset as [Hcons _].
  destruct (vote_no_lynch_cases w al m Hset)
    as [E|[[text E]|(p & pl & text & Hp & Hpl & Hnl & _ & Hc1 & E)]].
  - exists w, al. split_and!; [done..|apply reach_here].
  - exists (answered w text), al. split_and!; [done| |by apply reach_one, step_say].
    by destruct w.
  - destruct (check_reach (answered (no_lynch_voted w p pl) text) al None)
      as (w' & al' & Echeck & Hset' & Hreach); [done|by intros ? [=]|].
    exists w', al'. split_and!; [by rewrite E|done|].
    eapply reach_trans; [|exact Hreach].
    apply (reach_step _ _ (no_lynch_voted w p pl) al).
    + apply reach_one. by apply step_no_lynch_vote.
    + by apply step_say.
Qed.

Lemma run_votes_reach vs : forall w al,
  settled w al ->
  exists w' al',
    run_votes vs w = (Ok tt, w') /\ settled w' al' /\ reach w al w' al'.
Proof.
  unfold run_votes. induction vs as [|v vs IH]; intros w al Hset; simpl.
  - exists w, al. split_and!; [done..|apply reach_here].
  - assert (exists w1 al1, cast v w = (Ok tt, w1) /\ settled w1 al1 /\
                           reach w al w1 al1)
      as (w1 & al1 & E1 & Hset1 & Hr1).
    { destruct v as [m|m]; simpl.
      - by apply vote_to_lynch_reach.
      - by apply vote_no_lynch_reach. }
    destruct (IH w1 al1 Hset1) as (w' & al' & E & Hset' & Hr).
    exists w', al'. split_and!; [by erewrite bind_Ok|done|].
    by eapply reach_trans.
Qed.

(** ** What the moves never undo *)

Lemma reset_votes_keeps {B} (f : Player -> B) ps o p :
  (forall pl, f (reset_player pl) = f pl) ->
  f <$> reset_votes ps o !! p = f <$> o !! p.
Proof.
  intros Hf. rewrite reset_votes_lookup.
  destruct (o !! p) as [pl|]; [|done]. destruct (decide (p ∈ ps)); simpl; [|done].
  by rewrite Hf.
Qed.

Lemma insert_keeps {B} (f : Player -> B) (o : list Player) p pl pl' q :
  o !! p = Some pl -> f pl' = f pl ->
  f <$> <[p := pl']> o !! q = f <$> o !! q.
Proof.
  intros Hpl Hf. destruct (decide (q = p)) as [->|Hne].
  - rewrite list_lookup_insert_eq by (by eapply lookup_lt_Some).
    rewrite Hpl. simpl. by rewrite Hf.
  - by rewrite list_lookup_insert_ne.
Qed.

Lemma settings_next_day nl vt g :
  settings (with_votes nl vt (next_day g)) = settings g.
Proof. unfold next_day. by destruct (day_phase g). Qed.

Lemma day_num_next_day nl vt g :
  (day_num g ≤ day_num (with_votes nl vt (next_day g)))%Z.
Proof. unfold next_day. destruct (day_phase g); simpl; lia. Qed.

Lemma settings_fields g g' :
  settings g = settings g' ->
  players g = players g' /\ townies g = townies g' /\ mafia g = mafia g' /\
  alive g = alive g' /\ user_to_player g = user_to_player g' /\
  gen_channel g = gen_channel g' /\ is_ongoing g = is_ongoing g'.
Proof. unfold settings. intros [=]. by split_and!. Qed.

Lemma advanced_refl w : advanced w w.
Proof. split_and!; done. Qed.

Lemma advanced_trans w1 w2 w3 :
  advanced w1 w2 -> advanced w2 w3 -> advanced w1 w3.
Proof.
  intros (Hl1 & Hu1 & Hr1 & Ha1 & Hs1 & Hls1 & Hd1 & Ht1)
         (Hl2 & Hu2 & Hr2 & Ha2 & Hs2 & Hls2 & Hd2 & Ht2).
  assert (alive (game w2) = alive (game w1)) as Hal.
  { unfold settings in Hs1. by simplify_eq. }
  split_and!.
  - by rewrite Hl2.
  - intros p. by rewrite Hu2.
  - intros p. by rewrite Hr2.
  - intros p Hp. by apply Ha1, Ha2.
  - by rewrite Hs2.
  - intros r Hr. rewrite Hls2 by (by rewrite Hal). by apply Hls1.
  - lia.
  - by etrans.
Qed.

Lemma step_advanced w al w' al' : step w al w' al' -> advanced w w'.
Proof.
  destruct 1 as [w al text Hc|w al m p pl q u Hc Hp Hpl Hq
                |w al p pl Hc Hp Hpl Hnl|w al ps Hc Hps|w al t pl ps Hc Ht Hpl Hps];
    destruct w as [g o ls tr]; cbn [game objs lists trace] in *;
    unfold answered, lynch_voted, no_lynch_voted, day_passed, killed;
    unfold advanced; cbn [game objs lists trace];
    (split_and!;
     [ rewrite ?reset_votes_length, ?length_insert; done
     | intros p'; rewrite ?reset_votes_keeps by done;
       try (by apply (insert_keeps user _ _ pl)); done
     | intros p'; rewrite ?reset_votes_keeps by done;
       try (by apply (insert_keeps role _ _ pl)); done
     | intros p'; rewrite ?reset_votes_alive
     | try apply settings_next_day; done
     | intros r Hr; rewrite ?list_lookup_insert_ne by done; done
     | try apply day_num_next_day; simpl; lia
     | by apply prefix_app_r ]).
  - done.
  - by rewrite (insert_keeps is_alive _ _ pl).
  - by rewrite (insert_keeps is_alive _ _ pl).
  - done.
  - destruct (decide (p' = t)) as [->|Hne].
    + rewrite list_lookup_insert_eq by (by eapply lookup_lt_Some). done.
    + by rewrite list_lookup_insert_ne.
Qed.

Lemma remove_first_sublist t l : remove_first t l `sublist_of` l.
Proof.
  induction l as [|y l IH]; simpl; [done|].
  destruct (decide (t = y)).
  - by apply sublist_cons.
  - by apply sublist_skip.
Qed.

Lemma step_sublist w al w' al' : step w al w' al' -> al' `sublist_of` al.
Proof. destruct 1; try done. apply remove_first_sublist. Qed.

Lemma reach_advanced w al w' al' :
  reach w al w' al' -> advanced w w' /\ al' `sublist_of` al.
Proof.
  induction 1 as [|w1 al1 w2 al2 _ [IHa IHs] Hstep].
  - split; [apply advanced_refl|done].
  - split.
    + eapply advanced_trans; [exact IHa|by eapply step_advanced].
    + etrans; [by eapply step_sublist|done].
Qed.

(** ** The entries of the table are the votes *)

Lemma dict_get_add t k delta (d : list (PlayerRef * Z)) c :
  dict_get t d = Some c ->
  dict_get t (dict_add k delta d)
  = Some (c + (if decide (t = k) then delta else 0))%Z.
Proof.
  intros Hc. destruct (decide (t = k)) as [->|Hne].
  - by apply dict_get_add_eq.
  - rewrite dict_get_add_ne by done. rewrite Hc. f_equal. lia.
Qed.

Lemma dict_get_lookup {K V} `{EqDecision K} (k : K) (v : V) d :
  dict_get k d = Some v -> (k, v) ∈ d.
Proof.
  induction d as [|[k2 v2] d IH]; simpl; [done|].
  destruct (decide (k = k2)) as [->|Hne].
  - intros [= ->]. apply elem_of_cons. by left.
  - intros E. apply elem_of_cons. right. by apply IH.
Qed.

Lemma dict_get_fresh_table al t :
  t ∈ al -> dict_get t (fresh_table al) = Some 0%Z.
Proof.
  intros Hin.
  destruct (dict_get_key_Some t (fresh_table al)) as [c Hc];
    [by apply fresh_table_keys|].
  pose proof (dict_get_lookup _ _ _ Hc) as Hmem.
  pose proof (fresh_table_zero al) as Hz.
  rewrite Forall_forall in Hz. specialize (Hz _ Hmem). simpl in Hz.
  by rewrite Hc, Hz.
Qed.

Lemma voting_for_insert_ne o p pl t q :
  q ≠ p -> voting_for (<[p := pl]> o) t q = voting_for o t q.
Proof. intros Hne. unfold voting_for. by rewrite list_lookup_insert_ne. Qed.

Lemma voting_for_insert_eq o p pl t :
  p < length o ->
  voting_for (<[p := pl]> o) t p = bool_decide (votes_for pl = Some t).
Proof.
  intros Hlt. unfold voting_for. rewrite list_lookup_insert_eq by done.
  simpl. apply bool_decide_ext. split; [by intros [=]|by intros ->].
Qed.

Lemma voting_for_lookup o p pl t :
  o !! p = Some pl -> voting_for o t p = bool_decide (votes_for pl = Some t).
Proof.
  intros Hpl. unfold voting_for. rewrite Hpl. simpl.
  apply bool_decide_ext. split; [by intros [=]|by intros ->].
Qed.

Lemma fresh_exact w al : freshly_built w al -> exact_tally w al.
Proof.
  intros ([Hbase _] & Hvt & _ & Hclear & _) t Ht.
  rewrite Hvt, dict_get_fresh_table by done. f_equal. symmetry.
  apply count_none. intros p Hp. unfold voting_for.
  destruct (objs w !! p) as [pl|] eqn:E.
  - destruct (Hclear p pl Hp E) as [Hnone _]. simpl. rewrite Hnone.
    by apply bool_decide_eq_false.
  - by apply bool_decide_eq_false.
Qed.

Lemma step_exact w al w' al' :
  step w al w' al' -> exact_tally w al -> exact_tally w' al'.
Proof.
  destruct 1 as [w al text Hc|w al m p pl q u Hc Hp Hpl Hq
                |w al p pl Hc Hp Hpl Hnl|w al ps Hc Hps|w al t pl ps Hc Ht Hpl Hps];
    intros Hex.
  - done.
  - pose proof Hc as [[Hbase [Hkeys Hvotes]] _].
    pose proof Hbase as (_ & _ & Hnd & _).
    assert (Hlt : p < length (objs w)) by (by eapply lookup_lt_Some).
    intros t Ht. unfold lynch_voted. cbn [game objs vote_table with_votes].
    rewrite (count_update (voting_for (objs w) t) _ al p Hnd Hp)
      by (intros; by apply voting_for_insert_ne).
    rewrite voting_for_insert_eq by done.
    rewrite (voting_for_lookup _ _ pl) by done.
    cbn [votes_for set_votes_for].
    destruct (votes_for pl) as [old|] eqn:Hv; cbn [retract].
    + rewrite (dict_get_add t q 1 _ (count (voting_for (objs w) t) al + (if decide (t = old) then -1 else 0))%Z).
      * f_equal. repeat case_bool_decide; repeat case_decide; simplify_eq; lia.
      * by apply dict_get_add, Hex.
    + rewrite (dict_get_add t q 1 _ (count (voting_for (objs w) t) al)) by (by apply Hex).
      f_equal. repeat case_bool_decide; repeat case_decide; simplify_eq; lia.
  - pose proof Hc as [[Hbase [Hkeys Hvotes]] _].
    pose proof Hbase as (_ & _ & Hnd & _).
    assert (Hlt : p < length (objs w)) by (by eapply lookup_lt_Some).
    intros t Ht. unfold no_lynch_voted. cbn [game objs vote_table with_votes].
    rewrite (count_update (voting_for (objs w) t) _ al p Hnd Hp)
      by (intros; by apply voting_for_insert_ne).
    rewrite voting_for_insert_eq by done.
    rewrite (voting_for_lookup _ _ pl) by done.
    cbn [votes_for set_votes_for set_is_no_lynch].
    destruct (votes_for pl) as [old|] eqn:Hv; cbn [retract].
    + rewrite (dict_get_add t old (-1) _ (count (voting_for (objs w) t) al)) by (by apply Hex).
      f_equal. repeat case_bool_decide; repeat case_decide; simplify_eq; lia.
    + rewrite Hex by done.
      f_equal. repeat case_bool_decide; simplify_eq; lia.
  - apply fresh_exact. apply day_passed_fresh; [|by apply Hc|done].
    by destruct Hc as [[? _] _].
  - destruct (killed_base w al t pl Hc Ht Hpl) as [Hbase Hexcl].
    apply fresh_exact. by apply (day_passed_fresh (killed w t pl al)).
Qed.

Lemma reach_exact w al w' al' :
  reach w al w' al' -> exact_tally w al -> exact_tally w' al'.
Proof.
  induction 1 as [|w1 al1 w2 al2 _ IH Hstep]; [done|].
  intros Hex. eapply step_exact; [done|]. by apply IH.
Qed.

(** ** Across any sequence of votes *)

(** X5. Voting never brings a player back: after any sequence of lynch and
    no-lynch votes every player who was dead is still dead, and the alive
    list is what is left of the old one after taking players out. *)
Theorem voting_never_revives (w : World) (al : list PlayerRef)
  (vs : list Vote) :
  settled w al ->
  exists w' al',
    run_votes vs w = (Ok tt, w') /\
    lists w' !! alive (game w') = Some al' /\
    al' `sublist_of` al /\
    (forall p, is_alive <$> objs w !! p = Some false ->
               is_alive <$> objs w' !! p = Some false).
Proof.
  intros Hset.
  destruct (run_votes_reach vs w al Hset) as (w' & al' & E & Hset' & Hreach).
  destruct (reach_advanced _ _ _ _ Hreach)
    as [(Hlen & _ & _ & Halive & _) Hsub].
  exists w', al'. split_and!; try done.
  - by destruct Hset' as [[[(_ & ? & _) _] _] _].
  - intros p Hp.
    assert (p < length (objs w')) as Hlt.
    { rewrite Hlen. apply lookup_lt_is_Some.
      destruct (objs w !! p); [eauto|done]. }
    destruct (lookup_lt_is_Some_2 _ _ Hlt) as [pl' Hpl'].
    rewrite Hpl'. simpl. destruct (is_alive pl') eqn:Hb; [|done].
    specialize (Halive p). rewrite Hpl' in Halive. simpl in Halive.
    rewrite Hb in Halive. rewrite Halive in Hp by done. done.
Qed.

Lemma settled_after_votes w al vs al' :
  settled w al ->
  lists (run_votes vs w).2 !! alive (game (run_votes vs w).2) = Some al' ->
  settled (run_votes vs w).2 al'.
Proof.
  intros Hset Hal'.
  destruct (run_votes_settled vs w al Hset) as (w' & al1 & E & Hset').
  rewrite E in *. cbn [snd] in *.
  pose proof Hset' as [[[(_ & Hal1 & _) _] _] _].
  rewrite Hal1 in Hal'. injection Hal' as <-. done.
Qed.

Lemma demo_night1_settled : settled demo_night1 [0; 2; 3].
Proof.
  assert (demo_night1
          = (run_votes [Lynch (demo_vote "a" "b"); Lynch (demo_vote "c" "b");
                        Lynch (demo_vote "d" "b")] demo_day1).2) as ->.
  { vm_compute. reflexivity. }
  apply (settled_after_votes demo_day1 [0; 1; 2; 3]).
  - apply fresh_settled, demo_day1_fresh.
  - vm_compute. reflexivity.
Qed.

Lemma voting_never_revives_witness :
  exists w',
    run_votes [Lynch (demo_vote "a" "b"); NoLynch (demo_vote "b" "")]
      demo_night1 = (Ok tt, w') /\
    is_alive <$> objs w' !! 1 = Some false.
Proof.
  destruct (voting_never_revives demo_night1 [0; 2; 3]
              [Lynch (demo_vote "a" "b"); NoLynch (demo_vote "b" "")])
    as (w' & al' & E & _ & _ & Hdead).
  - exact demo_night1_settled.
  - exists w'. split; [exact E|]. apply Hdead. vm_compute. reflexivity.
Defined.

(** X6. Voting leaves the settings of the game alone: after any sequence of
    votes the timeout, the flags, the list objects, the roles, the user
    lookup and the channel are the ones from before; every player has the
    user and the role from before; only the alive list object may have
    changed; the day number is not lower; and what was sent before is the
    beginning of what has been sent now. *)
Theorem voting_keeps_settings (w : World) (al : list PlayerRef)
  (vs : list Vote) :
  settled w al ->
  exists w',
    run_votes vs w = (Ok tt, w') /\
    settings (game w') = settings (game w) /\
    length (objs w') = length (objs w) /\
    (forall p, user <$> objs w' !! p = user <$> objs w !! p) /\
    (forall p, role <$> objs w' !! p = role <$> objs w !! p) /\
    (forall r, r ≠ alive (game w) -> lists w' !! r = lists w !! r) /\
    (day_num (game w) ≤ day_num (game w'))%Z /\
    trace w `prefix_of` trace w'.
Proof.
  intros Hset.
  destruct (run_votes_reach vs w al Hset) as (w' & al' & E & _ & Hreach).
  destruct (reach_advanced _ _ _ _ Hreach)
    as [(Hlen & Hu & Hr & _ & Hs & Hls & Hd & Ht) _].
  exists w'. split_and!; done.
Qed.

Lemma voting_keeps_settings_witness :
  exists w',
    run_votes [Lynch (demo_vote "a" "b"); Lynch (demo_vote "c" "b");
               Lynch (demo_vote "d" "b")] demo_day1 = (Ok tt, w') /\
    lists w' !! townies (game w') = Some [1; 2; 3] /\
    role <$> objs w' !! 1 = Some (Some TownRole).
Proof.
  destruct (voting_keeps_settings demo_day1 [0; 1; 2; 3]
              [Lynch (demo_vote "a" "b"); Lynch (demo_vote "c" "b");
               Lynch (demo_vote "d" "b")])
    as (w' & E & Hs & _ & _ & Hr & Hls & _).
  - apply fresh_settled, demo_day1_fresh.
  - exists w'. split_and!; [exact E| |].
    + destruct (settings_fields _ _ Hs) as (_ & -> & _).
      rewrite Hls; vm_compute; [reflexivity|discriminate].
    + rewrite Hr. vm_compute. reflexivity.
Defined.

(** ** The entries of the table *)

Lemma count_bounds f l : (0 ≤ count f l ≤ Z.of_nat (length l))%Z.
Proof.
  induction l as [|p l IH]; simpl; [lia|]. destruct (f p); lia.
Qed.

Lemma count_sum_le (f1 f2 f3 : PlayerRef -> bool) (l : list PlayerRef) :
  (forall p, p ∈ l ->
     ((if f1 p then 1 else 0) + (if f2 p then 1 else 0)
      ≤ (if f3 p then 1 else 0))%Z) ->
  (count f1 l + count f2 l ≤ count f3 l)%Z.
Proof.
  induction l as [|p l IH]; intros Hle; simpl; [lia|].
  assert (p ∈ p :: l) as Hp by (apply elem_of_cons; by left).
  pose proof (Hle p Hp).
  assert (count f1 l + count f2 l ≤ count f3 l)%Z.
  { apply IH. intros q Hq. apply Hle, elem_of_cons. by right. }
  lia.
Qed.

Lemma count_all l : count (fun _ => true) l = Z.of_nat (length l).
Proof. induction l as [|p l IH]; simpl; lia. Qed.

Lemma half_sum n : (floor_half n + ceil_half n = Z.of_nat n)%Z.
Proof.
  unfold floor_half, ceil_half.
  pose proof (Z.div_mod (Z.of_nat n) 2 ltac:(lia)).
  pose proof (Z.mod_pos_bound (Z.of_nat n) 2 ltac:(lia)).
  pose proof (Z.div_mod (- Z.of_nat n) 2 ltac:(lia)).
  pose proof (Z.mod_pos_bound (- Z.of_nat n) 2 ltac:(lia)).
  lia.
Qed.

Lemma floor_half_double n : (Z.of_nat n < 2 * (floor_half n + 1))%Z.
Proof.
  unfold floor_half.
  pose proof (Z.div_mod (Z.of_nat n) 2 ltac:(lia)).
  pose proof (Z.mod_pos_bound (Z.of_nat n) 2 ltac:(lia)).
  lia.
Qed.

(** X7. Every entry of the vote table is exactly the number of alive players
    whose [votes_for] is that entry's player, after any sequence of votes on a
    freshly built table; so no entry is negative or exceeds the number of
    alive players. *)
Theorem tally_entries_are_votes (w : World) (al : list PlayerRef)
  (vs : list Vote) :
  freshly_built w al ->
  exists w' al',
    run_votes vs w = (Ok tt, w') /\
    lists w' !! alive (game w') = Some al' /\
    dict_keys (vote_table (game w')) = al' /\
    forall t, t ∈ al' ->
      dict_get t (vote_table (game w'))
      = Some (count (voting_for (objs w') t) al') /\
      (0 ≤ count (voting_for (objs w') t) al' ≤ Z.of_nat (length al'))%Z.
Proof.
  intros Hfresh.
  destruct (run_votes_reach vs w al (fresh_settled _ _ Hfresh))
    as (w' & al' & E & Hset' & Hreach).
  pose proof (reach_exact _ _ _ _ Hreach (fresh_exact _ _ Hfresh)) as Hex.
  pose proof Hset' as [[[(_ & Hal & _) [Hkeys _]] _] _].
  exists w', al'. split_and!; try done.
  intros t Ht. split; [by apply Hex|apply count_bounds].
Qed.

Lemma tally_entries_are_votes_witness :
  exists w' al',
    run_votes [Lynch (demo_vote "a" "b"); Lynch (demo_vote "c" "b");
               Lynch (demo_vote "a" "c")] demo_day1 = (Ok tt, w') /\
    lists w' !! alive (game w') = Some al' /\
    dict_keys (vote_table (game w')) = al'.
Proof.
  destruct (tally_entries_are_votes demo_day1 [0; 1; 2; 3]
              [Lynch (demo_vote "a" "b"); Lynch (demo_vote "c" "b");
               Lynch (demo_vote "a" "c")] demo_day1_fresh)
    as (w' & al' & E & Hal & Hkeys & _).
  exists w', al'. split_and!; [exact E|exact Hal|exact Hkeys].
Defined.

(** X8. At most one thing can have a majority.  In every state a freshly
    built game reaches through the moves of the handlers, when some player's
    entry is at least [floor(n/2) + 1] the no-lynch counter is below
    [ceil(n/2)] and every other player's entry is below [floor(n/2) + 1]:
    the order in which [check_if_day_should_progress] looks at its two rules
    never decides between two standing majorities. *)
Theorem majority_is_unambiguous (w0 w : World) (al0 al : list PlayerRef)
  (t : PlayerRef) (c : Z) :
  freshly_built w0 al0 -> reach w0 al0 w al ->
  dict_get t (vote_table (game w)) = Some c ->
  (floor_half (length al) + 1 ≤ c)%Z ->
  (no_lynch (game w) < ceil_half (length al))%Z /\
  forall t' c', t' ≠ t -> dict_get t' (vote_table (game w)) = Some c' ->
                (c' < floor_half (length al) + 1)%Z.
Proof.
  intros Hfresh Hreach Hc Hge.
  pose proof (reach_consistent _ _ _ _ (fresh_consistent _ _ Hfresh) Hreach)
    as [[Hbase [Hkeys Hvotes]] (Hsum & Hnl & Hexcl)].
  pose proof (reach_exact _ _ _ _ Hreach (fresh_exact _ _ Hfresh)) as Hex.
  assert (t ∈ al) as Ht by (rewrite <- Hkeys; by eapply dict_get_Some_key).
  rewrite (Hex t Ht) in Hc. injection Hc as <-.
  pose proof (half_sum (length al)) as Hhalf.
  pose proof (floor_half_double (length al)) as Hdouble.
  split.
  - rewrite Hnl.
    assert (count (voting_for (objs w) t) al + count (abstaining (objs w)) al
            ≤ count (fun _ => true) al)%Z as Hle.
    { apply count_sum_le. intros p Hp. unfold voting_for, abstaining.
      destruct (objs w !! p) as [pl|] eqn:Hpl; simpl.
      - case_bool_decide as Hv; destruct (is_no_lynch pl) eqn:Hb; try lia.
        destruct (Hexcl p pl Hpl). split; [|done]. injection Hv as ->. eauto.
      - lia. }
    rewrite count_all in Hle. lia.
  - intros t' c' Hne Hc'.
    assert (t' ∈ al) as Ht' by (rewrite <- Hkeys; by eapply dict_get_Some_key).
    rewrite (Hex t' Ht') in Hc'. injection Hc' as <-.
    assert (count (voting_for (objs w) t) al + count (voting_for (objs w) t') al
            ≤ count (fun _ => true) al)%Z as Hle.
    { apply count_sum_le. intros p Hp. unfold voting_for.
      repeat case_bool_decide; simplify_eq; lia. }
    rewrite count_all in Hle. lia.
Qed.

Lemma demo_three_b_reached : reach demo_three [0; 1; 2] demo_three_b [0; 1; 2].
Proof.
  destruct (vote_to_lynch_reach demo_three [0; 1; 2] (demo_vote "a" "b")
              (fresh_settled _ _ demo_three_fresh))
    as (w' & al' & E & Hset & Hreach).
  assert (w' = demo_three_b) as ->.
  { unfold demo_three_b. by rewrite E. }
  assert (al' = [0; 1; 2]) as ->; [|done].
  pose proof Hset as [[[(_ & Hal & _) _] _] _].
  vm_compute in Hal. by injection Hal.
Qed.

Lemma majority_is_unambiguous_witness :
  (no_lynch (game demo_three_b_self) < ceil_half 3)%Z.
Proof.
  apply (majority_is_unambiguous demo_three demo_three_b_self
           [0; 1; 2] [0; 1; 2] 1 2).
  - exact demo_three_fresh.
  - eapply reach_step; [exact demo_three_b_reached|].
    unfold demo_three_b_self. apply step_lynch_vote.
    + apply demo_three_b_settled.
    + refine (bool_decide_unpack _ _). vm_compute. exact I.
    + vm_compute. reflexivity.
    + refine (bool_decide_unpack _ _). vm_compute. exact I.
  - vm_compute. reflexivity.
  - vm_compute. discriminate.
Defined.

(** ** Votes that are turned away *)

Lemma vote_to_lynch_reject_eq g o ls tr m e :
  is_ongoing g = true ->
  rejection (mkWorld g o ls tr) m = Some e ->
  vote_to_lynch m (mkWorld g o ls tr)
  = (Ok tt, answered (mkWorld g o ls tr) (error_text e)).
Proof.
  unfold rejection, answered, vote_to_lynch.
  cbn [game objs lists trace]. intros Hon Hrej. prim. rewrite Hon.
  cbn [negb]. destruct (user_to_player g !! uid (author m)) as [voter|];
    [|by injection Hrej as <-].
  destruct (o !! voter) as [pl|] eqn:Hpl; [|done].
  erewrite bind_Ok; [|by apply get_player_eq]. cbv beta.
  destruct (is_alive pl); cbn [negb] in *; [|by injection Hrej as <-].
  destruct (mentions m) as [|target_user rest]; [by injection Hrej as <-|].
  destruct (user_to_player g !! uid target_user) as [target|];
    [|by injection Hrej as <-].
  destruct (o !! target) as [tl|] eqn:Htl; [|done].
  erewrite bind_Ok; [|by apply get_player_eq]. cbv beta.
  destruct (is_alive tl); cbn [negb] in *; [done|by injection Hrej as <-].
Qed.

Lemma vote_no_lynch_reject_eq g o ls tr m e :
  is_ongoing g = true ->
  no_lynch_rejection (mkWorld g o ls tr) m = Some e ->
  vote_no_lynch m (mkWorld g o ls tr)
  = (Ok tt, answered (mkWorld g o ls tr) (error_text e)).
Proof.
  unfold no_lynch_rejection, answered, vote_no_lynch.
  cbn [game objs lists trace]. intros Hon Hrej. prim. rewrite Hon.
  cbn [negb]. destruct (user_to_player g !! uid (author m)) as [voter|];
    [|by injection Hrej as <-].
  destruct (o !! voter) as [pl|] eqn:Hpl; [|done].
  erewrite bind_Ok; [|by apply get_player_eq]. cbv beta.
  destruct (is_alive pl); cbn [negb] in *; [done|by injection Hrej as <-].
Qed.

(** X9. A no-lynch vote by someone who is not in the game, or by a dead
    player, is answered with one message on the game's channel, the same as
    for a lynch vote, and changes neither the counter nor any player. *)
Theorem vote_no_lynch_refused (w : World) (m : Message) (e : VoteError) :
  is_ongoing (game w) = true ->
  no_lynch_rejection w m = Some e ->
  vote_no_lynch m w = (Ok tt, answered w (error_text e)).
Proof. destruct w as [g o ls tr]. apply vote_no_lynch_reject_eq. Qed.

Lemma vote_no_lynch_refused_witness :
  vote_no_lynch (demo_vote "b" "") demo_night1
  = (Ok tt, answered demo_night1 "Sorry, <@b>. You're dead.").
Proof.
  apply (vote_no_lynch_refused demo_night1 (demo_vote "b" "")
           (VoterDead (mkPlayer (demo_user "b") (Some TownRole) false None false))).
  - vm_compute. reflexivity.
  - vm_compute. reflexivity.
Defined.

(** X10. Once dead, out for good.  If the player a user maps to is dead,
    then after any further sequence of votes every vote of that user, lynch
    or no-lynch, is answered with the "You're dead" message and changes
    nothing, and every lynch vote naming that user first is turned away with
    a message too. *)
Theorem dead_players_stay_out (w : World) (al : list PlayerRef) (u : User)
  (p : PlayerRef) (vs : list Vote) :
  settled w al ->
  user_to_player (game w) !! uid u = Some p ->
  is_alive <$> objs w !! p = Some false ->
  exists w' pl',
    run_votes vs w = (Ok tt, w') /\
    objs w' !! p = Some pl' /\ is_alive pl' = false /\
    (forall m, uid (author m) = uid u ->
       vote_to_lynch m w' = (Ok tt, answered w' (dead_text pl')) /\
       vote_no_lynch m w' = (Ok tt, answered w' (dead_text pl'))) /\
    (forall m t rest, mentions m = t :: rest -> uid t = uid u ->
       exists text, vote_to_lynch m w' = (Ok tt, answered w' text)).
Proof.
  intros Hset Hu Hdead.
  destruct (run_votes_reach vs w al Hset) as (w' & al' & E & Hset' & Hreach).
  destruct (reach_advanced _ _ _ _ Hreach)
    as [(Hlen & _ & _ & Halive & Hs & _) _].
  assert (user_to_player (game w') = user_to_player (game w)) as Hu2p.
  { unfold settings in Hs. by simplify_eq. }
  pose proof Hset' as [[[(Hon & _ & _ & _ & _ & Halloc) _] _] _].
  assert (exists pl', objs w' !! p = Some pl' /\ is_alive pl' = false)
    as (pl' & Hpl' & Hdead').
  { assert (p < length (objs w')) as Hlt.
    { apply (Halloc (uid u)). by rewrite Hu2p. }
    destruct (lookup_lt_is_Some_2 _ _ Hlt) as [pl' Hpl'].
    exists pl'. split; [done|]. destruct (is_alive pl') eqn:Hb; [|done].
    specialize (Halive p). rewrite Hpl' in Halive. simpl in Halive.
    rewrite Hb in Halive. rewrite Halive in Hdead by done. done. }
  exists w', pl'. split_and!; try done.
  - intros m Hm. destruct w' as [g' o' ls' tr']. cbn [game objs] in *. split.
    + apply (vote_to_lynch_reject_eq _ _ _ _ _ (VoterDead pl')); [done|].
      unfold rejection. cbn [game objs]. by rewrite Hm, Hu2p, Hu, Hpl', Hdead'.
    + apply (vote_no_lynch_reject_eq _ _ _ _ _ (VoterDead pl')); [done|].
      unfold no_lynch_rejection. cbn [game objs].
      by rewrite Hm, Hu2p, Hu, Hpl', Hdead'.
  - intros m t rest Hm Ht. destruct w' as [g' o' ls' tr']. cbn [game objs] in *.
    assert (exists e, rejection (mkWorld g' o' ls' tr') m = Some e) as [e He].
    { unfold rejection. cbn [game objs].
      destruct (user_to_player g' !! uid (author m)) as [v|] eqn:Hv; [|eauto].
      destruct (lookup_lt_is_Some_2 o' v (Halloc _ _ Hv)) as [vl ->].
      destruct (is_alive vl); cbn [negb]; [|eauto].
      rewrite Hm, Ht, Hu2p, Hu, Hpl', Hdead'. cbn [negb]. eauto. }
    exists (error_text e). by apply vote_to_lynch_reject_eq.
Qed.

Lemma dead_players_stay_out_witness :
  exists w' pl',
    run_votes [Lynch (demo_vote "a" "c"); NoLynch (demo_vote "d" "")]
      demo_night1 = (Ok tt, w') /\
    vote_to_lynch (demo_vote "b" "a") w' = (Ok tt, answered w' (dead_text pl')).
Proof.
  destruct (dead_players_stay_out demo_night1 [0; 2; 3] (demo_user "b") 1
              [Lynch (demo_vote "a" "c"); NoLynch (demo_vote "d" "")])
    as (w' & pl' & E & _ & _ & Hvote & _).
  - exact demo_night1_settled.
  - vm_compute. reflexivity.
  - vm_compute. reflexivity.
  - exists w', pl'. split; [exact E|]. by apply (Hvote (demo_vote "b" "a")).
Defined.

(** ** What one accepted vote does *)

Lemma vote_no_lynch_voted g o ls tr al m p pl :
  settled (mkWorld g o ls tr) al ->
  user_to_player g !! uid (author m) = Some p ->
  o !! p = Some pl -> is_alive pl = true -> is_no_lynch pl = false ->
  p ∈ al /\
  consistent (no_lynch_voted (mkWorld g o ls tr) p pl) al /\
  exists text,
    vote_no_lynch m (mkWorld g o ls tr)
    = check_if_day_should_progress None
        (answered (no_lynch_voted (mkWorld g o ls tr) p pl) text).
Proof.
  intros [Hcons _] Hp Hpl Hpal Hnl.
  pose proof Hcons as [[Hbase [Hkeys Hvotes]] _].
  cbn [game objs lists trace] in *.
  pose proof Hbase as (Hon & _ & _ & _ & Halive & _).
  assert (p ∈ al) as Hpin by (apply Halive; eauto).
  pose proof (no_lynch_voted_consistent g o ls tr al p pl Hcons Hpin Hpl Hnl)
    as Hcons1.
  split_and!; try done.
  destruct (print_votes_ok
              (game (no_lynch_voted (mkWorld g o ls tr) p pl))
              (objs (no_lynch_voted (mkWorld g o ls tr) p pl)) ls
              (trace (no_lynch_voted (mkWorld g o ls tr) p pl)))
    as [text Eprint].
  { destruct Hcons1 as [[Hbase1 [Hkeys1 _]] _]. rewrite Hkeys1.
    by eapply base_allocated_all. }
  exists text.
  rewrite (vote_no_lynch_accepted g o ls tr m p pl); try done.
  - by erewrite bind_Ok.
  - intros old Hold. apply dict_get_key_Some. rewrite Hkeys.
    exact (Hvotes p pl old Hpin Hpl Hold).
Qed.

(** The day that follows a no-lynch majority. *)
Lemma check_no_lynch_passed w al voted :
  consistent w al ->
  (forall t, voted = Some t ->
     exists c, dict_get t (vote_table (game w)) = Some c /\
               (c < floor_half (length (vote_table (game w))) + 1)%Z) ->
  (ceil_half (length al) ≤ no_lynch (game w))%Z ->
  exists ps,
    lists w !! players (game w) = Some ps /\
    check_if_day_should_progress voted w
    = (Ok tt, day_passed (answered w "The town has voted for no lynch!") ps al) /\
    freshly_built
      (day_passed (answered w "The town has voted for no lynch!") ps al) al.
Proof.
  destruct w as [g o ls tr]. intros Hcons Hlow Hge.
  pose proof Hcons as [[Hbase _] (_ & _ & Hex)].
  cbn [game objs lists trace] in *.
  pose proof Hbase as (_ & Hal & _ & (ps & Hps & _) & _).
  exists ps. split; [done|].
  destruct (day_passed_fresh
              (answered (mkWorld g o ls tr) "The town has voted for no lynch!")
              ps al) as [E Hfresh]; try done.
  split; [|done].
  rewrite (check_no_lynch g o ls tr voted al) by done.
  by rewrite bool_decide_true.
Qed.

(** The day that follows a lynch. *)
Lemma check_lynch_passed w al t pl c :
  consistent w al -> t ∈ al -> objs w !! t = Some pl ->
  dict_get t (vote_table (game w)) = Some c ->
  (floor_half (length (vote_table (game w))) + 1 ≤ c)%Z ->
  exists ps,
    check_if_day_should_progress (Some t) w
    = (Ok tt, day_passed (killed (answered w (lynch_text (game w) pl)) t pl al)
                ps (remove_first t al)) /\
    freshly_built
      (day_passed (killed (answered w (lynch_text (game w) pl)) t pl al)
         ps (remove_first t al)) (remove_first t al).
Proof.
  destruct w as [g o ls tr]. intros Hcons Hin Hpl Hc Hge.
  cbn [game objs lists trace] in *.
  set (w1 := answered (mkWorld g o ls tr) (lynch_text g pl)).
  assert (consistent w1 al) as Hcons1 by exact Hcons.
  destruct (killed_base w1 al t pl Hcons1 Hin Hpl) as [Hbase2 Hex2].
  pose proof Hbase2 as (_ & _ & _ & (ps' & Hps' & _) & _).
  destruct (day_passed_fresh (killed w1 t pl al) ps' (remove_first t al))
    as [E Hfresh]; try done.
  exists ps'. split; [|done].
  rewrite (check_lynch g o ls tr t c pl) by done.
  erewrite bind_Ok; [exact E|].
  apply kill_player_eq; try done.
  by destruct Hcons as [[(_ & ? & _) _] _].
Qed.

Lemma day_passed_alive w ps al q :
  is_alive <$> objs (day_passed w ps al) !! q = is_alive <$> objs w !! q.
Proof. apply reset_votes_alive. Qed.

Lemma day_passed_phase w ps al :
  day_phase (game (day_passed w ps al)) = other_phase (day_phase (game w)) /\
  day_num (game (day_passed w ps al))
  = (match day_phase (game w) with
     | Night => day_num (game w) + 1
     | Day => day_num (game w)
     end)%Z.
Proof.
  destruct w as [g o ls tr]. unfold day_passed, next_day. cbn [game].
  by destruct (day_phase g).
Qed.

Lemma day_passed_trace w text ps al :
  trace (day_passed (answered w text) ps al)
  = trace w ++ [Send (ToChannel (gen_channel (game w))) text;
                Send (ToChannel (gen_channel (game w)))
                  (day_text (next_day (game w)))].
Proof.
  destruct w as [g o ls tr]. unfold day_passed, answered.
  cbn [game trace]. by rewrite <- app_assoc.
Qed.

Lemma day_text_votes nl vt g :
  day_text (next_day (with_votes nl vt g)) = day_text (next_day g).
Proof.
  unfold next_day, day_text. cbn [with_votes day_phase day_num].
  by destruct (day_phase g).
Qed.

(** X11. A no-lynch vote that completes the no-lynch majority ends the
    phase and eliminates nobody: with [n] alive players, when the counter
    with this vote reaches [ceil(n/2)], the handler announces the result and
    the new phase, the game is freshly built over the same alive list, and
    every player is as alive as before. *)
Theorem no_lynch_majority_ends_phase (w : World) (al : list PlayerRef)
  (m : Message) (p : PlayerRef) (pl : Player) :
  settled w al ->
  user_to_player (game w) !! uid (author m) = Some p ->
  objs w !! p = Some pl -> is_alive pl = true -> is_no_lynch pl = false ->
  (ceil_half (length al) ≤ no_lynch (game w) + 1)%Z ->
  exists w' tr0,
    vote_no_lynch m w = (Ok tt, w') /\
    freshly_built w' al /\
    day_phase (game w') = other_phase (day_phase (game w)) /\
    (forall q, is_alive <$> objs w' !! q = is_alive <$> objs w !! q) /\
    trace w'
    = tr0 ++ [Send (ToChannel (gen_channel (game w)))
                "The town has voted for no lynch!";
              Send (ToChannel (gen_channel (game w)))
                (day_text (next_day (game w)))].
Proof.
  destruct w as [g o ls tr]. cbn [game objs lists trace].
  intros Hset Hp Hpl Hpal Hnl Hge.
  destruct (vote_no_lynch_voted g o ls tr al m p pl)
    as (Hpin & Hcons1 & text & E); try done.
  destruct (check_no_lynch_passed
              (answered (no_lynch_voted (mkWorld g o ls tr) p pl) text) al None)
    as (ps & Hps & Echeck & Hfresh); [done|by intros ? [=]|done|].
  exists (day_passed
            (answered (answered (no_lynch_voted (mkWorld g o ls tr) p pl) text)
               "The town has voted for no lynch!") ps al),
    (trace (answered (no_lynch_voted (mkWorld g o ls tr) p pl) text)).
  split_and!.
  - rewrite E. exact Echeck.
  - exact Hfresh.
  - by rewrite (proj1 (day_passed_phase _ _ _)).
  - intros q. rewrite day_passed_alive. cbn [objs answered no_lynch_voted].
    by apply (insert_keeps is_alive _ _ pl).
  - rewrite day_passed_trace. cbn [game answered no_lynch_voted gen_channel with_votes].
    by rewrite day_text_votes.
Qed.

Lemma no_lynch_majority_ends_phase_witness :
  exists w',
    vote_no_lynch (demo_vote "b" "")
      (run_votes [NoLynch (demo_vote "a" "")] demo_three).2 = (Ok tt, w') /\
    freshly_built w' [0; 1; 2] /\
    day_phase (game w') = Night.
Proof.
  destruct (no_lynch_majority_ends_phase
              (run_votes [NoLynch (demo_vote "a" "")] demo_three).2 [0; 1; 2]
              (demo_vote "b" "") 1
              (mkPlayer (demo_user "b") (Some TownRole) true None false))
    as (w' & tr0 & E & Hfresh & Hph & _).
  - apply (settled_after_votes demo_three [0; 1; 2]).
    + apply fresh_settled, demo_three_fresh.
    + vm_compute. reflexivity.
  - vm_compute. reflexivity.
  - vm_compute. reflexivity.
  - reflexivity.
  - reflexivity.
  - vm_compute. discriminate.
  - exists w'. split_and!; [exact E|exact Hfresh|].
    rewrite Hph. vm_compute. reflexivity.
Defined.

Lemma killed_passed_trace w text t pl al ps al' :
  trace (day_passed (killed (answered w text) t pl al) ps al')
  = trace w ++ [Send (ToChannel (gen_channel (game w))) text;
                Send (ToChannel (gen_channel (game w)))
                  (day_text (next_day (game w)))].
Proof.
  destruct w as [g o ls tr]. unfold day_passed, killed, answered.
  cbn [game trace]. by rewrite <- app_assoc.
Qed.

(** X12. A lynch vote that completes the majority eliminates its target and
    ends the phase.  With [n] alive players, when the target's entry already
    stands at [floor(n/2)] and the voter was not voting for the target, the
    handler announces the elimination and the new phase, the target is dead
    and off the alive list, everyone else is as alive as before, and the game
    is freshly built over the remaining players. *)
Theorem lynch_majority_eliminates (w : World) (al : list PlayerRef)
  (m : Message) (p q : PlayerRef) (pl ql : Player) (u : User)
  (rest : list User) (c : Z) :
  settled w al ->
  user_to_player (game w) !! uid (author m) = Some p ->
  objs w !! p = Some pl -> is_alive pl = true ->
  mentions m = u :: rest ->
  user_to_player (game w) !! uid u = Some q ->
  objs w !! q = Some ql -> is_alive ql = true ->
  votes_for pl ≠ Some q ->
  dict_get q (vote_table (game w)) = Some c ->
  (floor_half (length al) ≤ c)%Z ->
  exists w' tr0,
    vote_to_lynch m w = (Ok tt, w') /\
    freshly_built w' (remove_first q al) /\
    (q ∉ remove_first q al) /\
    is_alive <$> objs w' !! q = Some false /\
    (forall r, r ≠ q -> is_alive <$> objs w' !! r = is_alive <$> objs w !! r) /\
    day_phase (game w') = other_phase (day_phase (game w)) /\
    trace w'
    = tr0 ++ [Send (ToChannel (gen_channel (game w))) (lynch_text (game w) ql);
              Send (ToChannel (gen_channel (game w)))
                (day_text (next_day (game w)))].
Proof.
  destruct w as [g o ls tr]. cbn [game objs lists trace].
  intros Hset Hp Hpl Hpal Hm Hq Hql Hqal Hother Hc Hge.
  destruct (vote_to_lynch_voted g o ls tr al m p pl u rest q ql)
    as (Hpin & Hqin & Hcons1 & text & E); try done.
  pose proof Hset as [[[Hbase _] _] _]. cbn [game objs lists trace] in Hbase.
  pose proof Hbase as (_ & _ & Hnd & _).
  assert (p < length o) as Hplt by (by eapply lookup_lt_Some).
  set (w1 := answered (lynch_voted (mkWorld g o ls tr) m p pl q u) text) in *.
  assert (consistent w1 al) as Hcons1' by exact Hcons1.
  assert (exists ql', objs w1 !! q = Some ql' /\ user ql' = user ql)
    as (ql' & Hql' & Huser).
  { unfold w1. cbn [objs answered lynch_voted].
    destruct (decide (q = p)) as [->|Hne].
    - rewrite list_lookup_insert_eq by done. eexists. split; [done|].
      rewrite Hpl in Hql. by injection Hql as <-.
    - rewrite list_lookup_insert_ne by done. by exists ql. }
  assert (dict_get q (vote_table (game w1)) = Some (c + 1)%Z) as Hc1.
  { unfold w1. cbn [game answered lynch_voted vote_table with_votes].
    apply dict_get_add_eq.
    destruct (votes_for pl) as [old|]; cbn [retract]; [|done].
    rewrite dict_get_add_ne; [done|]. by intros ->. }
  assert (length (vote_table (game w1)) = length al) as Hlen.
  { destruct Hcons1' as [Hok _]. by eapply table_length_alive. }
  destruct (check_lynch_passed w1 al q ql' (c + 1)%Z)
    as (ps & Echeck & Hfresh); try done.
  { rewrite Hlen. lia. }
  exists (day_passed (killed (answered w1 (lynch_text (game w1) ql')) q ql' al)
            ps (remove_first q al)), (trace w1).
  split_and!.
  - rewrite E. exact Echeck.
  - exact Hfresh.
  - by apply remove_first_gone.
  - rewrite day_passed_alive. cbn [objs killed answered].
    rewrite list_lookup_insert_eq; [done|]. by eapply lookup_lt_Some.
  - intros r Hr. rewrite day_passed_alive. cbn [objs killed answered].
    rewrite list_lookup_insert_ne by done.
    unfold w1. cbn [objs answered lynch_voted].
    by apply (insert_keeps is_alive _ _ pl).
  - by rewrite (proj1 (day_passed_phase _ _ _)).
  - rewrite killed_passed_trace.
    assert (lynch_text (game w1) ql' = lynch_text g ql) as ->.
    { unfold lynch_text. by rewrite Huser. }
    unfold w1. cbn [game answered lynch_voted gen_channel with_votes].
    by rewrite day_text_votes.
Qed.

Lemma lynch_majority_eliminates_witness :
  exists w',
    vote_to_lynch (demo_vote "c" "b") demo_three_b = (Ok tt, w') /\
    freshly_built w' [0; 2] /\
    is_alive <$> objs w' !! 1 = Some false.
Proof.
  destruct (lynch_majority_eliminates demo_three_b [0; 1; 2]
              (demo_vote "c" "b") 2 1
              (mkPlayer (demo_user "c") (Some TownRole) true None false)
              (mkPlayer (demo_user "b") (Some TownRole) true None false)
              (demo_user "b") [] 1)
    as (w' & tr0 & E & Hfresh & _ & Hdead & _).
  - apply demo_three_b_settled.
  - vm_compute. reflexivity.
  - vm_compute. reflexivity.
  - reflexivity.
  - reflexivity.
  - vm_compute. reflexivity.
  - vm_compute. reflexivity.
  - reflexivity.
  - discriminate.
  - vm_compute. reflexivity.
  - vm_compute. discriminate.
  - exists w'. split_and!; [exact E|exact Hfresh|exact Hdead].
Defined.

(** X13. A no-lynch vote counts once.  When the vote does not complete the
    no-lynch majority, the counter goes up by one, a standing lynch vote of
    the voter is taken back from the table, the voter's record shows no vote
    and a no-lynch, no other record, no list and neither the phase nor the day
    number changes; the same vote sent again is ignored without an answer. *)
Theorem no_lynch_vote_counts_once (w : World) (al : list PlayerRef)
  (m : Message) (p : PlayerRef) (pl : Player) :
  settled w al ->
  user_to_player (game w) !! uid (author m) = Some p ->
  objs w !! p = Some pl -> is_alive pl = true -> is_no_lynch pl = false ->
  (no_lynch (game w) + 1 < ceil_half (length al))%Z ->
  exists w',
    vote_no_lynch m w = (Ok tt, w') /\
    no_lynch (game w') = (no_lynch (game w) + 1)%Z /\
    vote_table (game w') = retract (votes_for pl) (vote_table (game w)) /\
    objs w' !! p = Some (set_is_no_lynch true (set_votes_for None pl)) /\
    (forall q, q ≠ p -> objs w' !! q = objs w !! q) /\
    lists w' = lists w /\
    day_phase (game w') = day_phase (game w) /\
    day_num (game w') = day_num (game w) /\
    vote_no_lynch m w' = (Ok tt, w').
Proof.
  destruct w as [g o ls tr]. cbn [game objs lists trace].
  intros Hset Hp Hpl Hpal Hnl Hlow.
  destruct (vote_no_lynch_voted g o ls tr al m p pl)
    as (Hpin & Hcons1 & text & E); try done.
  pose proof Hcons1 as [[(Hon & Hal & _) _] _].
  assert (p < length o) as Hplt by (by eapply lookup_lt_Some).
  exists (answered (no_lynch_voted (mkWorld g o ls tr) p pl) text).
  split_and!; try done.
  - rewrite E. unfold answered, no_lynch_voted in *.
    cbn [game objs lists trace] in *.
    erewrite check_no_lynch; [|by intros ? [=]|exact Hal].
    cbn [no_lynch with_votes]. by rewrite bool_decide_false by lia.
  - cbn [objs answered no_lynch_voted]. by rewrite list_lookup_insert_eq.
  - intros q Hq. cbn [objs answered no_lynch_voted].
    by rewrite list_lookup_insert_ne.
  - unfold answered, no_lynch_voted. cbn [game objs lists trace].
    apply (vote_no_lynch_idle _ _ _ _ m p
             (set_is_no_lynch true (set_votes_for None pl))); try done.
    by rewrite list_lookup_insert_eq.
Qed.

Lemma no_lynch_vote_counts_once_witness :
  exists w',
    vote_no_lynch (demo_vote "a" "") demo_day1_voted = (Ok tt, w') /\
    no_lynch (game w') = 1%Z /\
    dict_get 1 (vote_table (game w')) = Some 0%Z /\
    vote_no_lynch (demo_vote "a" "") w' = (Ok tt, w').
Proof.
  destruct (no_lynch_vote_counts_once demo_day1_voted [0; 1; 2; 3]
              (demo_vote "a" "") 0
              (mkPlayer (demo_user "a") (Some (MafiaRole "")) true (Some 1) false))
    as (w' & E & Hnl & Hvt & _ & _ & _ & _ & _ & Hagain).
  - apply demo_day1_voted_settled.
  - vm_compute. reflexivity.
  - vm_compute. reflexivity.
  - reflexivity.
  - reflexivity.
  - vm_compute. reflexivity.
  - exists w'. split_and!; [exact E| | |exact Hagain].
    + rewrite Hnl. vm_compute. reflexivity.
    + rewrite Hvt. vm_compute. reflexivity.
Defined.

Lemma count_member f l p : p ∈ l -> f p = true -> (1 ≤ count f l)%Z.
Proof.
  intros Hin Hf. induction l as [|y l IH]; [by apply elem_of_nil in Hin|].
  simpl. pose proof (count_bounds f l).
  apply elem_of_cons in Hin as [<-|Hin].
  - rewrite Hf. lia.
  - specialize (IH Hin). destruct (f y); lia.
Qed.

(** X14. A lynch vote takes back the voter's no-lynch.  When a voter whose
    no-lynch is standing votes for a target and the target's entry stays below
    the majority, the no-lynch counter goes down by one, the target's entry
    goes up by one and no other entry changes, the voter's record loses its
    no-lynch and points at the target, and the phase does not change. *)
Theorem lynch_vote_takes_back_no_lynch (w : World) (al : list PlayerRef)
  (m : Message) (p q : PlayerRef) (pl ql : Player) (u : User)
  (rest : list User) (c : Z) :
  settled w al ->
  user_to_player (game w) !! uid (author m) = Some p ->
  objs w !! p = Some pl -> is_alive pl = true -> is_no_lynch pl = true ->
  mentions m = u :: rest ->
  user_to_player (game w) !! uid u = Some q ->
  objs w !! q = Some ql -> is_alive ql = true ->
  dict_get q (vote_table (game w)) = Some c ->
  (c < floor_half (length al))%Z ->
  exists w',
    vote_to_lynch m w = (Ok tt, w') /\
    no_lynch (game w') = (no_lynch (game w) - 1)%Z /\
    (0 ≤ no_lynch (game w'))%Z /\
    dict_get q (vote_table (game w')) = Some (c + 1)%Z /\
    (forall t, t ≠ q ->
       dict_get t (vote_table (game w')) = dict_get t (vote_table (game w))) /\
    objs w' !! p = Some (set_votes_for (Some q) (set_is_no_lynch false pl)) /\
    day_phase (game w') = day_phase (game w) /\
    lists w' = lists w.
Proof.
  destruct w as [g o ls tr]. cbn [game objs lists trace].
  intros Hset Hp Hpl Hpal Hnl Hm Hq Hql Hqal Hc Hlow.
  destruct (vote_to_lynch_voted g o ls tr al m p pl u rest q ql)
    as (Hpin & Hqin & Hcons1 & text & E); try done.
  pose proof Hset as [[[Hbase [Hkeys _]] (_ & Hcount & Hex)] Hbound].
  cbn [game objs lists trace] in *.
  pose proof Hbase as (_ & Hal & Hnd & _).
  assert (p < length o) as Hplt by (by eapply lookup_lt_Some).
  assert (votes_for pl = None) as Hv.
  { destruct (votes_for pl) as [old|] eqn:Hv; [|done].
    destruct (Hex p pl Hpl). split; [|done]. rewrite Hv. eauto. }
  assert (length (vote_table g) = length al) as Hlen.
  { rewrite <- Hkeys. unfold dict_keys. by rewrite length_fmap. }
  assert (1 ≤ no_lynch g)%Z as Hpos.
  { rewrite Hcount. apply (count_member _ _ p); [done|].
    unfold abstaining. by rewrite Hpl. }
  exists (answered (lynch_voted (mkWorld g o ls tr) m p pl q u) text).
  unfold answered, lynch_voted in *. cbn [game objs lists trace] in *.
  rewrite Hnl, Hv in *. cbn [retract] in *.
  split_and!; try done.
  - rewrite E.
    erewrite check_no_lynch; [|intros t [= <-]|exact Hal].
    + cbn [no_lynch with_votes]. rewrite bool_decide_false; [done|].
      assert (al ≠ []) as Hne by (intros ->; by apply elem_of_nil in Hpin).
      specialize (Hbound Hne). lia.
    + exists (c + 1)%Z. cbn [vote_table with_votes]. split.
      * by apply dict_get_add_eq.
      * assert (length (dict_add q 1 (vote_table g)) = length al) as ->; [|lia].
        rewrite <- Hlen.
        rewrite <- (length_fmap fst (dict_add q 1 (vote_table g))).
        rewrite <- (length_fmap fst (vote_table g)).
        f_equal. apply dict_keys_add.
  - cbn [no_lynch with_votes]. lia.
  - cbn [vote_table with_votes]. by apply dict_get_add_eq.
  - intros t Ht. cbn [vote_table with_votes]. by apply dict_get_add_ne.
  - by rewrite list_lookup_insert_eq.
Qed.

Lemma lynch_vote_takes_back_no_lynch_witness :
  exists w',
    vote_to_lynch (demo_vote "a" "b")
      (run_votes [NoLynch (demo_vote "a" "")] demo_day1).2 = (Ok tt, w') /\
    no_lynch (game w') = 0%Z /\
    dict_get 1 (vote_table (game w')) = Some 1%Z.
Proof.
  destruct (lynch_vote_takes_back_no_lynch
              (run_votes [NoLynch (demo_vote "a" "")] demo_day1).2 [0; 1; 2; 3]
              (demo_vote "a" "b") 0 1
              (mkPlayer (demo_user "a") (Some (MafiaRole "")) true None true)
              (mkPlayer (demo_user "b") (Some TownRole) true None false)
              (demo_user "b") [] 0)
    as (w' & E & Hnl & _ & Hc & _).
  - apply (settled_after_votes demo_day1 [0; 1; 2; 3]).
    + apply fresh_settled, demo_day1_fresh.
    + vm_compute. reflexivity.
  - vm_compute. reflexivity.
  - vm_compute. reflexivity.
  - reflexivity.
  - reflexivity.
  - reflexivity.
  - vm_compute. reflexivity.
  - vm_compute. reflexivity.
  - reflexivity.
  - vm_compute. reflexivity.
  - vm_compute. reflexivity.
  - exists w'. split_and!; [exact E| |exact Hc].
    rewrite Hnl. vm_compute. reflexivity.
Defined.

(** ** What [give_roles] sends *)

Lemma read_loop_omap {B} (f : Player -> B) (o : list Player) ps ys :
  Forall2 (fun p y => f <$> o !! p = Some y) ps ys ->
  omap (fun p => f <$> o !! p) ps = ys.
Proof.
  induction 1 as [|p y ps ys Hy _ IH]; [done|].
  simpl. rewrite Hy. simpl. f_equal. exact IH.
Qed.

Lemma pm_loop g o ls ps :
  allocated o ps ->
  forall tr,
    for_each ps (fun p =>
        pl ← get_player p;
        send_message (ToUser (user pl))
          ("You are a " +:+ role_str (role pl) +:+ "."))
      (mkWorld g o ls tr)
    = (Ok tt, mkWorld g o ls (tr ++ role_pms o ps)).
Proof.
  induction ps as [|p ps IH]; intros Hall tr; simpl.
  - by rewrite app_nil_r.
  - inversion Hall as [|? ? Hp Hps]; subst.
    destruct (lookup_lt_is_Some_2 o p Hp) as [pl Hpl].
    erewrite bind_Ok.
    2:{ erewrite bind_Ok; [|by apply get_player_eq]. reflexivity. }
    cbn [game objs lists trace]. rewrite (IH Hps).
    unfold role_pms. simpl. rewrite Hpl. simpl.
    by rewrite <- app_assoc.
Qed.

Lemma allies_loop g o ls ch mf l :
  (forall m, m ∈ l -> allocated o (remove_first m mf)) ->
  forall tr,
    for_each l (fun m =>
        allies_names ← for_map (remove_first m mf) (fun ally =>
          pl ← get_player ally; mret (uname (user pl)));
        send_message (ToChannel ch)
          ("Your allies are " +:+ join ", " allies_names))
      (mkWorld g o ls tr)
    = (Ok tt, mkWorld g o ls
                (tr ++ ((fun m => Send (ToChannel ch) (allies_text o mf m)) <$> l))).
Proof.
  induction l as [|m l IH]; intros Hall tr; simpl.
  - by rewrite app_nil_r.
  - destruct (read_loop (fun pl => uname (user pl)) g o ls tr (remove_first m mf))
      as (names & En & HF).
    { apply Hall, elem_of_cons. by left. }
    apply read_loop_omap in HF.
    erewrite bind_Ok.
    2:{ erewrite bind_Ok; [|exact En]. reflexivity. }
    cbn [game objs lists trace]. rewrite IH.
    + unfold allies_text. rewrite HF. by rewrite <- app_assoc.
    + intros m' Hm'. apply Hall, elem_of_cons. by right.
Qed.

(** [give_roles] with everything it leaves behind. *)
Lemma give_roles_run R g o ls tr ps :
  fair R -> ls !! players g = Some ps -> allocated o ps ->
  let mf := sample R ps (round_quarter (length ps)) in
  let tw := set_order R (list_difference (remove_dups ps) mf) in
  exists us,
    give_roles R (mkWorld g o ls tr)
    = (Ok tt,
       mkWorld (with_rosters (length ls) (S (length ls)) (players g)
                  (index_users us ps) (with_roles the_roles g))
         (assign_roles mf tw o) ((ls ++ [mf]) ++ [tw])
         (tr ++ give_roles_trace (gen_channel g) (assign_roles mf tw o) ps mf)) /\
    Forall2 (fun p u => user <$> o !! p = Some u) ps us.
Proof.
  intros HR Hps Hall mf tw.
  pose proof (round_quarter_le (length ps)) as Hk.
  destruct (fair_sample R ps _ HR Hk) as [Hlen Hmf]. fold mf in Hlen, Hmf.
  assert (allocated o mf) as Hallmf.
  { eapply allocated_subseteq; [exact Hmf|done]. }
  set (o1 := alter_all (set_role (Some (MafiaRole ""))) mf o).
  assert (allocated o1 tw) as Halltw.
  { eapply (allocated_subseteq _ ps).
    - intros p Hp. by apply (fair_townies R ps mf p HR) in Hp as [? _].
    - unfold allocated, o1. by rewrite alter_all_length. }
  set (o2 := alter_all (set_role (Some TownRole)) tw o1).
  assert (allocated o2 ps) as Hall2.
  { unfold allocated, o2, o1. by rewrite !alter_all_length. }
  set (ls2 := (ls ++ [mf]) ++ [tw]).
  destruct (read_loop user (with_roles the_roles g) o2 ls2
              (tr ++ [Send (ToChannel (gen_channel g)) "Assigning roles to players."])
              ps Hall2) as (us & Eus & HF).
  exists us.
  assert (HF' : Forall2 (fun p u => user <$> o !! p = Some u) ps us).
  { eapply Forall2_impl; [exact HF|]. intros p u Hu. simpl in Hu.
    change o2 with (assign_roles mf tw o) in Hu.
    by rewrite assign_roles_user in Hu. }
  split; [|done].
  unfold give_roles. prim. prim. prim.
  erewrite bind_Ok; [|by apply get_list_eq]. cbv beta zeta.
  rewrite decide_True by done. prim. fold mf tw.
  erewrite bind_Ok; [|by apply role_loop]. cbv beta.
  erewrite bind_Ok; [|by apply role_loop]. cbv beta.
  prim. prim. fold o1 o2 ls2.
  erewrite bind_Ok; [|exact Eus]. cbv beta.
  prim. prim. prim.
  cbn [game objs lists trace].
  erewrite bind_Ok; [|by apply pm_loop]. cbv beta.
  change (assign_roles mf tw o) with o2.
  unfold give_roles_trace.
  cbn [gen_channel with_rosters with_roles].
  rewrite length_app. simpl length. rewrite Nat.add_1_r.
  destruct (decide (1 < length mf)) as [Hmany|Hfew].
  - rewrite allies_loop.
    + by rewrite <- !app_assoc.
    + intros m Hm. eapply (allocated_subseteq _ ps); [|done].
      intros p Hp. by apply Hmf, (remove_first_subseteq m).
  - unfold mret, M_ret. by rewrite <- !app_assoc, app_nil_r.
Qed.

Lemma role_pms_spec o ps :
  allocated o ps ->
  Forall2 (fun p e => exists pl, o !! p = Some pl /\ e = role_pm pl)
    ps (role_pms o ps).
Proof.
  induction ps as [|p ps IH]; intros Hall; [constructor|].
  inversion Hall as [|? ? Hp Hps]; subst.
  destruct (lookup_lt_is_Some_2 o p Hp) as [pl Hpl].
  unfold role_pms. simpl. rewrite Hpl. simpl.
  constructor; [by exists pl|by apply IH].
Qed.

(** X15. Everything [give_roles] sends, in order: the two announcements on
    the game's channel, one private role notice for each entry of the roster
    in roster order, and, only when there is more than one Mafia player, one
    message per Mafia player naming the others, on the game's channel.  So
    the only messages addressed to users are the role notices. *)
Theorem give_roles_messages (R : Chance) (w : World) (ps : list PlayerRef) :
  fair R ->
  lists w !! players (game w) = Some ps ->
  allocated (objs w) ps ->
  exists w' mf,
    give_roles R w = (Ok tt, w') /\
    lists w' !! mafia (game w') = Some mf /\
    trace w'
    = trace w ++ give_roles_trace (gen_channel (game w)) (objs w') ps mf /\
    Forall2 (fun p e => exists pl, objs w' !! p = Some pl /\ e = role_pm pl)
      ps (role_pms (objs w') ps) /\
    (forall u text,
       Send (ToUser u) text
       ∈ give_roles_trace (gen_channel (game w)) (objs w') ps mf ->
       exists p pl, p ∈ ps /\ objs w' !! p = Some pl /\ user pl = u /\
                    text = "You are a " +:+ role_str (role pl) +:+ ".").
Proof.
  destruct w as [g o ls tr]. cbn [game objs lists trace].
  intros HR Hps Hall.
  destruct (give_roles_run R g o ls tr ps HR Hps Hall) as (us & E & _).
  set (mf := sample R ps (round_quarter (length ps))) in *.
  set (tw := set_order R (list_difference (remove_dups ps) mf)) in *.
  assert (allocated (assign_roles mf tw o) ps) as Hall'.
  { unfold allocated. by rewrite assign_roles_length. }
  pose proof (role_pms_spec _ _ Hall') as Hpms.
  eexists _, mf. split; [exact E|].
  cbn [game objs lists trace mafia with_rosters with_roles].
  split_and!; try done.
  - rewrite lookup_app_l by (rewrite length_app; simpl; lia).
    by apply list_lookup_middle.
  - intros u text. unfold give_roles_trace.
    rewrite !elem_of_app, !elem_of_cons, elem_of_nil.
    intros [[[=]|[[=]|[]]]|[Hin|Hin]].
    + apply list_elem_of_lookup in Hin as [i Hi].
      destruct (Forall2_lookup_r _ _ _ _ _ Hpms Hi)
        as (p & Hp & pl & Hpl & Heq).
      injection Heq as -> ->.
      exists p, pl. split_and!; try done. by eapply list_elem_of_lookup_2.
    + destruct (decide (1 < length mf)); [|by apply elem_of_nil in Hin].
      apply list_elem_of_fmap in Hin as (m & [=] & _).
Qed.

Lemma give_roles_messages_witness :
  exists w',
    give_roles first_k demo_lobby8 = (Ok tt, w') /\
    trace w'
    = trace demo_lobby8
      ++ give_roles_trace None (objs w') (seq 0 8) [0; 1].
Proof.
  destruct (give_roles_messages first_k demo_lobby8 (seq 0 8))
    as (w' & mf & E & Hmf & Htr & _).
  - exact first_k_fair.
  - vm_compute. reflexivity.
  - unfold allocated. refine (bool_decide_unpack _ _). vm_compute. exact I.
  - exists w'. split; [exact E|].
    assert (mf = [0; 1]) as <-; [|exact Htr].
    assert (Some mf = Some [0; 1]) as [=]; [|done].
    rewrite <- Hmf.
    assert (w' = (give_roles first_k demo_lobby8).2) as -> by (by rewrite E).
    vm_compute. reflexivity.
Defined.

(** ** How many Mafia *)

Lemma round_quarter_minority n : 0 < n -> 2 * round_quarter n < n.
Proof.
  unfold round_quarter. pose proof (Nat.div_mod_eq n 4) as E.
  pose proof (Nat.mod_upper_bound n 4 ltac:(lia)) as Hr.
  destruct (n mod 4) as [|[|[|r]]]; try lia.
  destruct (n / 4) as [|q]; [simpl; lia|]. destruct (Nat.even (S q)); lia.
Qed.

Lemma round_quarter_zero n : round_quarter n = 0 <-> n <= 2.
Proof.
  unfold round_quarter. pose proof (Nat.div_mod_eq n 4) as E.
  pose proof (Nat.mod_upper_bound n 4 ltac:(lia)) as Hr.
  destruct (n mod 4) as [|[|[|r]]]; try lia.
  destruct (n / 4) as [|q]; [simpl; lia|]. destruct (Nat.even (S q)); lia.
Qed.

Lemma round_quarter_many n : 1 < round_quarter n <-> 6 <= n.
Proof.
  unfold round_quarter. pose proof (Nat.div_mod_eq n 4) as E.
  pose proof (Nat.mod_upper_bound n 4 ltac:(lia)) as Hr.
  destruct (n mod 4) as [|[|[|r]]]; try lia.
  destruct (n / 4) as [|[|q]]; [simpl; lia..|].
  destruct (Nat.even (S (S q))); lia.
Qed.

(** X16. The Mafia are a strict minority.  On a roster of [n >= 1] players
    [give_roles] makes fewer than half of them Mafia; it makes no Mafia at
    all exactly when [n <= 2], and more than one Mafia player, so that the
    messages naming allies are sent, exactly when [n >= 6]. *)
Theorem mafia_is_a_minority (R : Chance) (w : World) (ps : list PlayerRef) :
  fair R ->
  lists w !! players (game w) = Some ps ->
  allocated (objs w) ps ->
  ps ≠ [] ->
  exists w' mf,
    give_roles R w = (Ok tt, w') /\
    lists w' !! mafia (game w') = Some mf /\
    2 * length mf < length ps /\
    (mf = [] <-> length ps <= 2) /\
    (1 < length mf <-> 6 <= length ps).
Proof.
  destruct w as [g o ls tr]. cbn [game objs lists trace].
  intros HR Hps Hall Hne.
  destruct (give_roles_run R g o ls tr ps HR Hps Hall) as (us & E & _).
  destruct (fair_sample R ps _ HR (round_quarter_le (length ps))) as [Hlen _].
  set (mf := sample R ps (round_quarter (length ps))) in *.
  assert (0 < length ps) as Hpos by (destruct ps; [done|simpl; lia]).
  eexists _, mf. split; [exact E|].
  cbn [game objs lists trace mafia with_rosters with_roles].
  split_and!.
  - rewrite lookup_app_l by (rewrite length_app; simpl; lia).
    by apply list_lookup_middle.
  - rewrite Hlen. by apply round_quarter_minority.
  - rewrite <- round_quarter_zero, <- Hlen. split; [by intros ->|].
    by destruct mf.
  - rewrite Hlen. apply round_quarter_many.
Qed.

Lemma mafia_is_a_minority_witness :
  exists w' mf,
    give_roles first_k demo_lobby8 = (Ok tt, w') /\
    lists w' !! mafia (game w') = Some mf /\
    2 * length mf < 8.
Proof.
  destruct (mafia_is_a_minority first_k demo_lobby8 (seq 0 8))
    as (w' & mf & E & Hmf & Hlt & _).
  - exact first_k_fair.
  - vm_compute. reflexivity.
  - unfold allocated. refine (bool_decide_unpack _ _). vm_compute. exact I.
  - discriminate.
  - exists w', mf. split_and!; [exact E|exact Hmf|exact Hlt].
Defined.

(** ** The first game *)

(** [give_roles] and [progress_day] on a lobby, with the world they leave. *)
Lemma lobby_run R g o ls tr ps :
  fair R -> ls !! players g = Some ps -> allocated o ps ->
  let mf := sample R ps (round_quarter (length ps)) in
  let tw := set_order R (list_difference (remove_dups ps) mf) in
  exists us,
    (give_roles R;; progress_day) (mkWorld g o ls tr)
    = (Ok tt,
       day_passed
         (mkWorld (with_rosters (length ls) (S (length ls)) (players g)
                     (index_users us ps) (with_roles the_roles g))
            (assign_roles mf tw o) ((ls ++ [mf]) ++ [tw])
            (tr ++ give_roles_trace (gen_channel g) (assign_roles mf tw o) ps mf))
         ps ps).
Proof.
  intros HR Hps Hall mf tw.
  destruct (give_roles_run R g o ls tr ps HR Hps Hall) as (us & E & _).
  exists us. erewrite bind_Ok; [|exact E].
  assert (((ls ++ [mf]) ++ [tw]) !! players g = Some ps) as Hlook.
  { rewrite !lookup_app_l; [done|..].
    - by eapply lookup_lt_Some.
    - rewrite length_app. apply lookup_lt_Some in Hps. lia. }
  apply day_passed_eq; cbn [players alive with_rosters with_roles]; try done.
  unfold allocated. by rewrite assign_roles_length.
Qed.

Lemma new_players_users (us : list User) mf tw ps :
  user <$> reset_votes ps (assign_roles mf tw (new_Player <$> us)) = us.
Proof.
  apply list_eq. intros i. rewrite list_lookup_fmap.
  rewrite (reset_votes_keeps user) by (by intros []).
  rewrite assign_roles_user, list_lookup_fmap.
  by destruct (us !! i).
Qed.

(** X17. The first game of a new [MafiaGame].  Whatever the start message
    and whoever joins, [start_new_game] announces a join window of 10
    seconds and asks [asyncio.sleep] for the window the message gives (10
    without an argument, 0 for an argument that is no number).  When a float
    can hold that window, the sleep returns, the mentioned users and then the
    joiners are the players, and the start ends on Day 1 of a freshly built
    game that no longer accepts players and keeps the window as its timeout.
    When it cannot, the sleep raises [OverflowError] and the game is left in
    its lobby: only the mentioned users are players, no role is given, and
    the game counts as ongoing and accepting. *)
Theorem first_game_starts (R : Chance) (I : Interp) (joiners : list User)
  (m : Message) :
  fair R ->
  ((join_window I new_MafiaGame m < float_overflow)%Z ->
   exists w' tr',
     start_new_game R I joiners m new_MafiaGame = (Ok tt, w') /\
     freshly_built w' (seq 0 (length (mentions m ++ joiners))) /\
     user <$> objs w' = mentions m ++ joiners /\
     day_phase (game w') = Day /\
     day_num (game w') = 1%Z /\
     timeout (game w') = join_window I new_MafiaGame m /\
     is_accepting (game w') = false /\
     gen_channel (game w') = Some (channel m) /\
     trace w'
     = Send (ToChannel (Some (channel m))) (opening_text 10)
       :: Sleep (join_window I new_MafiaGame m)
       :: tr' ++ [Send (ToChannel (Some (channel m))) "It is now Day 1."]) /\
  ((float_overflow ≤ join_window I new_MafiaGame m)%Z ->
   exists w',
     start_new_game R I joiners m new_MafiaGame = (Raise OverflowError, w') /\
     trace w' = [Send (ToChannel (Some (channel m))) (opening_text 10)] /\
     objs w' = new_Player <$> mentions m /\
     lists w' !! players (game w') = Some (seq 0 (length (mentions m))) /\
     timeout (game w') = join_window I new_MafiaGame m /\
     is_accepting (game w') = true /\
     is_ongoing (game w') = true /\
     day_num (game w') = 0%Z /\
     roles (game w') = ∅ /\
     user_to_player (game w') = ∅).
Proof.
  intros HR. split.
  - intros Hfit.
    destruct (start_new_game_fresh R I joiners m HR Hfit) as (w0 & E0 & Hfresh).
    enough (exists w' tr',
      start_new_game R I joiners m new_MafiaGame = (Ok tt, w') /\
      user <$> objs w' = mentions m ++ joiners /\
      day_phase (game w') = Day /\
      day_num (game w') = 1%Z /\
      timeout (game w') = join_window I new_MafiaGame m /\
      is_accepting (game w') = false /\
      gen_channel (game w') = Some (channel m) /\
      trace w'
      = Send (ToChannel (Some (channel m))) (opening_text 10)
        :: Sleep (join_window I new_MafiaGame m)
        :: tr' ++ [Send (ToChannel (Some (channel m))) "It is now Day 1."])
      as (w' & tr' & E & H).
    { exists w', tr'. split; [exact E|]. split; [|exact H].
      rewrite E in E0. by injection E0 as <-. }
    clear w0 E0 Hfresh. revert Hfit.
    unfold start_new_game, new_MafiaGame, join_window. prim. cbn [is_ongoing].
    erewrite bind_Ok; [|reflexivity]. cbv beta. prim. prim. prim. prim.
    cbn [with_lobby timeout is_accepting gen_channel players townies mafia
           alive roles day_num day_phase no_lynch vote_table user_to_player
           is_ongoing].
    assert (Hlobby : forall t,
      (t < float_overflow)%Z ->
      exists w' tr',
        (for_each (mentions m) add_player;;
         g ← get_game;
         sleep (timeout g);;
         for_each joiners add_player;;
         g0 ← get_game;
         put_game (with_lobby (timeout g0) false (gen_channel g0) g0);;
         give_roles R;; progress_day)
          (mkWorld (mkGame t true true 4 5 6 3 ∅ 0 Night 0 [] ∅
                      (Some (channel m)))
             [] [[]; []; []; []; []; []; []]
             [Send (ToChannel (Some (channel m))) (opening_text 10)])
        = (Ok tt, w') /\
        user <$> objs w' = mentions m ++ joiners /\
        day_phase (game w') = Day /\
        day_num (game w') = 1%Z /\
        timeout (game w') = t /\
        is_accepting (game w') = false /\
        gen_channel (game w') = Some (channel m) /\
        trace w'
        = Send (ToChannel (Some (channel m))) (opening_text 10)
          :: Sleep t
          :: tr' ++ [Send (ToChannel (Some (channel m))) "It is now Day 1."]).
    { intros t Ht.
      erewrite bind_Ok; [|by apply (add_players_eq _ _ _ _ _ [])].
      cbv beta. prim. unfold sleep. cbn [timeout].
      rewrite decide_True by done. prim. cbn [players].
      erewrite bind_Ok;
        [|by apply (add_players_eq _ _ _ _ _ (seq 0 (length (mentions m))))].
      cbv beta. prim. prim.
      cbn [with_lobby timeout is_accepting gen_channel players townies mafia
             alive roles day_num day_phase no_lynch vote_table user_to_player
             is_ongoing].
      rewrite !app_nil_l, length_fmap, <- fmap_app.
      change (length (mentions m)) with (0 + length (mentions m)) at 2.
      rewrite <- seq_app, <- length_app.
      match goal with
      | |- context [(give_roles R;; progress_day) (mkWorld ?G ?O ?LS ?TR)] =>
          destruct (lobby_run R G O LS TR
                      (seq 0 (length (mentions m ++ joiners)))) as (us & E)
      end; try done.
      - unfold allocated. apply Forall_forall. intros p Hp.
        apply elem_of_seq in Hp. rewrite length_fmap. lia.
      - eexists _, _. split; [exact E|].
        unfold day_passed, next_day.
        cbn [game objs lists trace with_lobby timeout is_accepting gen_channel
               players townies mafia alive roles day_num day_phase no_lynch
               vote_table user_to_player is_ongoing with_rosters with_roles
               with_votes with_day].
        split_and!; try done. apply new_players_users. }
    destruct (split_space (content m)) as [|cmd [|arg rest]].
    + intros Hfit. prim. by apply Hlobby.
    + intros Hfit. prim. by apply Hlobby.
    + intros Hfit. prim. by apply Hlobby.
  - unfold start_new_game, new_MafiaGame, join_window. prim. cbn [is_ongoing].
    erewrite bind_Ok; [|reflexivity]. cbv beta. prim. prim. prim. prim.
    cbn [with_lobby timeout is_accepting gen_channel players townies mafia
           alive roles day_num day_phase no_lynch vote_table user_to_player
           is_ongoing].
    assert (Hstuck : forall t,
      (float_overflow ≤ t)%Z ->
      exists w',
        (for_each (mentions m) add_player;;
         g ← get_game;
         sleep (timeout g);;
         for_each joiners add_player;;
         g0 ← get_game;
         put_game (with_lobby (timeout g0) false (gen_channel g0) g0);;
         give_roles R;; progress_day)
          (mkWorld (mkGame t true true 4 5 6 3 ∅ 0 Night 0 [] ∅
                      (Some (channel m)))
             [] [[]; []; []; []; []; []; []]
             [Send (ToChannel (Some (channel m))) (opening_text 10)])
        = (Raise OverflowError, w') /\
        trace w' = [Send (ToChannel (Some (channel m))) (opening_text 10)] /\
        objs w' = new_Player <$> mentions m /\
        lists w' !! players (game w') = Some (seq 0 (length (mentions m))) /\
        timeout (game w') = t /\
        is_accepting (game w') = true /\
        is_ongoing (game w') = true /\
        day_num (game w') = 0%Z /\
        roles (game w') = ∅ /\
        user_to_player (game w') = ∅).
    { intros t Ht.
      erewrite bind_Ok; [|by apply (add_players_eq _ _ _ _ _ [])].
      cbv beta. prim. unfold sleep. cbn [timeout].
      rewrite decide_False by (by apply Z.le_ngt).
      unfold mbind, M_bind, raise. eexists. split; [reflexivity|].
      cbn [game objs lists trace players timeout is_accepting is_ongoing
             day_num roles user_to_player].
      by split_and!. }
    destruct (split_space (content m)) as [|cmd [|arg rest]].
    + intros Hbig. prim. by apply Hstuck.
    + intros Hbig. prim. by apply Hstuck.
    + intros Hbig. prim. by apply Hstuck.
Qed.

Lemma first_game_starts_witness :
  exists tr',
    trace demo_day1
    = Send (ToChannel (Some "general")) (opening_text 10)
      :: Sleep (join_window cpython new_MafiaGame demo_start)
      :: tr' ++ [Send (ToChannel (Some "general")) "It is now Day 1."] /\
    join_window cpython new_MafiaGame demo_start = 5%Z /\
    user <$> objs demo_day1 = demo_user <$> ["a"; "b"; "c"; "d"].
Proof.
  destruct (first_game_starts first_k cpython [demo_user "d"] demo_start
              first_k_fair) as [Hstarts _].
  destruct Hstarts as (w' & tr' & E & _ & Hus & _ & _ & _ & _ & _ & Htr).
  { vm_compute. reflexivity. }
  assert (demo_day1 = w') as ->.
  { unfold demo_day1. by rewrite E. }
  exists tr'. split_and!; [exact Htr|vm_compute; reflexivity|exact Hus].
Defined.

(** ** The report of [print_votes] *)

Lemma voted_by_count o t l :
  allocated o l ->
  exists names,
    voted_by o t l = Some names /\
    Z.of_nat (length names) = count (voting_for o t) l.
Proof.
  induction l as [|p l IH]; intros Hall; simpl.
  - by exists [].
  - inversion Hall as [|? ? Hp Hl]; subst.
    destruct (lookup_lt_is_Some_2 o p Hp) as [pl Hpl].
    destruct (IH Hl) as (rest & E & Hlen).
    rewrite Hpl, E. simpl. eexists. split; [done|].
    rewrite (voting_for_lookup o p pl t Hpl).
    destruct (decide (votes_for pl = Some t)) as [Hv|Hv].
    + rewrite bool_decide_true by done. simpl length. lia.
    + rewrite bool_decide_false by done. lia.
Qed.

(** X18. The vote report agrees with itself.  After any sequence of votes
    on a freshly built game, [print_votes] succeeds, sends one message to the
    game's channel and changes nothing else; and for every entry of the vote
    table, the names its inner loop collects for that player are exactly as
    many as the entry's count. *)
Theorem report_names_match_counts (w : World) (al : list PlayerRef)
  (vs : list Vote) :
  freshly_built w al ->
  exists w' text,
    run_votes vs w = (Ok tt, w') /\
    print_votes w' = (Ok tt, answered w' text) /\
    forall t c,
      dict_get t (vote_table (game w')) = Some c ->
      exists names,
        voted_by (objs w') t (dict_keys (vote_table (game w'))) = Some names /\
        Z.of_nat (length names) = c.
Proof.
  intros Hfresh.
  destruct (run_votes_reach vs w al (fresh_settled _ _ Hfresh))
    as (w' & al' & E & Hset' & Hreach).
  pose proof (reach_exact _ _ _ _ Hreach (fresh_exact _ _ Hfresh)) as Hex.
  pose proof Hset' as [[[Hbase [Hkeys _]] _] _].
  assert (allocated (objs w') al') as Hall by (by eapply base_allocated_all).
  destruct w' as [g' o' ls' tr']. cbn [game objs lists trace] in *.
  destruct (print_votes_ok g' o' ls' tr') as [text Eprint].
  { by rewrite Hkeys. }
  exists (mkWorld g' o' ls' tr'), text. split_and!; try done.
  intros t c Hc. cbn [game objs].
  assert (t ∈ al') as Ht by (rewrite <- Hkeys; by eapply dict_get_Some_key).
  rewrite (Hex t Ht) in Hc. injection Hc as <-.
  rewrite Hkeys. by apply voted_by_count.
Qed.

Lemma report_names_match_counts_witness :
  exists w' text,
    run_votes [Lynch (demo_vote "a" "b"); Lynch (demo_vote "c" "b");
               Lynch (demo_vote "a" "c")] demo_day1 = (Ok tt, w') /\
    print_votes w' = (Ok tt, answered w' text).
Proof.
  destruct (report_names_match_counts demo_day1 [0; 1; 2; 3]
              [Lynch (demo_vote "a" "b"); Lynch (demo_vote "c" "b");
               Lynch (demo_vote "a" "c")] demo_day1_fresh)
    as (w' & text & E & Eprint & _).
  exists w', text. split; [exact E|exact Eprint].
Defined.

(** ** What the shared roster does *)

(** The lynch rule when [self.alive] and [self.players] are one list. *)
Lemma check_lynch_aliased w al t pl c :
  consistent w al -> alive (game w) = players (game w) ->
  t ∈ al -> objs w !! t = Some pl ->
  dict_get t (vote_table (game w)) = Some c ->
  (floor_half (length (vote_table (game w))) + 1 ≤ c)%Z ->
  check_if_day_should_progress (Some t) w
  = (Ok tt, day_passed (killed (answered w (lynch_text (game w) pl)) t pl al)
              (remove_first t al) (remove_first t al)).
Proof.
  destruct w as [g o ls tr]. intros Hcons Halias Hin Hpl Hc Hge.
  cbn [game objs lists trace] in *.
  pose proof Hcons as [[Hbase _] _]. cbn [game objs lists trace] in Hbase.
  pose proof Hbase as (_ & Hal & _ & _ & Halive & _).
  assert (alive g < length ls) as Hlt by (by eapply lookup_lt_Some).
  rewrite (check_lynch g o ls tr t c pl) by done.
  erewrite bind_Ok; [|by apply kill_player_eq].
  apply day_passed_eq.
  - rewrite <- Halias. by apply list_lookup_insert_eq.
  - by apply list_lookup_insert_eq.
  - apply Forall_forall. intros p Hp. rewrite length_insert.
    apply remove_first_subseteq in Hp.
    apply Halive in Hp as (pl' & Hpl' & _). by eapply lookup_lt_Some.
Qed.

(** X19. A lynched player keeps the vote they had.  Once [give_roles] has
    made [self.alive] and [self.players] one list, the player a lynch vote
    eliminates is off the roster before [progress_day] walks it: the record
    of the eliminated player is marked dead and otherwise left as it was,
    standing vote and no-lynch included, while every remaining player's vote
    is cleared. *)
Theorem lynched_player_keeps_standing_vote (w : World) (al : list PlayerRef)
  (m : Message) (p q : PlayerRef) (pl ql : Player) (u : User)
  (rest : list User) (c : Z) :
  settled w al ->
  alive (game w) = players (game w) ->
  user_to_player (game w) !! uid (author m) = Some p ->
  objs w !! p = Some pl -> is_alive pl = true ->
  mentions m = u :: rest ->
  user_to_player (game w) !! uid u = Some q ->
  objs w !! q = Some ql -> is_alive ql = true ->
  q ≠ p -> votes_for pl ≠ Some q ->
  dict_get q (vote_table (game w)) = Some c ->
  (floor_half (length al) ≤ c)%Z ->
  exists w',
    vote_to_lynch m w = (Ok tt, w') /\
    objs w' !! q = Some (set_is_alive false ql) /\
    lists w' !! players (game w') = Some (remove_first q al) /\
    (forall r, r ∈ remove_first q al ->
       exists rl, objs w' !! r = Some rl /\
                  votes_for rl = None /\ is_no_lynch rl = false).
Proof.
  destruct w as [g o ls tr]. cbn [game objs lists trace].
  intros Hset Halias Hp Hpl Hpal Hm Hq Hql Hqal Hne Hother Hc Hge.
  destruct (vote_to_lynch_voted g o ls tr al m p pl u rest q ql)
    as (Hpin & Hqin & Hcons1 & text & E); try done.
  pose proof Hset as [[[Hbase _] _] _]. cbn [game objs lists trace] in Hbase.
  pose proof Hbase as (_ & Hal & Hnd & _ & Halive & _).
  assert (p < length o) as Hplt by (by eapply lookup_lt_Some).
  assert (q < length o) as Hqlt by (by eapply lookup_lt_Some).
  assert (alive g < length ls) as Hlt by (by eapply lookup_lt_Some).
  set (w1 := answered (lynch_voted (mkWorld g o ls tr) m p pl q u) text) in *.
  assert (consistent w1 al) as Hcons1' by exact Hcons1.
  assert (objs w1 !! q = Some ql) as Hql1.
  { unfold w1. cbn [objs answered lynch_voted].
    by rewrite list_lookup_insert_ne by done. }
  assert (dict_get q (vote_table (game w1)) = Some (c + 1)%Z) as Hc1.
  { unfold w1. cbn [game answered lynch_voted vote_table with_votes].
    apply dict_get_add_eq.
    destruct (votes_for pl) as [old|]; cbn [retract]; [|done].
    rewrite dict_get_add_ne; [done|]. by intros ->. }
  assert (length (vote_table (game w1)) = length al) as Hlen.
  { destruct Hcons1' as [Hok _]. by eapply table_length_alive. }
  pose proof (check_lynch_aliased w1 al q ql (c + 1)%Z Hcons1' Halias Hqin
                Hql1 Hc1 ltac:(rewrite Hlen; lia)) as Echeck.
  eexists. split; [rewrite E; exact Echeck|].
  unfold day_passed, killed, w1, answered, lynch_voted.
  cbn [game objs lists trace].
  assert (forall al', players (with_votes 0 (fresh_table al') (next_day
            (with_votes (no_lynch g - (if is_no_lynch pl then 1 else 0))
               (dict_add q 1 (retract (votes_for pl) (vote_table g))) g)))
          = alive g) as Hplayers.
  { intros al'. unfold next_day. cbn [day_phase with_votes].
    by destruct (day_phase g). }
  split_and!.
  - rewrite reset_votes_lookup.
    rewrite decide_False by (by apply remove_first_gone).
    rewrite list_lookup_insert_eq by (by rewrite length_insert). done.
  - rewrite Hplayers. by apply list_lookup_insert_eq.
  - intros r Hr. rewrite reset_votes_lookup, decide_True by done.
    assert (r ≠ q) as Hrq by (intros ->; by eapply remove_first_gone).
    rewrite list_lookup_insert_ne by done.
    apply remove_first_subseteq in Hr.
    apply Halive in Hr as (rl & Hrl & _).
    destruct (decide (r = p)) as [->|Hrp].
    + rewrite list_lookup_insert_eq by done. eexists. by split.
    + rewrite list_lookup_insert_ne by done. rewrite Hrl. eexists. by split.
Qed.

Lemma lynched_player_keeps_standing_vote_witness :
  exists w',
    vote_to_lynch (demo_vote "b" "c")
      (run_votes [Lynch (demo_vote "a" "c"); Lynch (demo_vote "c" "b")]
         demo_three).2 = (Ok tt, w') /\
    is_alive <$> objs w' !! 2 = Some false /\
    votes_for <$> objs w' !! 2 = Some (Some 1).
Proof.
  destruct (lynched_player_keeps_standing_vote
              (run_votes [Lynch (demo_vote "a" "c"); Lynch (demo_vote "c" "b")]
                 demo_three).2 [0; 1; 2]
              (demo_vote "b" "c") 1 2
              (mkPlayer (demo_user "b") (Some TownRole) true None false)
              (mkPlayer (demo_user "c") (Some TownRole) true (Some 1) false)
              (demo_user "c") [] 1)
    as (w' & E & Hq & _).
  - apply (settled_after_votes demo_three [0; 1; 2]).
    + apply fresh_settled, demo_three_fresh.
    + vm_compute. reflexivity.
  - vm_compute. reflexivity.
  - vm_compute. reflexivity.
  - vm_compute. reflexivity.
  - reflexivity.
  - reflexivity.
  - vm_compute. reflexivity.
  - vm_compute. reflexivity.
  - reflexivity.
  - discriminate.
  - discriminate.
  - vm_compute. reflexivity.
  - vm_compute. discriminate.
  - exists w'. split_and!; [exact E|by rewrite Hq..].
Defined.

Lemma index_users_miss (us : list User) (ps : list PlayerRef) (k : string) :
  k ∉ uid <$> us -> index_users us ps !! k = None.
Proof.
  intros Hk. unfold index_users. rewrite index_users_acc; [done|].
  intros Hin. apply Hk.
  apply list_elem_of_fmap in Hin as ([u' p'] & -> & Hin).
  apply list_elem_of_fmap. exists u'. split; [done|].
  by apply elem_of_zip_l in Hin.
Qed.

(** X20. A player added after the roles were given is alive at once but
    unknown to the vote handlers.  [give_roles] makes [self.alive] the roster
    list itself, so a later [add_player] appends the newcomer to the alive
    list as well, with no role; the user lookup built by [give_roles] does not
    hold the newcomer, and a vote by that user is answered with the message
    for users who are not part of the game. *)
Theorem late_player_is_alive_but_unknown (R : Chance) (w : World)
  (ps : list PlayerRef) (u : User) (m : Message) :
  fair R ->
  is_ongoing (game w) = true ->
  lists w !! players (game w) = Some ps ->
  allocated (objs w) ps ->
  (forall p pl, p ∈ ps -> objs w !! p = Some pl -> uid (user pl) ≠ uid u) ->
  uid (author m) = uid u ->
  exists w',
    (give_roles R;; add_player u) w = (Ok tt, w') /\
    lists w' !! players (game w') = Some (ps ++ [length (objs w)]) /\
    lists w' !! alive (game w') = Some (ps ++ [length (objs w)]) /\
    objs w' !! length (objs w) = Some (new_Player u) /\
    user_to_player (game w') !! uid u = None /\
    vote_to_lynch m w' = (Ok tt, answered w' not_in_game_text) /\
    vote_no_lynch m w' = (Ok tt, answered w' not_in_game_text).
Proof.
  destruct w as [g o ls tr]. cbn [game objs lists trace].
  intros HR Hon Hps Hall Hnew Hm.
  destruct (give_roles_run R g o ls tr ps HR Hps Hall) as (us & E & HF).
  set (mf := sample R ps (round_quarter (length ps))) in *.
  set (tw := set_order R (list_difference (remove_dups ps) mf)) in *.
  assert (((ls ++ [mf]) ++ [tw]) !! players g = Some ps) as Hlook.
  { rewrite !lookup_app_l; [done|..].
    - by eapply lookup_lt_Some.
    - rewrite length_app. apply lookup_lt_Some in Hps. lia. }
  assert (players g < length ((ls ++ [mf]) ++ [tw])) as Hlt
    by (by eapply lookup_lt_Some).
  assert (index_users us ps !! uid u = None) as Hmiss.
  { apply index_users_miss. intros Hin.
    apply list_elem_of_fmap in Hin as (u' & Hu' & Hin).
    apply list_elem_of_lookup in Hin as [i Hi].
    destruct (Forall2_lookup_r _ _ _ _ _ HF Hi) as (p & Hp & Hup).
    destruct (o !! p) as [pl|] eqn:Hpl; [|done]. injection Hup as <-.
    apply (Hnew p pl); [by eapply list_elem_of_lookup_2|done|done]. }
  eexists. split.
  { erewrite bind_Ok; [|exact E]. apply add_player_eq.
    cbn [players with_rosters with_roles]. exact Hlook. }
  cbn [game objs lists trace players alive user_to_player with_rosters
         with_roles].
  rewrite assign_roles_length.
  split_and!; try done.
  - by apply list_lookup_insert_eq.
  - by apply list_lookup_insert_eq.
  - apply list_lookup_middle. by rewrite assign_roles_length.
  - apply (vote_to_lynch_reject_eq _ _ _ _ _ NotInGame); [done|].
    unfold rejection. cbn [game objs user_to_player with_rosters with_roles].
    by rewrite Hm, Hmiss.
  - apply (vote_no_lynch_reject_eq _ _ _ _ _ NotInGame); [done|].
    unfold no_lynch_rejection.
    cbn [game objs user_to_player with_rosters with_roles].
    by rewrite Hm, Hmiss.
Qed.

Lemma late_player_is_alive_but_unknown_witness :
  exists w',
    (give_roles first_k;; add_player (demo_user "z")) demo_lobby8 = (Ok tt, w') /\
    lists w' !! alive (game w') = Some (seq 0 8 ++ [8]) /\
    user_to_player (game w') !! "z" = None.
Proof.
  destruct (late_player_is_alive_but_unknown first_k demo_lobby8 (seq 0 8)
              (demo_user "z") (demo_vote "z" "a"))
    as (w' & E & _ & Hal & _ & Hu & _).
  - exact first_k_fair.
  - vm_compute. reflexivity.
  - vm_compute. reflexivity.
  - unfold allocated. refine (bool_decide_unpack _ _). vm_compute. exact I.
  - intros p pl Hp Hpl. apply elem_of_seq in Hp.
    do 8 (destruct p as [|p];
          [vm_compute in Hpl; injection Hpl as <-; vm_compute; discriminate|]).
    lia.
  - reflexivity.
  - exists w'. split_and!; [exact E|exact Hal|exact Hu].
Defined.

(** ** Moving a vote *)

(** C5, as the code has it.  A voter with a standing vote for [A] votes for
    [B].  With [c] the entry of [B] once the vote is counted: when [c] is
    below [floor(n/2) + 1], [A]'s count has gone down by one, [B]'s has gone
    up by one, the voter's [votes_for] is [B], and the counts add up to what
    they did before; when [c] has reached [floor(n/2) + 1], [B] is dead and
    off the alive list, the phase has changed, the table is rebuilt over the
    remaining alive players with every count 0, the no-lynch counter is 0,
    and every remaining alive player has neither a vote nor a no-lynch
    standing. *)
Theorem vote_switch (w : World) (al : list PlayerRef) (m : Message)
  (p A B : PlayerRef) (pl ql : Player) (u : User) (rest : list User) :
  settled w al ->
  user_to_player (game w) !! uid (author m) = Some p ->
  objs w !! p = Some pl -> is_alive pl = true ->
  votes_for pl = Some A ->
  mentions m = u :: rest ->
  user_to_player (game w) !! uid u = Some B ->
  objs w !! B = Some ql -> is_alive ql = true ->
  exists w' c,
    vote_to_lynch m w = (Ok tt, w') /\
    dict_get B (dict_add B 1 (dict_add A (-1) (vote_table (game w)))) = Some c /\
    ((c < floor_half (length al) + 1)%Z ->
     vote_table (game w')
     = dict_add B 1 (dict_add A (-1) (vote_table (game w))) /\
     (A ≠ B ->
      exists cA cB,
        dict_get A (vote_table (game w)) = Some cA /\
        dict_get B (vote_table (game w)) = Some cB /\
        dict_get A (vote_table (game w')) = Some (cA - 1)%Z /\
        dict_get B (vote_table (game w')) = Some (cB + 1)%Z) /\
     votes_for <$> objs w' !! p = Some (Some B) /\
     sum_Z (dict_values (vote_table (game w')))
     = sum_Z (dict_values (vote_table (game w)))) /\
    ((floor_half (length al) + 1 ≤ c)%Z ->
     is_alive <$> objs w' !! B = Some false /\
     lists w' !! alive (game w') = Some (remove_first B al) /\
     (B ∉ remove_first B al) /\
     day_phase (game w') = other_phase (day_phase (game w)) /\
     vote_table (game w') = fresh_table (remove_first B al) /\
     (forall t, t ∈ remove_first B al ->
        dict_get t (vote_table (game w')) = Some 0%Z) /\
     dict_get B (vote_table (game w')) = None /\
     no_lynch (game w') = 0%Z /\
     (forall r rl, r ∈ remove_first B al -> objs w' !! r = Some rl ->
        votes_for rl = None /\ is_no_lynch rl = false)).
Proof.
  destruct w as [g o ls tr]. cbn [game objs lists trace].
  intros Hset Hp Hpl Hpal HA Hm HB Hql Hqal.
  destruct (vote_to_lynch_voted g o ls tr al m p pl u rest B ql)
    as (Hpin & HBin & Hcons1 & text & E); try done.
  pose proof Hset as [[[Hbase [Hkeys Hvotes]] (_ & _ & Hex)] Hbound].
  cbn [game objs lists trace] in *.
  pose proof Hbase as (_ & Hal & Hnd & _).
  assert (p < length o) as Hplt by (by eapply lookup_lt_Some).
  assert (A ∈ al) as HAin by exact (Hvotes p pl A Hpin Hpl HA).
  assert (is_no_lynch pl = false) as Hnl.
  { destruct (is_no_lynch pl) eqn:Hb; [|done].
    destruct (Hex p pl Hpl). split; [by rewrite HA|done]. }
  destruct (dict_get_key_Some A (vote_table g)) as [cA HcA]; [by rewrite Hkeys|].
  destruct (dict_get_key_Some B (vote_table g)) as [cB HcB]; [by rewrite Hkeys|].
  destruct (dict_get_key_Some B (dict_add B 1 (dict_add A (-1) (vote_table g))))
    as [c Hc]; [by rewrite !dict_keys_add, Hkeys|].
  assert (Hlen : length (dict_add B 1 (dict_add A (-1) (vote_table g)))
                 = length al).
  { rewrite <- (length_fmap fst).
    change (length (dict_keys (dict_add B 1 (dict_add A (-1) (vote_table g))))
            = length al).
    by rewrite !dict_keys_add, Hkeys. }
  set (w1 := answered (lynch_voted (mkWorld g o ls tr) m p pl B u) text) in *.
  assert (vote_table (game w1)
          = dict_add B 1 (dict_add A (-1) (vote_table g))) as Hvt1.
  { unfold w1, lynch_voted, answered. cbn [game vote_table with_votes].
    by rewrite HA. }
  destruct (decide (c < floor_half (length al) + 1)%Z) as [Hlow|Hhigh].
  - exists w1, c. split_and!; [|done|intros _|intros ?; lia].
    + rewrite E. unfold w1, lynch_voted, answered.
      cbn [game objs lists trace]. rewrite HA, Hnl. cbn [retract].
      rewrite (check_no_lynch _ _ _ _ _ al).
      * rewrite bool_decide_false; [done|]. cbn [no_lynch with_votes].
        assert (al ≠ []) as Hne by (intros ->; by apply elem_of_nil in Hpin).
        specialize (Hbound Hne). lia.
      * intros t [= <-]. cbn [vote_table with_votes]. rewrite Hlen.
        exists c. by split.
      * cbn [alive with_votes]. done.
    + split_and!.
      * done.
      * intros Hne. exists cA, cB. rewrite Hvt1. split_and!.
        -- done.
        -- done.
        -- rewrite dict_get_add_ne by done. by apply dict_get_add_eq.
        -- apply dict_get_add_eq. by rewrite dict_get_add_ne by done.
      * unfold w1, lynch_voted, answered. cbn [objs].
        by rewrite list_lookup_insert_eq.
      * rewrite Hvt1. rewrite !sum_dict_add; [lia|by rewrite HcA|].
        apply dict_get_key_Some. by rewrite dict_keys_add, Hkeys.
  - assert (exists ql', objs w1 !! B = Some ql') as [ql' Hql'].
    { apply lookup_lt_is_Some_2. unfold w1, lynch_voted, answered.
      cbn [objs]. rewrite length_insert. by eapply lookup_lt_Some. }
    destruct (check_lynch_passed w1 al B ql' c)
      as (ps & Echeck & Hfresh); try done.
    { by rewrite Hvt1. }
    { rewrite Hvt1, Hlen. lia. }
    eexists _, c. split; [rewrite E; exact Echeck|]. split; [done|].
    split; [intros ?; lia|]. intros _.
    destruct Hfresh as ([Hbase' _] & Htable & Hzero & Hclear & _).
    pose proof Hbase' as (_ & Hal' & _).
    assert (B ∉ remove_first B al) as Hgone by (by apply remove_first_gone).
    split_and!; try done.
    + rewrite day_passed_alive. cbn [objs killed answered].
      rewrite list_lookup_insert_eq; [done|]. by eapply lookup_lt_Some.
    + by rewrite (proj1 (day_passed_phase _ _ _)).
    + intros t Ht. rewrite Htable. by apply dict_get_fresh_table.
    + rewrite Htable. destruct (dict_get B (fresh_table _)) as [c'|] eqn:Hc';
        [|done].
      apply dict_get_Some_key in Hc'. exfalso. apply Hgone.
      by apply fresh_table_keys.
Qed.

(** In the game of four [a] moves its vote from [b] to [c]. *)
Lemma vote_switch_witness :
  exists w',
    vote_to_lynch (demo_vote "a" "c") demo_day1_voted = (Ok tt, w') /\
    votes_for <$> objs w' !! 0 = Some (Some 2) /\
    sum_Z (dict_values (vote_table (game w')))
    = sum_Z (dict_values (vote_table (game demo_day1_voted))).
Proof.
  destruct (vote_switch demo_day1_voted [0; 1; 2; 3] (demo_vote "a" "c") 0 1 2
              (mkPlayer (demo_user "a") (Some (MafiaRole "")) true (Some 1) false)
              (mkPlayer (demo_user "c") (Some TownRole) true None false)
              (demo_user "c") [])
    as (w' & c & E & Hc & Hlow & _).
  - exact demo_day1_voted_settled.
  - vm_compute. reflexivity.
  - vm_compute. reflexivity.
  - reflexivity.
  - reflexivity.
  - reflexivity.
  - vm_compute. reflexivity.
  - vm_compute. reflexivity.
  - reflexivity.
  - vm_compute in Hc. injection Hc as <-.
    destruct Hlow as (_ & _ & Hv & Hsum); [vm_compute; reflexivity|].
    exists w'. split_and!; assumption.
Defined.

(** C5, as stated, fails when the switch completes a majority: in the game
    of three, [a] stands on [c] and [c] on [b]; [a] moving to [b] gets [b]
    lynched, after which [a] has no vote, [b] has no entry, and the counts
    add up to 0 instead of 2. *)
Lemma vote_switch_may_lynch :
  votes_for <$> objs demo_three_voted !! 0 = Some (Some 2) /\
  dict_get 2 (vote_table (game demo_three_voted)) = Some 1%Z /\
  dict_get 1 (vote_table (game demo_three_voted)) = Some 1%Z /\
  sum_Z (dict_values (vote_table (game demo_three_voted))) = 2%Z /\
  exists w',
    vote_to_lynch (demo_vote "a" "b") demo_three_voted = (Ok tt, w') /\
    votes_for <$> objs w' !! 0 = Some None /\
    dict_get 1 (vote_table (game w')) = None /\
    dict_get 2 (vote_table (game w')) = Some 0%Z /\
    sum_Z (dict_values (vote_table (game w'))) = 0%Z.
Proof.
  split_and!; [vm_compute; reflexivity..|].
  eexists. split_and!; vm_compute; reflexivity.
Qed.
